(** * Drag engine, navigation and responsive pagination widgets

    A shallow embedding of the drag engine ([Dragdealer]), the navigation
    abstraction ([Navi]), the horizontal slide navigator, the desktop paged
    navigator and the responsive pagination controller, followed by the
    properties established about them.

    Conventions of the embedding.
    - A JavaScript number is a rational, or NaN: [num := option Q] with
      [None] for NaN (and for [undefined] wherever it flows into
      arithmetic).  Rounding error of IEEE doubles is not modelled.
    - A method that mutates [this] is a function from the instance to an
      [outcome]: [Ok] with the new instance, or [Throw] with the instance as
      it was when a TypeError was raised.
    - A user-supplied callback is recorded in a log, with its arguments, at
      the point where the source calls it. *)

From Stdlib Require Import ZArith QArith Qround Qabs Lqa Lia List Bool Sorted.
From Stdlib Require Strings.Ascii Strings.String.
Import ListNotations.

Local Open Scope Z_scope.

(** ** Outcomes: normal completion or a thrown TypeError *)

Inductive outcome (A : Type) : Type :=
| Ok (a : A)
| Throw (a : A).
Arguments Ok {A} a.
Arguments Throw {A} a.

Definition bind {A : Type} (m : outcome A) (f : A -> outcome A) : outcome A :=
  match m with
  | Ok a => f a
  | Throw a => Throw a
  end.

Definition state_of {A : Type} (m : outcome A) : A :=
  match m with Ok a => a | Throw a => a end.

Definition throws {A : Type} (m : outcome A) : bool :=
  match m with Ok _ => false | Throw _ => true end.

(** Run a method of a sub-object held in a field of [b]: the sub-object's
    state, also the one left behind by a throw, is stored back into [b]. *)
Definition lift {A B : Type} (put : A -> B -> B) (m : outcome A) (b : B) : outcome B :=
  match m with
  | Ok a => Ok (put a b)
  | Throw a => Throw (put a b)
  end.

Notation "m >>= f" := (bind m f) (at level 50, left associativity).

(** ** JavaScript numbers *)

Module JS.

Definition num : Type := option Q.

Definition lift1 (f : Q -> Q) (a : num) : num := option_map f a.

Definition lift2 (f : Q -> Q -> Q) (a b : num) : num :=
  match a, b with
  | Some x, Some y => Some (f x y)
  | _, _ => None
  end.

Definition add : num -> num -> num := lift2 Qplus.
Definition sub : num -> num -> num := lift2 Qminus.
Definition mul : num -> num -> num := lift2 Qmult.

(** Division by a divisor that the source guards against zero, or that is
    a non-zero literal. *)
Definition divq (a : num) (d : Q) : num := lift1 (fun x => x / d)%Q a.

Definition qmax (x y : Q) : Q := if Qle_bool x y then y else x.
Definition qmin (x y : Q) : Q := if Qle_bool x y then x else y.

(** [Math.max], [Math.min], [Math.abs]: NaN if an argument is NaN. *)
Definition Math_max : num -> num -> num := lift2 qmax.
Definition Math_min : num -> num -> num := lift2 qmin.
Definition Math_abs : num -> num := lift1 Qabs.

(** [Math.round]: the nearest integer, a tie going up. *)
Definition qround (x : Q) : Z := Qfloor (x + (1 # 2)).
Definition Math_round : num -> num := lift1 (fun x => inject_Z (qround x)).

(** [a < b] and [a > b]: false when an operand is NaN. *)
Definition lt (a b : num) : bool :=
  match a, b with
  | Some x, Some y => negb (Qle_bool y x)
  | _, _ => false
  end.
Definition gt (a b : num) : bool := lt b a.

(** [a == b] on numbers: NaN equals nothing. *)
Definition eqb (a b : num) : bool :=
  match a, b with
  | Some x, Some y => Qeq_bool x y
  | _, _ => false
  end.

(** Truthiness of a number: neither 0 nor NaN. *)
Definition truthy (a : num) : bool :=
  match a with
  | Some x => negb (Qeq_bool x 0)
  | None => false
  end.
Definition qtruthy (x : Q) : bool := negb (Qeq_bool x 0).

(** [a || 0]. *)
Definition or0 (a : num) : num := if truthy a then a else Some 0%Q.

End JS.

Import JS.

(** ** The drag engine *)

Module Dragdealer.

(** The [options] object after [applyDefaults].  The four callbacks are
    kept as flags: whether the option holds a function. *)
Module Opt.
Record t := mk {
  disabled : bool;
  horizontal : bool;
  vertical : bool;
  slide : bool;
  steps : Z;
  snap : bool;
  loose : bool;
  speed : Q;
  xPrecision : Q;
  yPrecision : Q;
  css3 : bool;                (* options.css3 && StylePrefix.transform *)
  tapping : bool;
  x : Q;
  y : Q;
  top : Q;
  bottom : Q;
  left : Q;
  right : Q;
  callback : bool;
  dragStartCallback : bool;
  dragStopCallback : bool;
  animationCallback : bool
}.

(** [Dragdealer.prototype.defaults], with no position, padding or
    callback given. *)
Definition defaults : t :=
  {| disabled := false; horizontal := true; vertical := false;
     slide := true; steps := 0; snap := false; loose := false;
     speed := 1 # 10; xPrecision := 0; yPrecision := 0;
     css3 := true; tapping := true;
     x := 0; y := 0; top := 0; bottom := 0; left := 0; right := 0;
     callback := false; dragStartCallback := false;
     dragStopCallback := false; animationCallback := false |}.
End Opt.

(** What the document reports about the two elements when it is asked:
    [offsetWidth]/[offsetHeight] and the top-left corner of
    [getBoundingClientRect()]. *)
Record Dom := {
  wrapperOffsetWidth : Q;
  wrapperOffsetHeight : Q;
  handleOffsetWidth : Q;
  handleOffsetHeight : Q;
  wrapperRect : Q * Q;
  handleRect : Q * Q
}.

(** The module-level [Cursor] singleton. *)
Record Cursor := {
  cx : Q;
  cy : Q;
  xDiff : Q;
  yDiff : Q
}.

Module Value.
Record t := mk {
  prev : num * num;
  current : num * num;
  target : num * num
}.
End Value.

Module Offset.
Record t := mk {
  wrapper : Q * Q;
  mouse : Q * Q;
  prev : num * num;
  current : num * num;
  target : num * num
}.
End Offset.

Module Bounds.
Record t := mk {
  top : Q;
  bottom : Q;
  left : Q;
  right : Q;
  availWidth : Q;
  availHeight : Q
}.
End Bounds.

(** The fields that only [init()] creates; an instance whose constructor
    returned early has none of them. *)
Record Core := {
  value : Value.t;
  offset : Offset.t;
  dragStartPosition : Q * Q;
  change : num * num;
  stepRatios : list Q;
  bounds : Bounds.t;
  valuePrecision : Q * Q
}.

Inductive Event :=
| Callback (x y : num)
| DragStartCallback (x y : num)
| DragStopCallback (x y : num) (delta : Q * Q)
| AnimationCallback (x y : num).

(** An instance.  The four flags are read for truthiness only, so
    [undefined] is [false]. *)
Record t := {
  options : Opt.t;
  wrapper : bool;                       (* this.wrapper is an element *)
  handle : bool;                        (* this.handle is an element *)
  core : option Core;
  activity : bool;
  dragging : bool;
  tapping : bool;
  disabled : bool;
  timeOffset : num;
  timeStamp : num;
  listening : bool;                     (* listeners bound, frame requested *)
  wrapperActive : bool;                 (* wrapper carries activeClass *)
  handleDisabled : nat;                 (* copies of ' disabled' on the handle *)
  handleStyle : option num * option num;(* offset written for x and for y *)
  log : list Event
}.

(** *** Record updates *)

Definition set_core (c : Core) (d : t) : t :=
  {| options := options d; wrapper := wrapper d; handle := handle d;
     core := Some c; activity := activity d; dragging := dragging d;
     tapping := tapping d; disabled := disabled d;
     timeOffset := timeOffset d; timeStamp := timeStamp d;
     listening := listening d; wrapperActive := wrapperActive d;
     handleDisabled := handleDisabled d; handleStyle := handleStyle d;
     log := log d |}.

Definition set_activity (b : bool) (d : t) : t :=
  {| options := options d; wrapper := wrapper d; handle := handle d;
     core := core d; activity := b; dragging := dragging d;
     tapping := tapping d; disabled := disabled d;
     timeOffset := timeOffset d; timeStamp := timeStamp d;
     listening := listening d; wrapperActive := wrapperActive d;
     handleDisabled := handleDisabled d; handleStyle := handleStyle d;
     log := log d |}.

Definition set_dragging (b : bool) (d : t) : t :=
  {| options := options d; wrapper := wrapper d; handle := handle d;
     core := core d; activity := activity d; dragging := b;
     tapping := tapping d; disabled := disabled d;
     timeOffset := timeOffset d; timeStamp := timeStamp d;
     listening := listening d; wrapperActive := wrapperActive d;
     handleDisabled := handleDisabled d; handleStyle := handleStyle d;
     log := log d |}.

Definition set_tapping (b : bool) (d : t) : t :=
  {| options := options d; wrapper := wrapper d; handle := handle d;
     core := core d; activity := activity d; dragging := dragging d;
     tapping := b; disabled := disabled d;
     timeOffset := timeOffset d; timeStamp := timeStamp d;
     listening := listening d; wrapperActive := wrapperActive d;
     handleDisabled := handleDisabled d; handleStyle := handleStyle d;
     log := log d |}.

Definition set_disabled (b : bool) (n : nat) (d : t) : t :=
  {| options := options d; wrapper := wrapper d; handle := handle d;
     core := core d; activity := activity d; dragging := dragging d;
     tapping := tapping d; disabled := b;
     timeOffset := timeOffset d; timeStamp := timeStamp d;
     listening := listening d; wrapperActive := wrapperActive d;
     handleDisabled := n; handleStyle := handleStyle d;
     log := log d |}.

Definition set_time (off stamp : num) (d : t) : t :=
  {| options := options d; wrapper := wrapper d; handle := handle d;
     core := core d; activity := activity d; dragging := dragging d;
     tapping := tapping d; disabled := disabled d;
     timeOffset := off; timeStamp := stamp;
     listening := listening d; wrapperActive := wrapperActive d;
     handleDisabled := handleDisabled d; handleStyle := handleStyle d;
     log := log d |}.

Definition set_listening (b : bool) (d : t) : t :=
  {| options := options d; wrapper := wrapper d; handle := handle d;
     core := core d; activity := activity d; dragging := dragging d;
     tapping := tapping d; disabled := disabled d;
     timeOffset := timeOffset d; timeStamp := timeStamp d;
     listening := b; wrapperActive := wrapperActive d;
     handleDisabled := handleDisabled d; handleStyle := handleStyle d;
     log := log d |}.

Definition set_wrapperActive (b : bool) (d : t) : t :=
  {| options := options d; wrapper := wrapper d; handle := handle d;
     core := core d; activity := activity d; dragging := dragging d;
     tapping := tapping d; disabled := disabled d;
     timeOffset := timeOffset d; timeStamp := timeStamp d;
     listening := listening d; wrapperActive := b;
     handleDisabled := handleDisabled d; handleStyle := handleStyle d;
     log := log d |}.

Definition set_handleStyle (s : option num * option num) (d : t) : t :=
  {| options := options d; wrapper := wrapper d; handle := handle d;
     core := core d; activity := activity d; dragging := dragging d;
     tapping := tapping d; disabled := disabled d;
     timeOffset := timeOffset d; timeStamp := timeStamp d;
     listening := listening d; wrapperActive := wrapperActive d;
     handleDisabled := handleDisabled d; handleStyle := s;
     log := log d |}.

Definition emit (e : Event) (d : t) : t :=
  {| options := options d; wrapper := wrapper d; handle := handle d;
     core := core d; activity := activity d; dragging := dragging d;
     tapping := tapping d; disabled := disabled d;
     timeOffset := timeOffset d; timeStamp := timeStamp d;
     listening := listening d; wrapperActive := wrapperActive d;
     handleDisabled := handleDisabled d; handleStyle := handleStyle d;
     log := log d ++ [e] |}.

Definition set_value (v : Value.t) (c : Core) : Core :=
  {| value := v; offset := offset c;
     dragStartPosition := dragStartPosition c; change := change c;
     stepRatios := stepRatios c; bounds := bounds c;
     valuePrecision := valuePrecision c |}.

Definition set_offset (o : Offset.t) (c : Core) : Core :=
  {| value := value c; offset := o;
     dragStartPosition := dragStartPosition c; change := change c;
     stepRatios := stepRatios c; bounds := bounds c;
     valuePrecision := valuePrecision c |}.

Definition set_dragStartPosition (p : Q * Q) (c : Core) : Core :=
  {| value := value c; offset := offset c;
     dragStartPosition := p; change := change c;
     stepRatios := stepRatios c; bounds := bounds c;
     valuePrecision := valuePrecision c |}.

Definition set_change (ch : num * num) (c : Core) : Core :=
  {| value := value c; offset := offset c;
     dragStartPosition := dragStartPosition c; change := ch;
     stepRatios := stepRatios c; bounds := bounds c;
     valuePrecision := valuePrecision c |}.

Definition set_bounds (b : Bounds.t) (p : Q * Q) (c : Core) : Core :=
  {| value := value c; offset := offset c;
     dragStartPosition := dragStartPosition c; change := change c;
     stepRatios := stepRatios c; bounds := b;
     valuePrecision := p |}.

Definition set_value_prev (p : num * num) (c : Core) : Core :=
  set_value (Value.mk p (Value.current (value c)) (Value.target (value c))) c.
Definition set_value_current (p : num * num) (c : Core) : Core :=
  set_value (Value.mk (Value.prev (value c)) p (Value.target (value c))) c.
Definition set_value_target (p : num * num) (c : Core) : Core :=
  set_value (Value.mk (Value.prev (value c)) (Value.current (value c)) p) c.

Definition set_offset_wrapper (p : Q * Q) (c : Core) : Core :=
  set_offset (Offset.mk p (Offset.mouse (offset c)) (Offset.prev (offset c))
                (Offset.current (offset c)) (Offset.target (offset c))) c.
Definition set_offset_mouse (p : Q * Q) (c : Core) : Core :=
  set_offset (Offset.mk (Offset.wrapper (offset c)) p (Offset.prev (offset c))
                (Offset.current (offset c)) (Offset.target (offset c))) c.
Definition set_offset_prev (p : num * num) (c : Core) : Core :=
  set_offset (Offset.mk (Offset.wrapper (offset c)) (Offset.mouse (offset c)) p
                (Offset.current (offset c)) (Offset.target (offset c))) c.
Definition set_offset_current (p : num * num) (c : Core) : Core :=
  set_offset (Offset.mk (Offset.wrapper (offset c)) (Offset.mouse (offset c))
                (Offset.prev (offset c)) p (Offset.target (offset c))) c.
Definition set_offset_target (p : num * num) (c : Core) : Core :=
  set_offset (Offset.mk (Offset.wrapper (offset c)) (Offset.mouse (offset c))
                (Offset.prev (offset c)) (Offset.current (offset c)) p) c.

(** *** calculateStepRatios *)

(** The body of the [for] loop, [n] iterations from index [i] on. *)
Fixpoint stepLoop (steps : Z) (n : nat) (i : Z) : list Q :=
  match n with
  | O => []
  | S n' =>
      (if 1 <? steps then (inject_Z i / inject_Z (steps - 1))%Q else 0%Q)
        :: stepLoop steps n' (i + 1)
  end.

Definition calculateStepRatios (o : Opt.t) : list Q :=
  if 1 <=? Opt.steps o then stepLoop (Opt.steps o) (Z.to_nat (Opt.steps o)) 0
  else [].

(** *** Ratios and offsets *)

Definition getRatioByOffset (offset : num) (range padding : Q) : num :=
  if qtruthy range then divq (sub offset (Some padding)) range else Some 0%Q.

Definition getRatiosByOffsets (c : Core) (group : num * num) : num * num :=
  (getRatioByOffset (fst group) (Bounds.availWidth (bounds c)) (Bounds.left (bounds c)),
   getRatioByOffset (snd group) (Bounds.availHeight (bounds c)) (Bounds.top (bounds c))).

Definition getOffsetByRatio (ratio : num) (range padding : Q) : num :=
  add (Math_round (mul ratio (Some range))) (Some padding).

Definition getOffsetsByRatios (c : Core) (group : num * num) : num * num :=
  (getOffsetByRatio (fst group) (Bounds.availWidth (bounds c)) (Bounds.left (bounds c)),
   getOffsetByRatio (snd group) (Bounds.availHeight (bounds c)) (Bounds.top (bounds c))).

Definition groupCompare (a b : num * num) : bool :=
  eqb (fst a) (fst b) && eqb (snd a) (snd b).

(** *** getClosestStep *)

(** The [for] loop of [getClosestStep]: [n] iterations from index [i] on,
    with the running [min] and [k].  [ratios[i]] past the end of the
    table is [undefined], and the comparison with it is false. *)
Fixpoint closestLoop (ratios : list Q) (v : num) (n i : nat) (min : num) (k : nat) : nat :=
  match n with
  | O => k
  | S n' =>
      let dist := Math_abs (sub (nth_error ratios i) v) in
      if lt dist min then closestLoop ratios v n' (S i) dist i
      else closestLoop ratios v n' (S i) min k
  end.

Definition getClosestStep (o : Opt.t) (c : Core) (v : num) : num :=
  nth_error (stepRatios c)
    (closestLoop (stepRatios c) v (Z.to_nat (Opt.steps o)) 0 (Some 1%Q) 0).

Definition getClosestSteps (o : Opt.t) (c : Core) (group : num * num) : num * num :=
  (getClosestStep o c (fst group), getClosestStep o c (snd group)).

(** *** getProperValue, getLooseValue *)

Definition clampRatio (v : num) : num :=
  Math_min (Math_max v (Some 0%Q)) (Some 1%Q).

Definition getProperValue (d : t) (c : Core) (v : num * num) : num * num :=
  let proper := (clampRatio (fst v), clampRatio (snd v)) in
  if (negb (dragging d) && negb (tapping d)) || Opt.snap (options d) then
    if 1 <? Opt.steps (options d) then getClosestSteps (options d) c proper
    else proper
  else proper.

Definition getLooseValue (d : t) (c : Core) (v : num * num) : num * num :=
  let proper := getProperValue d c v in
  (add (fst proper) (divq (sub (fst v) (fst proper)) 4),
   add (snd proper) (divq (sub (snd v) (snd proper)) 4)).

(** *** Callbacks *)

Definition callTargetCallback (d : t) (c : Core) : t :=
  if Opt.callback (options d)
  then emit (Callback (fst (Value.target (value c))) (snd (Value.target (value c)))) d
  else d.

Definition callDragStartCallback (d : t) (c : Core) : t :=
  if Opt.dragStartCallback (options d)
  then emit (DragStartCallback (fst (Value.target (value c))) (snd (Value.target (value c)))) d
  else d.

Definition callDragStopCallback (delta : Q * Q) (d : t) (c : Core) : t :=
  if Opt.dragStopCallback (options d)
  then emit (DragStopCallback (fst (Value.target (value c))) (snd (Value.target (value c))) delta) d
  else d.

Definition callAnimationCallback (d : t) (c : Core) : t * Core :=
  let v := Value.current (value c) in
  let v := if Opt.snap (options d) && (1 <? Opt.steps (options d))
           then getClosestSteps (options d) c v else v in
  if negb (groupCompare v (Value.prev (value c))) then
    ((if Opt.animationCallback (options d)
      then emit (AnimationCallback (fst v) (snd v)) d else d),
     set_value_prev v c)
  else (d, c).

(** *** Rendering *)

Definition renderHandlePosition (d : t) (c : Core) : t :=
  let cur := Offset.current (offset c) in
  if Opt.css3 (options d) then
    set_handleStyle
      ((if Opt.horizontal (options d) then Some (fst cur) else None),
       (if Opt.vertical (options d) then Some (snd cur) else None)) d
  else
    set_handleStyle
      ((if Opt.horizontal (options d) then Some (fst cur) else fst (handleStyle d)),
       (if Opt.vertical (options d) then Some (snd cur) else snd (handleStyle d))) d.

Definition updateOffsetFromValue (d : t) (c : Core) : t * Core :=
  let cur :=
    if negb (Opt.snap (options d))
    then getOffsetsByRatios c (Value.current (value c))
    else getOffsetsByRatios c (getClosestSteps (options d) c (Value.current (value c))) in
  let c := set_offset_current cur c in
  if negb (groupCompare cur (Offset.prev (offset c)))
  then (renderHandlePosition d c, set_offset_prev cur c)
  else (d, c).

(** *** Targets *)

Definition setTargetValue (v : num * num) (loose : bool) (d : t) (c : Core) : t * Core :=
  let target := if loose then getLooseValue d c v else getProperValue d c v in
  let c := set_value_target target c in
  let c := set_offset_target (getOffsetsByRatios c target) c in
  (callTargetCallback d c, c).

Definition setTargetValueByOffset (off : num * num) (loose : bool) (d : t) (c : Core) : Core :=
  let v := getRatiosByOffsets c off in
  let target := if loose then getLooseValue d c v else getProperValue d c v in
  let c := set_value_target target c in
  set_offset_target (getOffsetsByRatios c target) c.

(** *** Bounds *)

Definition calculateBounds (o : Opt.t) (dom : Dom) : Bounds.t :=
  let top := Opt.top o in
  let bottom := (- Opt.bottom o + wrapperOffsetHeight dom)%Q in
  let left := Opt.left o in
  let right := (- Opt.right o + wrapperOffsetWidth dom)%Q in
  Bounds.mk top bottom left right
    ((right - left) - handleOffsetWidth dom)%Q
    ((bottom - top) - handleOffsetHeight dom)%Q.

Definition calculateValuePrecision (o : Opt.t) (b : Bounds.t) : Q * Q :=
  let xPrecision := if qtruthy (Opt.xPrecision o) then Opt.xPrecision o
                    else Qabs (Bounds.availWidth b) in
  let yPrecision := if qtruthy (Opt.yPrecision o) then Opt.yPrecision o
                    else Qabs (Bounds.availHeight b) in
  ((if qtruthy xPrecision then 1 / xPrecision else 0)%Q,
   (if qtruthy yPrecision then 1 / yPrecision else 0)%Q).

(** Run a method body on the fields created by [init()]; reading them on
    an instance that was never initialised raises a TypeError. *)
Definition withCore (d : t) (k : Core -> t * Core) : outcome t :=
  match core d with
  | Some c => let '(d', c') := k c in Ok (set_core c' d')
  | None => Throw d
  end.

(** *** Public methods *)

Definition enable (d : t) : outcome t :=
  if handle d then Ok (set_disabled false 0 d)
  else Throw (set_disabled false (handleDisabled d) d).

Definition disable (d : t) : outcome t :=
  if handle d then Ok (set_disabled true (S (handleDisabled d)) d)
  else Throw (set_disabled true (handleDisabled d) d).

Definition reflow (dom : Dom) (d : t) : outcome t :=
  withCore d (fun c =>
    let c := set_offset_wrapper (wrapperRect dom) c in
    let b := calculateBounds (options d) dom in
    let c := set_bounds b (calculateValuePrecision (options d) b) c in
    updateOffsetFromValue d c).

Definition getValue (d : t) : option (num * num) :=
  match core d with
  | Some c => Some (Value.target (value c))
  | None => None
  end.

Definition setValue (x y : num) (snap : bool) (d : t) : outcome t :=
  withCore d (fun c =>
    let '(d, c) := setTargetValue (x, or0 y) false d c in
    if snap then
      let c := set_value_current (Value.target (value c)) c in
      let '(d, c) := updateOffsetFromValue d c in
      callAnimationCallback d c
    else (d, c)).

Definition startTap (cur : Cursor) (dom : Dom) (d : t) : outcome t :=
  if disabled d || negb (Opt.tapping (options d)) then Ok d
  else
    let d := set_tapping true d in
    withCore d (fun c =>
      let c := set_offset_wrapper (wrapperRect dom) c in
      (d, setTargetValueByOffset
            (Some (cx cur - fst (Offset.wrapper (offset c)) - handleOffsetWidth dom / 2)%Q,
             Some (cy cur - snd (Offset.wrapper (offset c)) - handleOffsetHeight dom / 2)%Q)
            false d c)).

Definition stopTap (d : t) : outcome t :=
  if disabled d || negb (tapping d) then Ok d
  else
    let d := set_tapping false d in
    withCore d (fun c => setTargetValue (Value.current (value c)) false d c).

Definition startDrag (cur : Cursor) (dom : Dom) (d : t) : outcome t :=
  if disabled d then Ok d
  else
    let d := set_dragging true d in
    withCore d (fun c =>
      let c := set_offset_wrapper (wrapperRect dom) c in
      let c := set_dragStartPosition (cx cur, cy cur) c in
      let c := set_offset_mouse
                 ((cx cur - fst (handleRect dom))%Q, (cy cur - snd (handleRect dom))%Q) c in
      let d := set_wrapperActive true d in
      (callDragStartCallback d c, c)).

Definition stopDrag (cur : Cursor) (d : t) : outcome t :=
  if disabled d || negb (dragging d) then Ok d
  else
    let d := set_dragging false d in
    withCore d (fun c =>
      let deltaX := if Qeq_bool (Bounds.availWidth (bounds c)) 0 then 0%Q
                    else ((cx cur - fst (dragStartPosition c)) / Bounds.availWidth (bounds c))%Q in
      let deltaY := if Qeq_bool (Bounds.availHeight (bounds c)) 0 then 0%Q
                    else ((cy cur - snd (dragStartPosition c)) / Bounds.availHeight (bounds c))%Q in
      let target := Value.current (value c) in
      let target :=
        if Opt.slide (options d)
        then (add (fst target) (mul (fst (change c)) (Some 4%Q)),
              add (snd target) (mul (snd (change c)) (Some 4%Q)))
        else target in
      let '(d, c) := setTargetValue target false d c in
      let d := set_wrapperActive false d in
      (callDragStopCallback (deltaX, deltaY) d c, c)).

(** *** The animation loop *)

(** [glide] moves [value.current] towards the target and tells whether
    there was anything to do. *)
Definition glide (d : t) (c : Core) : bool * Core :=
  let tg := Value.target (value c) in
  let cu := Value.current (value c) in
  let diff := (sub (fst tg) (fst cu), sub (snd tg) (snd cu)) in
  if negb (truthy (fst diff)) && negb (truthy (snd diff)) then (false, c)
  else if gt (Math_abs (fst diff)) (Some (fst (valuePrecision c)))
          || gt (Math_abs (snd diff)) (Some (snd (valuePrecision c)))
  then
    let rate := Math_min (divq (mul (Some (Opt.speed (options d))) (timeOffset d)) 25)
                         (Some 1%Q) in
    (true, set_value_current (add (fst cu) (mul (fst diff) rate),
                              add (snd cu) (mul (snd diff) rate)) c)
  else (true, set_value_current tg c).

Definition animate (direct first : bool) (cur : Cursor) (d : t) : outcome t :=
  if direct && negb (dragging d) then Ok d
  else
    withCore d (fun c =>
      let c :=
        if dragging d then
          let prevTarget := Value.target (value c) in
          let off := (Some (cx cur - fst (Offset.wrapper (offset c)) - fst (Offset.mouse (offset c)))%Q,
                      Some (cy cur - snd (Offset.wrapper (offset c)) - snd (Offset.mouse (offset c)))%Q) in
          let c := setTargetValueByOffset off (Opt.loose (options d)) d c in
          set_change (sub (fst (Value.target (value c))) (fst prevTarget),
                      sub (snd (Value.target (value c))) (snd prevTarget)) c
        else c in
      let c := if dragging d || first
               then set_value_current (Value.target (value c)) c else c in
      let '(go, c) :=
        if dragging d then (true, c)
        else let '(g, c') := glide d c in
             if g then (true, c') else (first, c') in
      if go then
        let '(d, c) := updateOffsetFromValue d c in
        callAnimationCallback d c
      else (d, c)).

Definition animateWithRequestAnimationFrame (time : num) (cur : Cursor) (d : t) : outcome t :=
  let d :=
    if truthy time
    then set_time (if truthy (timeStamp d) then sub time (timeStamp d) else Some 0%Q) time d
    else set_time (Some 25%Q) (timeStamp d) d in
  animate false false cur d.

(** The frames the browser runs one after the other, each with its time
    stamp, while the cursor rests. *)
Fixpoint frames (times : list num) (cur : Cursor) (d : t) : outcome t :=
  match times with
  | [] => Ok d
  | time :: rest =>
      animateWithRequestAnimationFrame time cur d >>= frames rest cur
  end.

(** *** Construction *)

Definition blank (o : Opt.t) : t :=
  {| options := o; wrapper := false; handle := false; core := None;
     activity := false; dragging := false; tapping := false; disabled := false;
     timeOffset := None; timeStamp := None; listening := false;
     wrapperActive := false; handleDisabled := 0%nat;
     handleStyle := (None, None); log := [] |}.

Definition set_elements (w h : bool) (d : t) : t :=
  {| options := options d; wrapper := w; handle := h;
     core := core d; activity := activity d; dragging := dragging d;
     tapping := tapping d; disabled := disabled d;
     timeOffset := timeOffset d; timeStamp := timeStamp d;
     listening := listening d; wrapperActive := wrapperActive d;
     handleDisabled := handleDisabled d; handleStyle := handleStyle d;
     log := log d |}.

(** [init()]; the hardware-acceleration style hints it sets first have no
    bearing on the position and are left out. *)
Definition init (dom : Dom) (d : t) : outcome t :=
  let o := options d in
  let start := (or0 (Some (Opt.x o)), or0 (Some (Opt.y o))) in
  let c :=
    {| value := Value.mk (Some (-1)%Q, Some (-1)%Q) start start;
       offset := Offset.mk (0, 0)%Q (0, 0)%Q
                   (Some (-999999)%Q, Some (-999999)%Q)
                   (Some 0%Q, Some 0%Q) (Some 0%Q, Some 0%Q);
       dragStartPosition := (0, 0)%Q;
       change := (Some 0%Q, Some 0%Q);
       stepRatios := calculateStepRatios o;
       bounds := Bounds.mk 0 0 0 0 0 0;      (* unset until reflow() below *)
       valuePrecision := (0, 0)%Q |} in
  let d := set_tapping false (set_dragging false (set_activity false (set_core c d))) in
  reflow dom d >>= fun d =>
  if Opt.disabled o then disable d else Ok d.

Definition bindEventListeners (cur : Cursor) (d : t) : outcome t :=
  animate false true cur (set_listening true d).

(** The first [removeEventListener(this.handle, ...)] reads a property of
    the handle, which raises a TypeError when there is none. *)
Definition unbindEventListeners (d : t) : outcome t :=
  if handle d then Ok (set_listening false d) else Throw d.

(** [new Dragdealer(wrapper, options)]: [wrapperFound] and [handleFound]
    tell whether [getWrapperElement] and [getHandleElement] return an
    element. *)
Definition create (o : Opt.t) (wrapperFound handleFound : bool)
    (cur : Cursor) (dom : Dom) : outcome t :=
  let d := blank o in
  if negb wrapperFound then Ok d
  else
    let d := set_elements true false d in
    if negb handleFound then Ok d
    else
      let d := set_elements true true d in
      init dom d >>= bindEventListeners cur.

(** *** Event handlers

    The mouse handlers, the resize handler and the animation frame; they
    run only while the listeners are bound, and [cur] is the cursor after
    [Cursor.refresh(e)]. *)

Inductive DomEvent :=
| HandleMouseDown
| WrapperMouseDown
| DocumentMouseUp
| WindowResize
| AnimationFrame (time : num).

Definition dispatch (e : DomEvent) (cur : Cursor) (dom : Dom) (d : t) : outcome t :=
  if negb (listening d) then Ok d
  else
    match e with
    | HandleMouseDown => startDrag cur dom (set_activity false d)
    | WrapperMouseDown => startTap cur dom d
    | DocumentMouseUp => stopDrag cur d >>= stopTap
    | WindowResize => reflow dom d
    | AnimationFrame time => animateWithRequestAnimationFrame time cur d
    end.

(** *** Steps *)





(** *** The cursor

    [Cursor.set(e)] and [Cursor.refresh(e)] on the module-level cursor.
    A [Point] is a mouse event or one touch of a touch event; [Scroll]
    holds the scroll offsets of the body and of the document element. *)

Record Point := {
  clientX : Q;
  clientY : Q;
  pageX : Q;
  pageY : Q
}.

Record Scroll := {
  bodyScrollLeft : Q;
  bodyScrollTop : Q;
  docScrollLeft : Q;
  docScrollTop : Q
}.

Inductive PointerEvent :=
| MouseMove (p : Point)               (* type 'mousemove' *)
| MouseOther (p : Point)              (* another mouse event: no touches *)
| Touch (touches : list Point).       (* a touch event *)

Definition Cursor_set (s : Scroll) (e : Point) (cur : Cursor) : Cursor :=
  let lastX := cx cur in
  let lastY := cy cur in
  let '(x, y) :=
    if qtruthy (clientX e) || qtruthy (clientY e) then (clientX e, clientY e)
    else if qtruthy (pageX e) || qtruthy (pageY e) then
      ((pageX e - bodyScrollLeft s - docScrollLeft s)%Q,
       (pageY e - bodyScrollTop s - docScrollTop s)%Q)
    else (cx cur, cy cur) in
  {| cx := x; cy := y;
     xDiff := Qabs (x - lastX); yDiff := Qabs (y - lastY) |}.

(** [Cursor.refresh(e)]; a touch event without a touch makes
    [Cursor.set(undefined)] read a property of [undefined]. *)
Definition Cursor_refresh (s : Scroll) (e : PointerEvent) (cur : Cursor) : outcome Cursor :=
  match e with
  | MouseMove p => Ok (Cursor_set s p cur)
  | MouseOther _ => Ok cur
  | Touch [] => Throw cur
  | Touch (p :: _) => Ok (Cursor_set s p cur)
  end.

Definition draggingOnDisabledAxis (cur : Cursor) (d : t) : bool :=
  (negb (Opt.horizontal (options d)) && negb (Qle_bool (xDiff cur) (yDiff cur)))
  || (negb (Opt.vertical (options d)) && negb (Qle_bool (yDiff cur) (xDiff cur))).

(** *** Handlers of the pointer events

    A handler runs on the cursor and the instance; besides their new
    states it tells whether it called [preventDefault] and
    [stopPropagation] on the event. *)

Record Handled := {
  cursorAfter : Cursor;
  engineAfter : t;
  defaultPrevented : bool;
  propagationStopped : bool
}.

Definition handled (cur : Cursor) (prevented stopped : bool) (m : outcome t)
    : outcome Handled :=
  match m with
  | Ok d => Ok {| cursorAfter := cur; engineAfter := d;
                  defaultPrevented := prevented; propagationStopped := stopped |}
  | Throw d => Throw {| cursorAfter := cur; engineAfter := d;
                        defaultPrevented := prevented; propagationStopped := stopped |}
  end.

(** The part of a handler before its first statement after
    [Cursor.refresh(e)]. *)
Definition refreshed (s : Scroll) (e : PointerEvent) (cur : Cursor) (d : t)
    (k : Cursor -> outcome Handled) : outcome Handled :=
  match Cursor_refresh s e cur with
  | Ok cur' => k cur'
  | Throw cur' => handled cur' false false (Throw d)
  end.

Definition onHandleMouseDown (s : Scroll) (dom : Dom) (e : PointerEvent)
    (cur : Cursor) (d : t) : outcome Handled :=
  refreshed s e cur d (fun cur =>
    handled cur true true (startDrag cur dom (set_activity false d))).

Definition onHandleTouchStart (s : Scroll) (dom : Dom) (e : PointerEvent)
    (cur : Cursor) (d : t) : outcome Handled :=
  refreshed s e cur d (fun cur =>
    handled cur false true (startDrag cur dom (set_activity false d))).

(** [onDocumentMouseMove(e)], [e] a mouse event at [p]; comparing with
    [this.dragStartPosition] needs an initialised instance. *)
Definition onDocumentMouseMove (s : Scroll) (p : Point) (cur : Cursor) (d : t)
    : outcome Handled :=
  match core d with
  | None => handled cur false false (Throw d)
  | Some c =>
      if Qeq_bool (clientX p - fst (dragStartPosition c)) 0
         && Qeq_bool (clientY p - snd (dragStartPosition c)) 0
      then handled cur false false (Ok d)
      else
        refreshed s (MouseMove p) cur d (fun cur =>
          if dragging d then handled cur true false (Ok (set_activity true d))
          else handled cur false false (Ok d))
  end.

Definition onWrapperTouchMove (s : Scroll) (e : PointerEvent) (cur : Cursor) (d : t)
    : outcome Handled :=
  refreshed s e cur d (fun cur =>
    if negb (activity d) && draggingOnDisabledAxis cur d then
      if dragging d then handled cur false false (stopDrag cur d)
      else handled cur false false (Ok d)
    else handled cur true false (Ok (set_activity true d))).

Definition onWrapperMouseDown (s : Scroll) (dom : Dom) (e : PointerEvent)
    (cur : Cursor) (d : t) : outcome Handled :=
  refreshed s e cur d (fun cur => handled cur true false (startTap cur dom d)).

Definition onDocumentMouseUp (cur : Cursor) (d : t) : outcome Handled :=
  handled cur false false (stopDrag cur d >>= stopTap).

Definition onHandleClick (cur : Cursor) (d : t) : outcome Handled :=
  if activity d then handled cur true true (Ok d)
  else handled cur false false (Ok d).

(** The pointer events a bound engine listens to, and the handler each
    one reaches; [onWrapperTouchStart] has the body of
    [onWrapperMouseDown] and [onDocumentTouchEnd] that of
    [onDocumentMouseUp]. *)
Inductive Pointer :=
| HandleDown (e : PointerEvent)       (* mousedown on the handle *)
| HandleTouchStart (e : PointerEvent) (* touchstart on the handle *)
| DocumentMove (p : Point)            (* mousemove on the document *)
| WrapperTouchMove (e : PointerEvent) (* touchmove on the wrapper *)
| WrapperDown (e : PointerEvent)      (* mousedown or touchstart on the wrapper *)
| DocumentUp                          (* mouseup or touchend on the document *)
| HandleClick.                        (* click on the handle *)

Definition pointer (s : Scroll) (dom : Dom) (e : Pointer) (cur : Cursor) (d : t)
    : outcome Handled :=
  match e with
  | HandleDown e => onHandleMouseDown s dom e cur d
  | HandleTouchStart e => onHandleTouchStart s dom e cur d
  | DocumentMove p => onDocumentMouseMove s p cur d
  | WrapperTouchMove e => onWrapperTouchMove s e cur d
  | WrapperDown e => onWrapperMouseDown s dom e cur d
  | DocumentUp => onDocumentMouseUp cur d
  | HandleClick => onHandleClick cur d
  end.

(** A sequence of pointer events, one handler after the other; an
    exception ends it. *)
Fixpoint pointers (s : Scroll) (dom : Dom) (es : list Pointer) (cur : Cursor) (d : t)
    : outcome (Cursor * t) :=
  match es with
  | [] => Ok (cur, d)
  | e :: rest =>
      match pointer s dom e cur d with
      | Ok h => pointers s dom rest (cursorAfter h) (engineAfter h)
      | Throw h => Throw (cursorAfter h, engineAfter h)
      end
  end.

End Dragdealer.

(** ** Helpers of the page scripts

    [getLoopedLastIndex], [getReverseLoopedFirstIndex], [isIndexInLoop],
    [getResolution] and [isMobileResolution] are called by the navigators
    but are defined in a script that is not part of the sources at hand. *)

Module Helpers.

(** Modelled from the spec: [getLoopedLastIndex(length, displayNum,
    firstIndex)] is missing from the sources; the right edge of the
    window is "(left + displayCount - 1) mod N (1-based, wrapping to 1
    rather than 0)". *)
Definition getLoopedLastIndex (length displayNum firstIndex : Z) : Z :=
  (firstIndex + displayNum - 1 - 1) mod length + 1.

(** Modelled from the spec: [getReverseLoopedFirstIndex(length,
    displayNum, lastIndex)] is missing from the sources; the edge indices
    are "the first and last logical index currently visible in a rotating
    fixed-size display window", so this is the first index of the window
    whose last index is [lastIndex], with the same 1-based wrap. *)
Definition getReverseLoopedFirstIndex (length displayNum lastIndex : Z) : Z :=
  (lastIndex - (displayNum - 1) - 1) mod length + 1.

(** The 1-based indices of a window of [n] buttons from [index] on, as
    the loop of [setNaviListItemsPosition] walks them: after the last
    button comes the first. *)
Fixpoint windowFrom (length : Z) (n : nat) (index : Z) : list Z :=
  match n with
  | O => []
  | S n' => index :: windowFrom length n' (if length <? index + 1 then 1 else index + 1)
  end.

(** Modelled from the spec: [isIndexInLoop(length, displayNum, firstIndex,
    index)] is missing from the sources; the edge indices delimit "the
    index range of currently visible paging buttons", so this tells
    whether [index] is one of the [displayNum] buttons visible from
    [firstIndex] on. *)
Definition isIndexInLoop (length displayNum firstIndex index : Z) : bool :=
  existsb (Z.eqb index) (windowFrom length (Z.to_nat displayNum) firstIndex).

Record Breakpoints := {
  tablet : Z;
  pc : Z;
  max : Z
}.

(** The constant [BREAKPOINTS]. *)
Definition BREAKPOINTS : Breakpoints := {| tablet := 640; pc := 960; max := 1340 |}.

Inductive Resolution := ResPhone | ResTablet | ResPc | ResMax.

(** Modelled from the spec: [getResolution(breakpoint, global)] is missing
    from the sources; the viewport width is compared with the named
    thresholds "tablet < pc < max, in ascending pixel order". *)
Definition getResolution (bp : Breakpoints) (innerWidth : Z) : Resolution :=
  if max bp <=? innerWidth then ResMax
  else if pc bp <=? innerWidth then ResPc
  else if tablet bp <=? innerWidth then ResTablet
  else ResPhone.

(** Modelled from the spec: [isMobileResolution(resolution)] is missing
    from the sources; "widths >= pc select the desktop navigator, narrower
    widths select the mobile slide navigator". *)
Definition isMobileResolution (r : Resolution) : bool :=
  match r with
  | ResPhone | ResTablet => true
  | ResPc | ResMax => false
  end.

End Helpers.

(** ** The navigation abstraction *)

Module Navi.

(** A button is a DOM node, known by its identity. *)
Definition Elem : Type := nat.

(** A callback invocation with the object literal it receives. *)
Inductive Call :=
| MouseoverCall (index : Z)
| MouseoutCall (index : Z)
| MousedownCall (index : Z)
| MouseupCall (index : Z)
| ClickCall (prevIndex index : Z)
| ActivateCall (prevIndex index : Z).

(** An invocation together with what [getActivatedIndex()] answers while
    the callback runs. *)
Record Invocation := {
  call : Call;
  activatedThen : Z
}.

Record t := {
  btns : list Elem;
  mouseoverCallback : bool;
  mouseoutCallback : bool;
  mousedownCallback : bool;
  mouseupCallback : bool;
  clickCallback : bool;
  activateCallback : bool;
  currentIndex : Z;
  activateIndex : Z;
  handlers : list Elem                 (* buttons that carry the '.ui.navi' handlers *)
}.

(** The constructor's [options]. *)
Record Options := {
  o_btns : list Elem;
  o_mouseoverCallback : bool;
  o_mouseoutCallback : bool;
  o_mousedownCallback : bool;
  o_mouseupCallback : bool;
  o_clickCallback : bool;
  o_activateCallback : bool
}.

(** [new Navi(options)], for the case that options are given. *)
Definition create (o : Options) : t :=
  {| btns := o_btns o;
     mouseoverCallback := o_mouseoverCallback o;
     mouseoutCallback := o_mouseoutCallback o;
     mousedownCallback := o_mousedownCallback o;
     mouseupCallback := o_mouseupCallback o;
     clickCallback := o_clickCallback o;
     activateCallback := o_activateCallback o;
     currentIndex := 0; activateIndex := 0; handlers := [] |}.

Definition set_indices (cur act : Z) (n : t) : t :=
  {| btns := btns n;
     mouseoverCallback := mouseoverCallback n;
     mouseoutCallback := mouseoutCallback n;
     mousedownCallback := mousedownCallback n;
     mouseupCallback := mouseupCallback n;
     clickCallback := clickCallback n;
     activateCallback := activateCallback n;
     currentIndex := cur; activateIndex := act; handlers := handlers n |}.

Definition set_handlers (h : list Elem) (n : t) : t :=
  {| btns := btns n;
     mouseoverCallback := mouseoverCallback n;
     mouseoutCallback := mouseoutCallback n;
     mousedownCallback := mousedownCallback n;
     mouseupCallback := mouseupCallback n;
     clickCallback := clickCallback n;
     activateCallback := activateCallback n;
     currentIndex := currentIndex n; activateIndex := activateIndex n;
     handlers := h |}.

Definition invoke (c : Call) (n : t) : Invocation :=
  {| call := c; activatedThen := activateIndex n |}.

(** [setBtnsEventHandler(flag)]: bind the handlers on every button of
    [btns], or take them off every button of [btns]. *)
Definition setBtnsEventHandler (flag : bool) (n : t) : t :=
  if flag then set_handlers (handlers n ++ btns n) n
  else set_handlers
         (filter (fun e => negb (existsb (Nat.eqb e) (btns n))) (handlers n)) n.

Definition init (n : t) : t := setBtnsEventHandler true n.

(** [$(btns).index(btn)]: the position of [btn], or -1. *)
Fixpoint indexFrom (i : Z) (l : list Elem) (btn : Elem) : Z :=
  match l with
  | [] => -1
  | e :: l' => if Nat.eqb e btn then i else indexFrom (i + 1) l' btn
  end.
Definition index (l : list Elem) (btn : Elem) : Z := indexFrom 0 l btn.

Definition hasHandler (n : t) (btn : Elem) : bool :=
  existsb (Nat.eqb btn) (handlers n).

Definition mouseoverBtnEventHandler (btn : Elem) (n : t) : list Invocation * t :=
  let n := set_indices (index (btns n) btn + 1) (activateIndex n) n in
  ((if mouseoverCallback n then [invoke (MouseoverCall (currentIndex n)) n] else []), n).

Definition mouseoutBtnEventHandler (btn : Elem) (n : t) : list Invocation * t :=
  ((if mouseoutCallback n then [invoke (MouseoutCall (index (btns n) btn + 1)) n] else []), n).

Definition mousedownBtnEventHandler (btn : Elem) (n : t) : list Invocation * t :=
  ((if mousedownCallback n then [invoke (MousedownCall (index (btns n) btn + 1)) n] else []), n).

Definition mouseupBtnEventHandler (btn : Elem) (n : t) : list Invocation * t :=
  ((if mouseupCallback n then [invoke (MouseupCall (index (btns n) btn + 1)) n] else []), n).

Definition clickBtnEventHandler (btn : Elem) (n : t) : list Invocation * t :=
  let prevIndex := activateIndex n in
  let idx := index (btns n) btn + 1 in
  ((if clickCallback n then [invoke (ClickCall prevIndex idx) n] else [])
     ++ (if activateCallback n then [invoke (ActivateCall prevIndex idx) n] else []),
   set_indices idx idx n).

(** A click reaches the handler only on a button that carries it. *)
Definition click (btn : Elem) (n : t) : list Invocation * t :=
  if hasHandler n btn then clickBtnEventHandler btn n else ([], n).

Definition getBtns (n : t) : list Elem := btns n.

Definition getBtn (i : Z) (n : t) : option Elem :=
  let idx := i - 1 in
  if (idx <? 0) || (Z.of_nat (length (btns n)) <=? idx) then None
  else nth_error (btns n) (Z.to_nat idx).

Definition getActivatedIndex (n : t) : Z := activateIndex n.

Definition activate (i : Z) (n : t) : list Invocation * t :=
  let idx := if (i <=? 0) || (Z.of_nat (length (btns n)) <? i) then 0 else i in
  ((if activateCallback n then [invoke (ActivateCall (activateIndex n) idx) n] else []),
   set_indices (currentIndex n) idx n).

Definition destroy (n : t) : t :=
  let n := setBtnsEventHandler false n in
  {| btns := [];
     mouseoverCallback := false;
     mouseoutCallback := false;
     mousedownCallback := mousedownCallback n;
     mouseupCallback := mouseupCallback n;
     clickCallback := false;
     activateCallback := false;
     currentIndex := 0; activateIndex := 0; handlers := handlers n |}.

End Navi.

(** ** The horizontal slide navigator *)

Module HorizontalSlideNavi.

(** The constructor's options after the defaults were merged in, and
    whether [$(opt.wrap).get(0)] and its handle exist. *)
Record Options := {
  o_navi : Navi.Options;
  wrapFound : bool;
  handleFound : bool;
  o_disabled : bool;
  o_slide : bool;
  o_loose : bool;
  o_speed : Q;
  o_css3 : bool;
  dragStartCallback : bool;
  dragStopCallback : bool;
  slideEndCallback : bool
}.

(** What the page reports when the navigator asks. *)
Record Env := {
  cursor : Dragdealer.Cursor;
  dom : Dragdealer.Dom;
  handleOuterWidth : Q;                 (* $(handle).outerWidth() *)
  wrapWidth : Q                         (* $(opt.wrap).width() *)
}.

(** An instance: the inherited [Navi] part and the fields of its own. *)
Record t := {
  opt : Options;                        (* this.option *)
  navi : Navi.t;
  dragDealer : option Dragdealer.t;
  isDraggable : bool;
  resizeHandler : bool                  (* 'resize.ui.horizontalslidenavi' bound *)
}.

Definition set_navi (n : Navi.t) (h : t) : t :=
  {| opt := opt h; navi := n; dragDealer := dragDealer h;
     isDraggable := isDraggable h; resizeHandler := resizeHandler h |}.
Definition set_dragDealer (d : option Dragdealer.t) (h : t) : t :=
  {| opt := opt h; navi := navi h; dragDealer := d;
     isDraggable := isDraggable h; resizeHandler := resizeHandler h |}.
Definition set_isDraggable (b : bool) (h : t) : t :=
  {| opt := opt h; navi := navi h; dragDealer := dragDealer h;
     isDraggable := b; resizeHandler := resizeHandler h |}.
Definition set_resizeHandler (b : bool) (h : t) : t :=
  {| opt := opt h; navi := navi h; dragDealer := dragDealer h;
     isDraggable := isDraggable h; resizeHandler := b |}.

(** A method of the drag engine called through [this.dragDealer]; calling
    it on [null] raises a TypeError. *)
Definition onDragDealer (f : Dragdealer.t -> outcome Dragdealer.t) (h : t) : outcome t :=
  match dragDealer h with
  | Some d => lift (fun d' => set_dragDealer (Some d')) (f d) h
  | None => Throw h
  end.

(** [new HorizontalSlideNavi(options)], for the case that options and
    the Dragdealer library are given. *)
Definition create (o : Options) : t :=
  {| opt := o; navi := Navi.create (o_navi o); dragDealer := None;
     isDraggable := false; resizeHandler := false |}.

(** The options object handed to [new Dragdealer] by [setInstance]. *)
Definition dragdealerOptions (o : Options) : Dragdealer.Opt.t :=
  {| Dragdealer.Opt.disabled := o_disabled o;
     Dragdealer.Opt.horizontal := true;
     Dragdealer.Opt.vertical := false;
     Dragdealer.Opt.slide := o_slide o;
     Dragdealer.Opt.steps := 0;
     Dragdealer.Opt.snap := false;
     Dragdealer.Opt.loose := o_loose o;
     Dragdealer.Opt.speed := o_speed o;
     Dragdealer.Opt.xPrecision := 0;
     Dragdealer.Opt.yPrecision := 0;
     Dragdealer.Opt.css3 := o_css3 o;
     Dragdealer.Opt.tapping := true;
     Dragdealer.Opt.x := 0; Dragdealer.Opt.y := 0;
     Dragdealer.Opt.top := 0; Dragdealer.Opt.bottom := 0;
     Dragdealer.Opt.left := 0; Dragdealer.Opt.right := 0;
     Dragdealer.Opt.callback := slideEndCallback o;
     Dragdealer.Opt.dragStartCallback := dragStartCallback o;
     Dragdealer.Opt.dragStopCallback := dragStopCallback o;
     Dragdealer.Opt.animationCallback := false |}.

Definition setInstance (env : Env) (h : t) : outcome t :=
  match Dragdealer.create (dragdealerOptions (opt h))
          (wrapFound (opt h)) (wrapFound (opt h) && handleFound (opt h))
          (cursor env) (dom env) with
  | Ok d => Ok (set_dragDealer (Some d) h)
  | Throw _ => Throw h
  end.

Definition setValue (x y : num) (h : t) : outcome t :=
  onDragDealer (Dragdealer.setValue x y false) h.

Definition setRatioX (ratioX : num) (h : t) : outcome t :=
  setValue ratioX (Some 0%Q) h.

Definition getRatioX (h : t) : option num :=
  match dragDealer h with
  | Some d => option_map fst (Dragdealer.getValue d)
  | None => None
  end.

(** [setX(x)]: [getOffsetRatioByPosition] reads the bounds of the drag
    engine, which raises a TypeError when it has none. *)
Definition setX (x : num) (h : t) : outcome t :=
  match dragDealer h with
  | Some d =>
      match Dragdealer.core d with
      | Some c =>
          let off := Dragdealer.getRatiosByOffsets c (x, Some 0%Q) in
          setValue (fst off) (snd off) h
      | None => Throw h
      end
  | None => Throw h
  end.

Definition enable (h : t) : outcome t := onDragDealer Dragdealer.enable h.
Definition disable (h : t) : outcome t := onDragDealer Dragdealer.disable h.

Definition resize (env : Env) (h : t) : outcome t :=
  match dragDealer h with
  | None => Ok h
  | Some d =>
      let outer := if Dragdealer.handle d then Some (handleOuterWidth env) else None in
      let width := if wrapFound (opt h) then Some (wrapWidth env) else None in
      if gt outer width then
        enable h >>= fun h => Ok (set_isDraggable true h)
      else
        (if negb (Dragdealer.disabled d) then disable h else Ok h) >>= fun h =>
        setRatioX (Some 0%Q) h >>= fun h =>
        Ok (set_isDraggable false h)
  end.

Definition init (env : Env) (h : t) : outcome t :=
  let h := set_navi (Navi.init (navi h)) h in
  setInstance env h >>= fun h =>
  resize env (set_resizeHandler true h).

Definition isSlidable (h : t) : bool := isDraggable h.

Definition getBtns (h : t) : list Navi.Elem := Navi.getBtns (navi h).
Definition getBtn (i : Z) (h : t) : option Navi.Elem := Navi.getBtn i (navi h).
Definition getActivatedIndex (h : t) : Z := Navi.getActivatedIndex (navi h).

Definition activate (i : Z) (h : t) : list Navi.Invocation * t :=
  let '(calls, n) := Navi.activate i (navi h) in (calls, set_navi n h).

Definition click (btn : Navi.Elem) (h : t) : list Navi.Invocation * t :=
  let '(calls, n) := Navi.click btn (navi h) in (calls, set_navi n h).

Definition destroy (h : t) : outcome t :=
  let h := set_isDraggable false (set_resizeHandler false h) in
  (match dragDealer h with
   | Some _ => onDragDealer Dragdealer.unbindEventListeners h
   | None => Ok h
   end) >>= fun h =>
  let h := set_dragDealer None h in
  Ok (set_navi (Navi.destroy (navi h)) h).

End HorizontalSlideNavi.

(** ** The desktop paged navigator *)

Module DesktopPaginationNavi.

Inductive Direction := prev | next.

Record Edge := {
  left : Z;
  right : Z
}.

(** What the page holds under the '.pagination-pc' wrap. *)
Record Dom := {
  listItems : nat;                      (* $('li', naviWrap).length *)
  btns : list Navi.Elem                 (* $('.btns li a', wrap) *)
}.

Record t := {
  wrap : bool;                          (* wrap.length > 0 *)
  firstIndex : Z;
  clickCallback : bool;
  navi : option Navi.t;
  naviListItems : nat;                  (* naviListItems.length *)
  prevBtn : bool;                       (* not null *)
  nextBtn : bool;                       (* not null *)
  prevHandler : bool;                   (* 'click.ui.desktoppaginationnavi' on prevBtn *)
  nextHandler : bool;                   (* 'click.ui.desktoppaginationnavi' on nextBtn *)
  edgeBtnsIndex : Edge;
  resizeHandler : bool;                 (* 'resize.ui.desktoppaginationnavi' bound *)
  shown : list Z;                       (* list items shown, by slot *)
  onBtn : option Navi.Elem              (* the button that has class 'on' *)
}.

Definition DISPLAY_BTN_NUM : Z := 4.

Definition create (wrapFound : bool) (clickCb : bool) (first : Z) : t :=
  {| wrap := wrapFound; firstIndex := first; clickCallback := clickCb;
     navi := None; naviListItems := 0%nat;
     prevBtn := false; nextBtn := false;
     prevHandler := false; nextHandler := false;
     edgeBtnsIndex := {| left := 0; right := 0 |};
     resizeHandler := false; shown := []; onBtn := None |}.

Definition set_navi (n : option Navi.t) (d : t) : t :=
  {| wrap := wrap d; firstIndex := firstIndex d; clickCallback := clickCallback d;
     navi := n; naviListItems := naviListItems d;
     prevBtn := prevBtn d; nextBtn := nextBtn d;
     prevHandler := prevHandler d; nextHandler := nextHandler d;
     edgeBtnsIndex := edgeBtnsIndex d;
     resizeHandler := resizeHandler d; shown := shown d; onBtn := onBtn d |}.

Definition set_naviListItems (k : nat) (d : t) : t :=
  {| wrap := wrap d; firstIndex := firstIndex d; clickCallback := clickCallback d;
     navi := navi d; naviListItems := k;
     prevBtn := prevBtn d; nextBtn := nextBtn d;
     prevHandler := prevHandler d; nextHandler := nextHandler d;
     edgeBtnsIndex := edgeBtnsIndex d;
     resizeHandler := resizeHandler d; shown := shown d; onBtn := onBtn d |}.

Definition set_prevBtn (b h : bool) (d : t) : t :=
  {| wrap := wrap d; firstIndex := firstIndex d; clickCallback := clickCallback d;
     navi := navi d; naviListItems := naviListItems d;
     prevBtn := b; nextBtn := nextBtn d;
     prevHandler := h; nextHandler := nextHandler d;
     edgeBtnsIndex := edgeBtnsIndex d;
     resizeHandler := resizeHandler d; shown := shown d; onBtn := onBtn d |}.

Definition set_nextBtn (b h : bool) (d : t) : t :=
  {| wrap := wrap d; firstIndex := firstIndex d; clickCallback := clickCallback d;
     navi := navi d; naviListItems := naviListItems d;
     prevBtn := prevBtn d; nextBtn := b;
     prevHandler := prevHandler d; nextHandler := h;
     edgeBtnsIndex := edgeBtnsIndex d;
     resizeHandler := resizeHandler d; shown := shown d; onBtn := onBtn d |}.

Definition set_edgeBtnsIndex (e : Edge) (d : t) : t :=
  {| wrap := wrap d; firstIndex := firstIndex d; clickCallback := clickCallback d;
     navi := navi d; naviListItems := naviListItems d;
     prevBtn := prevBtn d; nextBtn := nextBtn d;
     prevHandler := prevHandler d; nextHandler := nextHandler d;
     edgeBtnsIndex := e;
     resizeHandler := resizeHandler d; shown := shown d; onBtn := onBtn d |}.

Definition set_resizeHandler (b : bool) (d : t) : t :=
  {| wrap := wrap d; firstIndex := firstIndex d; clickCallback := clickCallback d;
     navi := navi d; naviListItems := naviListItems d;
     prevBtn := prevBtn d; nextBtn := nextBtn d;
     prevHandler := prevHandler d; nextHandler := nextHandler d;
     edgeBtnsIndex := edgeBtnsIndex d;
     resizeHandler := b; shown := shown d; onBtn := onBtn d |}.

Definition set_shown (l : list Z) (d : t) : t :=
  {| wrap := wrap d; firstIndex := firstIndex d; clickCallback := clickCallback d;
     navi := navi d; naviListItems := naviListItems d;
     prevBtn := prevBtn d; nextBtn := nextBtn d;
     prevHandler := prevHandler d; nextHandler := nextHandler d;
     edgeBtnsIndex := edgeBtnsIndex d;
     resizeHandler := resizeHandler d; shown := l; onBtn := onBtn d |}.

Definition set_onBtn (b : option Navi.Elem) (d : t) : t :=
  {| wrap := wrap d; firstIndex := firstIndex d; clickCallback := clickCallback d;
     navi := navi d; naviListItems := naviListItems d;
     prevBtn := prevBtn d; nextBtn := nextBtn d;
     prevHandler := prevHandler d; nextHandler := nextHandler d;
     edgeBtnsIndex := edgeBtnsIndex d;
     resizeHandler := resizeHandler d; shown := shown d; onBtn := b |}.

(** [setNaviListItemsPosition]: which list items are shown, slot by slot
    (slot [i] sits at [i * itemWidth]). *)
Definition setNaviListItemsPosition (d : t) : t :=
  let len := Z.of_nat (naviListItems d) in
  if len <=? 0 then d
  else if len <=? DISPLAY_BTN_NUM then
    set_shown (map (fun i => Z.of_nat i + 1) (seq 0 (naviListItems d))) d
  else
    set_shown (Helpers.windowFrom len (Z.to_nat DISPLAY_BTN_NUM) (left (edgeBtnsIndex d))) d.

Definition arrangeNaviListItems (d : t) : t := setNaviListItemsPosition d.

Definition resize (d : t) : t := arrangeNaviListItems d.

(** [activateNaviBtn(index)], the navigator's activate callback; [n] is
    the navigation object as the callback sees it. *)
Definition activateNaviBtn (index : Z) (n : Navi.t) (d : t) : t :=
  set_onBtn (Navi.getBtn index n) d.

Definition setNavi (dm : Dom) (d : t) : t :=
  set_navi
    (Some (Navi.init (Navi.create
      {| Navi.o_btns := btns dm;
         Navi.o_mouseoverCallback := false;
         Navi.o_mouseoutCallback := false;
         Navi.o_mousedownCallback := false;
         Navi.o_mouseupCallback := false;
         Navi.o_clickCallback := true;
         Navi.o_activateCallback := true |}))) d.

Definition setPrevNextBtn (d : t) : t :=
  set_nextBtn true true (set_prevBtn true true d).

Definition setInstance (dm : Dom) (d : t) : t :=
  if negb (wrap d) then d
  else
    let d := set_naviListItems (listItems dm) d in
    let len := Z.of_nat (naviListItems d) in
    let d :=
      if DISPLAY_BTN_NUM <? len then
        set_edgeBtnsIndex
          {| left := firstIndex d;
             right := Helpers.getLoopedLastIndex len DISPLAY_BTN_NUM (firstIndex d) |} d
      else d in
    let d := setNavi dm d in
    let d := setPrevNextBtn d in
    let d := arrangeNaviListItems d in
    resize (set_resizeHandler true d).

Definition init (dm : Dom) (d : t) : t := setInstance dm d.

(** Run the navigation object's callbacks: the activate callback switches
    the 'on' class; the click callback is passed on to the owner. *)
Fixpoint runCalls (calls : list Navi.Invocation) (n : Navi.t) (d : t)
    : list Navi.Invocation * t :=
  match calls with
  | [] => ([], d)
  | c :: rest =>
      match Navi.call c with
      | Navi.ActivateCall _ index => runCalls rest n (activateNaviBtn index n d)
      | Navi.ClickCall _ _ =>
          let '(out, d') := runCalls rest n d in
          ((if clickCallback d then c :: out else out), d')
      | _ => runCalls rest n d
      end
  end.

Definition activate (index : Z) (d : t) : t :=
  match navi d with
  | Some n =>
      let '(calls, n') := Navi.activate index n in
      set_navi (Some n') (snd (runCalls calls n d))
  | None => d
  end.

Definition getActivatedIndex (d : t) : Z :=
  match navi d with
  | Some n => Navi.getActivatedIndex n
  | None => 0
  end.

(** A click on a paging button; the result lists the invocations of the
    owner's click callback. *)
Definition click (btn : Navi.Elem) (d : t) : list Navi.Invocation * t :=
  match navi d with
  | Some n =>
      let '(calls, n') := Navi.click btn n in
      let '(out, d') := runCalls calls n d in
      (out, set_navi (Some n') d')
  | None => ([], d)
  end.

(** The click handlers of the prev and next buttons: the event they
    trigger on the navigator, if they are bound.  (The half-second during
    which the clicked button is then disabled is left out.) *)
Definition clickPrevBtn (d : t) : option (Direction * Z) :=
  if prevHandler d then
    match navi d with
    | Some n =>
        let index := Navi.getActivatedIndex n - 1 in
        Some (prev, if index <=? 0 then Z.of_nat (length (Navi.getBtns n)) else index)
    | None => None
    end
  else None.

Definition clickNextBtn (d : t) : option (Direction * Z) :=
  if nextHandler d then
    match navi d with
    | Some n =>
        let index := Navi.getActivatedIndex n + 1 in
        Some (next, if Z.of_nat (length (Navi.getBtns n)) <? index then 1 else index)
    | None => None
    end
  else None.

Definition destroy (d : t) : outcome t :=
  let d := set_resizeHandler false d in
  let d := set_navi None
             (match navi d with
              | Some n => set_navi (Some (Navi.destroy n)) d
              | None => d
              end) in
  let d := set_naviListItems 0 d in
  if negb (prevBtn d) then Throw d
  else
    let d := set_prevBtn false false d in
    if negb (nextBtn d) then Throw d
    else Ok (set_nextBtn false false d).

Section SwitchBtns.

(** The two helpers whose definitions are not at hand. *)
Variable isIndexInLoop : Z -> Z -> Z -> Z -> bool.
Variable getReverseLoopedFirstIndex : Z -> Z -> Z -> Z.

(** [switchBtns(direction, index)]; a missing direction is [None].  The
    slide animation of the strip is left out. *)
Definition switchBtns (direction : option Direction) (index : Z) (d : t) : outcome t :=
  let len := Z.of_nat (naviListItems d) in
  if len <=? DISPLAY_BTN_NUM then Ok d
  else
    match direction with
    | None => Ok d
    | Some dir =>
        if isIndexInLoop len DISPLAY_BTN_NUM (left (edgeBtnsIndex d)) index then Ok d
        else
          match navi d with
          | None => Throw d
          | Some _ =>
              let e :=
                match dir with
                | prev =>
                    {| left := getReverseLoopedFirstIndex len DISPLAY_BTN_NUM index;
                       right := index |}
                | next =>
                    {| left := index;
                       right := Helpers.getLoopedLastIndex len DISPLAY_BTN_NUM index |}
                end in
              Ok (setNaviListItemsPosition (set_edgeBtnsIndex e d))
          end
    end.

End SwitchBtns.

End DesktopPaginationNavi.

(** ** The responsive pagination controller *)

Module Pagination.

Module HSN := HorizontalSlideNavi.
Module DPN := DesktopPaginationNavi.

(** What the page reports when the controller asks. *)
Record Env := {
  innerWidth : Z;                       (* global.innerWidth *)
  slideEnv : HSN.Env;
  mobileWrap : bool;                    (* $('.pagination-mobile', wrap) has an element *)
  mobileHandle : bool;                  (* and that one a '.handle' *)
  mobileItems : nat;                    (* $('li', btnsWrap).length *)
  mobileBtns : list Navi.Elem;          (* $('li a', btnsWrap) *)
  btnLeft : Navi.Elem -> Q;             (* btn.position().left *)
  pcWrap : bool;                        (* $('.pagination-pc', wrap) has an element *)
  pcDom : DPN.Dom
}.

Record t := {
  breakpoint : Helpers.Breakpoints;
  isMobileEnv : bool;
  wrap : bool;                          (* wrap.length > 0 *)
  slideNavi : option HSN.t;
  slideNaviListItems : option nat;      (* null, or the length of the collection *)
  desktopNavi : option DPN.t;
  currentIndex : Z;
  currentResolution : option Helpers.Resolution;
  resizeHandler : bool;
  mobilePrevNext : bool;                (* '.btn-prev-mobile', '.btn-next-mobile' bound *)
  slideOnBtn : option Navi.Elem;        (* the mobile button that has class 'on' *)
  slideItemWidth : option Q;            (* width given to the mobile list items *)
  triggered : list Z                    (* indices sent with CLICK_PAGE_BTN *)
}.

Definition create (bp : Helpers.Breakpoints) (mobileEnv wrapFound : bool) : t :=
  {| breakpoint := bp; isMobileEnv := mobileEnv; wrap := wrapFound;
     slideNavi := None; slideNaviListItems := None; desktopNavi := None;
     currentIndex := 1; currentResolution := None;
     resizeHandler := false; mobilePrevNext := false;
     slideOnBtn := None; slideItemWidth := None; triggered := [] |}.

Definition set_slideNavi (h : option HSN.t) (p : t) : t :=
  {| breakpoint := breakpoint p; isMobileEnv := isMobileEnv p; wrap := wrap p;
     slideNavi := h; slideNaviListItems := slideNaviListItems p;
     desktopNavi := desktopNavi p;
     currentIndex := currentIndex p; currentResolution := currentResolution p;
     resizeHandler := resizeHandler p; mobilePrevNext := mobilePrevNext p;
     slideOnBtn := slideOnBtn p; slideItemWidth := slideItemWidth p;
     triggered := triggered p |}.

Definition set_slideNaviListItems (k : option nat) (p : t) : t :=
  {| breakpoint := breakpoint p; isMobileEnv := isMobileEnv p; wrap := wrap p;
     slideNavi := slideNavi p; slideNaviListItems := k;
     desktopNavi := desktopNavi p;
     currentIndex := currentIndex p; currentResolution := currentResolution p;
     resizeHandler := resizeHandler p; mobilePrevNext := mobilePrevNext p;
     slideOnBtn := slideOnBtn p; slideItemWidth := slideItemWidth p;
     triggered := triggered p |}.

Definition set_desktopNavi (d : option DPN.t) (p : t) : t :=
  {| breakpoint := breakpoint p; isMobileEnv := isMobileEnv p; wrap := wrap p;
     slideNavi := slideNavi p; slideNaviListItems := slideNaviListItems p;
     desktopNavi := d;
     currentIndex := currentIndex p; currentResolution := currentResolution p;
     resizeHandler := resizeHandler p; mobilePrevNext := mobilePrevNext p;
     slideOnBtn := slideOnBtn p; slideItemWidth := slideItemWidth p;
     triggered := triggered p |}.

Definition set_currentIndex (i : Z) (p : t) : t :=
  {| breakpoint := breakpoint p; isMobileEnv := isMobileEnv p; wrap := wrap p;
     slideNavi := slideNavi p; slideNaviListItems := slideNaviListItems p;
     desktopNavi := desktopNavi p;
     currentIndex := i; currentResolution := currentResolution p;
     resizeHandler := resizeHandler p; mobilePrevNext := mobilePrevNext p;
     slideOnBtn := slideOnBtn p; slideItemWidth := slideItemWidth p;
     triggered := triggered p |}.

Definition set_currentResolution (r : option Helpers.Resolution) (p : t) : t :=
  {| breakpoint := breakpoint p; isMobileEnv := isMobileEnv p; wrap := wrap p;
     slideNavi := slideNavi p; slideNaviListItems := slideNaviListItems p;
     desktopNavi := desktopNavi p;
     currentIndex := currentIndex p; currentResolution := r;
     resizeHandler := resizeHandler p; mobilePrevNext := mobilePrevNext p;
     slideOnBtn := slideOnBtn p; slideItemWidth := slideItemWidth p;
     triggered := triggered p |}.

Definition set_handlers (rs mp : bool) (p : t) : t :=
  {| breakpoint := breakpoint p; isMobileEnv := isMobileEnv p; wrap := wrap p;
     slideNavi := slideNavi p; slideNaviListItems := slideNaviListItems p;
     desktopNavi := desktopNavi p;
     currentIndex := currentIndex p; currentResolution := currentResolution p;
     resizeHandler := rs; mobilePrevNext := mp;
     slideOnBtn := slideOnBtn p; slideItemWidth := slideItemWidth p;
     triggered := triggered p |}.

Definition set_slideOnBtn (b : option Navi.Elem) (p : t) : t :=
  {| breakpoint := breakpoint p; isMobileEnv := isMobileEnv p; wrap := wrap p;
     slideNavi := slideNavi p; slideNaviListItems := slideNaviListItems p;
     desktopNavi := desktopNavi p;
     currentIndex := currentIndex p; currentResolution := currentResolution p;
     resizeHandler := resizeHandler p; mobilePrevNext := mobilePrevNext p;
     slideOnBtn := b; slideItemWidth := slideItemWidth p;
     triggered := triggered p |}.

Definition set_slideItemWidth (w : option Q) (p : t) : t :=
  {| breakpoint := breakpoint p; isMobileEnv := isMobileEnv p; wrap := wrap p;
     slideNavi := slideNavi p; slideNaviListItems := slideNaviListItems p;
     desktopNavi := desktopNavi p;
     currentIndex := currentIndex p; currentResolution := currentResolution p;
     resizeHandler := resizeHandler p; mobilePrevNext := mobilePrevNext p;
     slideOnBtn := slideOnBtn p; slideItemWidth := w;
     triggered := triggered p |}.

(** [$(_).trigger({type: Pagination.CLICK_PAGE_BTN, index})]. *)
Definition trigger (index : Z) (p : t) : t :=
  {| breakpoint := breakpoint p; isMobileEnv := isMobileEnv p; wrap := wrap p;
     slideNavi := slideNavi p; slideNaviListItems := slideNaviListItems p;
     desktopNavi := desktopNavi p;
     currentIndex := currentIndex p; currentResolution := currentResolution p;
     resizeHandler := resizeHandler p; mobilePrevNext := mobilePrevNext p;
     slideOnBtn := slideOnBtn p; slideItemWidth := slideItemWidth p;
     triggered := triggered p ++ [index] |}.

(** A method called through [_.slideNavi]; on [null] it raises a
    TypeError. *)
Definition onSlideNavi (f : HSN.t -> outcome HSN.t) (p : t) : outcome t :=
  match slideNavi p with
  | Some h => lift (fun h' => set_slideNavi (Some h')) (f h) p
  | None => Throw p
  end.

Definition getSlideNaviListItemWidth (env : Env) (itemLength : nat) : Q :=
  if (itemLength <=? 1)%nat then inject_Z (innerWidth env)
  else (inject_Z (innerWidth env) / 2)%Q.

Definition setSlideNaviListItemsWidth (env : Env) (itemLength : nat) (p : t) : outcome t :=
  match slideNaviListItems p with
  | None => Throw p
  | Some O => Ok p
  | Some (S _) =>
      Ok (set_slideItemWidth (Some (getSlideNaviListItemWidth env itemLength)) p)
  end.

(** [activateSlideNaviBtn(index)]; [h] is the slide navigator as the
    caller sees it. *)
Definition activateSlideNaviBtn (index : Z) (h : HSN.t) (p : t) : t :=
  set_slideOnBtn (HSN.getBtn index h) p.

(** The click and activate callbacks given to the slide navigator. *)
Fixpoint runSlideCalls (calls : list Navi.Invocation) (h : HSN.t) (p : t) : t :=
  match calls with
  | [] => p
  | c :: rest =>
      match Navi.call c with
      | Navi.ClickCall _ index =>
          runSlideCalls rest h
            (if index =? Navi.activatedThen c then p
             else trigger index (set_currentIndex index p))
      | Navi.ActivateCall _ index =>
          runSlideCalls rest h (activateSlideNaviBtn index h p)
      | _ => runSlideCalls rest h p
      end
  end.

(** The click callback given to the desktop navigator. *)
Fixpoint runDesktopCalls (calls : list Navi.Invocation) (p : t) : t :=
  match calls with
  | [] => p
  | c :: rest =>
      match Navi.call c with
      | Navi.ClickCall _ index =>
          runDesktopCalls rest
            (if index =? Navi.activatedThen c then p
             else trigger index (set_currentIndex index p))
      | _ => runDesktopCalls rest p
      end
  end.

(** [_.slideNavi.activate(index)] with its callbacks. *)
Definition slideActivate (index : Z) (p : t) : outcome t :=
  match slideNavi p with
  | Some h =>
      let '(calls, h') := HSN.activate index h in
      Ok (set_slideNavi (Some h') (runSlideCalls calls h p))
  | None => Throw p
  end.

Definition slideNaviOptions (env : Env) : HSN.Options :=
  {| HSN.o_navi :=
       {| Navi.o_btns := mobileBtns env;
          Navi.o_mouseoverCallback := false;
          Navi.o_mouseoutCallback := false;
          Navi.o_mousedownCallback := false;
          Navi.o_mouseupCallback := false;
          Navi.o_clickCallback := true;
          Navi.o_activateCallback := true |};
     HSN.wrapFound := mobileWrap env;
     HSN.handleFound := mobileHandle env;
     HSN.o_disabled := false;
     HSN.o_slide := true;
     HSN.o_loose := true;
     HSN.o_speed := 1 # 4;
     HSN.o_css3 := true;
     HSN.dragStartCallback := false;
     HSN.dragStopCallback := false;
     HSN.slideEndCallback := false |}.

Definition setSlideNavi (env : Env) (p : t) : outcome t :=
  let p := set_slideNaviListItems (Some (mobileItems env)) p in
  setSlideNaviListItemsWidth env (mobileItems env) p >>= fun p =>
  let p := set_slideNavi (Some (HSN.create (slideNaviOptions env))) p in
  onSlideNavi (HSN.init (slideEnv env)) p >>= fun p =>
  if (mobileItems env <=? 2)%nat then onSlideNavi HSN.disable p else Ok p.

Definition setDesktopNavi (env : Env) (p : t) : t :=
  set_desktopNavi
    (Some (DPN.init (pcDom env) (DPN.create (pcWrap env) true (currentIndex p)))) p.

Definition switchBtns : option DPN.Direction -> Z -> DPN.t -> outcome DPN.t :=
  DPN.switchBtns Helpers.isIndexInLoop Helpers.getReverseLoopedFirstIndex.

(** A method called through [_.desktopNavi]. *)
Definition onDesktopNavi (f : DPN.t -> outcome DPN.t) (p : t) : outcome t :=
  match desktopNavi p with
  | Some d => lift (fun d' => set_desktopNavi (Some d')) (f d) p
  | None => Throw p
  end.

Definition setSlidePositionByIndex (env : Env) (index : Z) (p : t) : outcome t :=
  match slideNavi p with
  | None => Ok p
  | Some _ =>
      slideActivate index p >>= fun p =>
      match slideNavi p with
      | None => Throw p
      | Some h =>
          let len := Z.of_nat (length (HSN.getBtns h)) in
          if (index <? 1) || (len <? index) then Ok p
          else
            let prev := if index <=? 1 then 0 else index - 1 in
            let next := if len <? index then 0 else index + 1 in
            if prev =? 0 then onSlideNavi (HSN.setRatioX (Some 0%Q)) p
            else if next =? 0 then onSlideNavi (HSN.setRatioX (Some 1%Q)) p
            else
              match HSN.getBtn prev h with
              | Some btn => onSlideNavi (HSN.setX (Some (- btnLeft env btn)%Q)) p
              | None => Ok p
              end
      end
  end.

(** The two branches of [resize] for a viewport at least [pc] wide. *)
Definition resizeDesktop (env : Env) (p : t) : outcome t :=
  (match slideNavi p with
   | Some _ => onSlideNavi HSN.destroy p >>= fun p => Ok (set_slideNavi None p)
   | None => Ok p
   end) >>= fun p =>
  let p := match desktopNavi p with
           | None => setDesktopNavi env p
           | Some _ => p
           end in
  onDesktopNavi (fun d => Ok (DPN.activate (currentIndex p) d)) p.

(** The two branches of [resize] for a narrower viewport; [isTablet]
    tells them apart. *)
Definition resizeMobile (isTablet : bool) (env : Env) (p : t) : outcome t :=
  (match desktopNavi p with
   | Some _ => onDesktopNavi DPN.destroy p >>= fun p => Ok (set_desktopNavi None p)
   | None => Ok p
   end) >>= fun p =>
  (match slideNavi p with
   | None => setSlideNavi env p
   | Some _ => Ok p
   end) >>= fun p =>
  slideActivate (currentIndex p) p >>= fun p =>
  setSlidePositionByIndex env (currentIndex p) p >>= fun p =>
  match slideNaviListItems p with
  | None => Throw p
  | Some len =>
      (if isTablet
       then if (2 <? len)%nat then onSlideNavi HSN.enable p else Ok p
       else onSlideNavi HSN.disable p) >>= fun p =>
      setSlideNaviListItemsWidth env len p
  end.

Definition reaches (threshold width : Z) : bool :=
  negb (threshold =? 0) && (threshold <=? width).

Definition resize (env : Env) (p : t) : outcome t :=
  let bp := breakpoint p in
  if reaches (Helpers.max bp) (innerWidth env) then resizeDesktop env p
  else if reaches (Helpers.pc bp) (innerWidth env) then resizeDesktop env p
  else if reaches (Helpers.tablet bp) (innerWidth env) then resizeMobile true env p
  else resizeMobile false env p.

(** [setInstance()]; the empty resolution the constructor starts with
    is taken as not mobile.  Both ways of listening to resizes set
    [resizeHandler]. *)
Definition setInstance (env : Env) (p : t) : outcome t :=
  (match currentResolution p with
   | Some r =>
       if Helpers.isMobileResolution r
       then setSlideNavi env p >>= fun p =>
            Ok (set_handlers (resizeHandler p) true p)
       else Ok (setDesktopNavi env p)
   | None => Ok (setDesktopNavi env p)
   end) >>= fun p =>
  resize env (set_handlers true (mobilePrevNext p) p).

Definition init (env : Env) (p : t) : outcome t :=
  if wrap p then
    setInstance env
      (set_currentResolution
         (Some (Helpers.getResolution (breakpoint p) (innerWidth env))) p)
  else Ok p.

(** [activate(index, direction)]. *)
Definition activate (env : Env) (index : Z) (direction : option DPN.Direction)
    (p : t) : outcome t :=
  (match slideNavi p with
   | Some h => setSlidePositionByIndex env index (activateSlideNaviBtn index h p)
   | None => Ok p
   end) >>= fun p =>
  (match desktopNavi p with
   | Some _ =>
       (match direction with
        | Some _ => onDesktopNavi (switchBtns direction index) p
        | None => Ok p
        end) >>= fun p =>
       onDesktopNavi (fun d => Ok (DPN.activate index d)) p
   | None => Ok p
   end) >>= fun p =>
  Ok (set_currentIndex index p).

(** *** User interaction *)



(** A click on a button of the mobile strip. *)
Definition clickSlideBtn (btn : Navi.Elem) (p : t) : t :=
  match slideNavi p with
  | Some h =>
      let '(calls, h') := HSN.click btn h in
      set_slideNavi (Some h') (runSlideCalls calls h p)
  | None => p
  end.

(** A click on a paging button of the desktop navigator. *)
Definition clickDesktopBtn (btn : Navi.Elem) (p : t) : t :=
  match desktopNavi p with
  | Some d =>
      let '(calls, d') := DPN.click btn d in
      set_desktopNavi (Some d') (runDesktopCalls calls p)
  | None => p
  end.

(** The listener of [DesktopPaginationNavi.CLICK_PREVNEXT_BTN]. *)
Definition onClickPrevNext (direction : DPN.Direction) (index : Z) (p : t) : outcome t :=
  onDesktopNavi (switchBtns (Some direction) index) p >>= fun p =>
  Ok (trigger index p).

(** A click on the desktop navigator's prev or next button. *)
Definition clickPrevNextBtn (direction : DPN.Direction) (p : t) : outcome t :=
  match desktopNavi p with
  | Some d =>
      match (match direction with
             | DPN.prev => DPN.clickPrevBtn d
             | DPN.next => DPN.clickNextBtn d
             end) with
      | Some (dir, index) => onClickPrevNext dir index p
      | None => Ok p
      end
  | None => Ok p
  end.

End Pagination.

(** ** Helpers of the transition library

    The colour conversions, the rounding, the name conversion and the
    easing functions of tram that are polynomials.  A string is the list
    of its code units, all below 256. *)

Module Tram.

Import Stdlib.Strings.Ascii Stdlib.Strings.String.

(** *** 32-bit integers *)

(** [ToInt32]: NaN gives 0, a fraction is cut off towards zero, and the
    integer wraps into the range of 32-bit two's complement. *)
Definition wrap32 (z : Z) : Z := (z + 2 ^ 31) mod 2 ^ 32 - 2 ^ 31.

Definition truncate (q : Q) : Z :=
  if Qle_bool 0 q then Qfloor q else Qceiling q.

Definition toInt32 (a : num) : Z :=
  match a with
  | Some q => wrap32 (truncate q)
  | None => 0
  end.

(** [a << k] on 32-bit integers. *)
Definition shl (a k : Z) : Z := wrap32 (Z.shiftl a k).

(** *** Numbers as hexadecimal strings *)

Definition hexDigit (d : Z) : ascii :=
  List.nth (Z.to_nat d) (list_ascii_of_string "0123456789abcdef"%string) "0"%char.

(** The digits of [n > 0], the most significant first, put before
    [acc]. *)
Fixpoint toHex (fuel : nat) (n : Z) (acc : string) : string :=
  match fuel with
  | O => acc
  | S fuel' =>
      let acc' := String (hexDigit (n mod 16)) acc in
      if n / 16 =? 0 then acc' else toHex fuel' (n / 16) acc'
  end.

(** [n.toString(16)] for an integer [n]. *)
Definition toString16 (n : Z) : string :=
  if n <? 0
  then String "-"%char (toHex (S (Z.to_nat (Z.log2 (- n)))) (- n) EmptyString)
  else toHex (S (Z.to_nat (Z.log2 n))) n EmptyString.

(** [s.slice(1)]. *)
Definition slice1 (s : string) : string :=
  match s with
  | EmptyString => EmptyString
  | String _ rest => rest
  end.

(** The white space [parseInt] skips, among the code units below 256. *)
Definition isSpace (c : ascii) : bool :=
  let n := nat_of_ascii c in
  ((9 <=? n) && (n <=? 13) || (n =? 32) || (n =? 160))%nat.

Fixpoint skipSpaces (s : string) : string :=
  match s with
  | String c rest => if isSpace c then skipSpaces rest else s
  | EmptyString => EmptyString
  end.

Definition hexValue (c : ascii) : option Z :=
  let n := Z.of_nat (nat_of_ascii c) in
  if (48 <=? n) && (n <=? 57) then Some (n - 48)
  else if (97 <=? n) && (n <=? 102) then Some (n - 87)
  else if (65 <=? n) && (n <=? 70) then Some (n - 55)
  else None.

(** The value of the longest prefix of hexadecimal digits, after
    [acc]. *)
Fixpoint parseDigits (s : string) (acc : Z) : Z :=
  match s with
  | String c rest =>
      match hexValue c with
      | Some v => parseDigits rest (acc * 16 + v)
      | None => acc
      end
  | EmptyString => acc
  end.

(** [parseInt(s, 16)]: white space, a sign and [0x] are skipped; without
    a digit the result is NaN. *)
Definition parseInt16 (s : string) : num :=
  let s := skipSpaces s in
  let '(sign, s) :=
    match s with
    | String "-"%char rest => (-1, rest)
    | String "+"%char rest => (1, rest)
    | _ => (1, s)
    end in
  let s :=
    match s with
    | String "0"%char (String "x"%char rest) => rest
    | String "0"%char (String "X"%char rest) => rest
    | _ => s
    end in
  match s with
  | String c _ =>
      match hexValue c with
      | Some _ => Some (inject_Z (sign * parseDigits s 0))
      | None => None
      end
  | EmptyString => None
  end.

(** *** Colours *)

Definition hexToRgb (hex : string) : Z * Z * Z :=
  let n := toInt32 (parseInt16 (slice1 hex)) in
  (Z.land (Z.shiftr n 16) 255, Z.land (Z.shiftr n 8) 255, Z.land n 255).

Definition rgbToHex (r g b : num) : string :=
  String "#"%char
    (slice1 (toString16
               (Z.lor (Z.lor (Z.lor (shl 1 24) (shl (toInt32 r) 16))
                             (shl (toInt32 g) 8))
                      (toInt32 b)))).


(** *** Rounding to three decimals *)

Definition factor : Q := 1000.

Definition round (value : num) : num :=
  divq (Math_round (mul value (Some factor))) factor.

(** *** Property names *)

Definition isUpper (c : ascii) : bool :=
  let n := nat_of_ascii c in ((65 <=? n) && (n <=? 90))%nat.

Definition toLowerCase (c : ascii) : ascii :=
  if isUpper c then ascii_of_nat (nat_of_ascii c + 32) else c.

(** [string.replace(/[A-Z]/g, letter => '-' + letter.toLowerCase())]. *)
Fixpoint toDashed (s : string) : string :=
  match s with
  | EmptyString => EmptyString
  | String c rest =>
      if isUpper c then String "-"%char (String (toLowerCase c) (toDashed rest))
      else String c (toDashed rest)
  end.

(** *** Easing functions

    The easing functions that are polynomials in [t / d], by their keys
    in the [easing] table.  Here [None] stands for a result that is not
    a finite number: with [d = 0] the quotient [t / d] is an infinity or
    NaN, and so is everything computed from it by sums and products. *)

Inductive Ease :=
| ease | easeIn | easeOut | easeInOut | linear
| easeInQuad | easeOutQuad | easeInOutQuad
| easeInCubic | easeOutCubic | easeInOutCubic
| easeInQuart | easeOutQuart | easeInOutQuart
| easeInQuint | easeOutQuint | easeInOutQuint
| easeInBack | easeOutBack | easeInOutBack.

Local Open Scope Q_scope.

(** The default overshoot [s] of the back easings, and the factor of the
    in-out one. *)
Definition overshoot : Q := 170158 # 100000.
Definition overshootInOut : Q := overshoot * (1525 # 1000).

(** The body of an easing function for a duration [d] that is not 0. *)
Definition eased (e : Ease) (t b c d : Q) : Q :=
  match e with
  | ease =>
      let t := t / d in let ts := t * t in let tc := ts * t in
      b + c * (- (275 # 100) * tc * ts + 11 * ts * ts + - (155 # 10) * tc
               + 8 * ts + (25 # 100) * t)
  | easeIn =>
      let t := t / d in let ts := t * t in let tc := ts * t in
      b + c * (- (1) * tc * ts + 3 * ts * ts + - (3) * tc + 2 * ts)
  | easeOut =>
      let t := t / d in let ts := t * t in let tc := ts * t in
      b + c * ((3 # 10) * tc * ts + - (16 # 10) * ts * ts + (22 # 10) * tc
               + - (18 # 10) * ts + (19 # 10) * t)
  | easeInOut =>
      let t := t / d in let ts := t * t in let tc := ts * t in
      b + c * (2 * tc * ts + - (5) * ts * ts + 2 * tc + 2 * ts)
  | linear => c * t / d + b
  | easeInQuad => let t := t / d in c * t * t + b
  | easeOutQuad => let t := t / d in - c * t * (t - 2) + b
  | easeInOutQuad =>
      let t := t / (d / 2) in
      if negb (Qle_bool 1 t) then c / 2 * t * t + b
      else let t := t - 1 in - c / 2 * (t * (t - 2) - 1) + b
  | easeInCubic => let t := t / d in c * t * t * t + b
  | easeOutCubic => let t := t / d - 1 in c * (t * t * t + 1) + b
  | easeInOutCubic =>
      let t := t / (d / 2) in
      if negb (Qle_bool 1 t) then c / 2 * t * t * t + b
      else let t := t - 2 in c / 2 * (t * t * t + 2) + b
  | easeInQuart => let t := t / d in c * t * t * t * t + b
  | easeOutQuart => let t := t / d - 1 in - c * (t * t * t * t - 1) + b
  | easeInOutQuart =>
      let t := t / (d / 2) in
      if negb (Qle_bool 1 t) then c / 2 * t * t * t * t + b
      else let t := t - 2 in - c / 2 * (t * t * t * t - 2) + b
  | easeInQuint => let t := t / d in c * t * t * t * t * t + b
  | easeOutQuint => let t := t / d - 1 in c * (t * t * t * t * t + 1) + b
  | easeInOutQuint =>
      let t := t / (d / 2) in
      if negb (Qle_bool 1 t) then c / 2 * t * t * t * t * t + b
      else let t := t - 2 in c / 2 * (t * t * t * t * t + 2) + b
  | easeInBack =>
      let s := overshoot in let t := t / d in
      c * t * t * ((s + 1) * t - s) + b
  | easeOutBack =>
      let s := overshoot in let t := t / d - 1 in
      c * (t * t * ((s + 1) * t + s) + 1) + b
  | easeInOutBack =>
      let s := overshootInOut in let t := t / (d / 2) in
      if negb (Qle_bool 1 t) then c / 2 * (t * t * ((s + 1) * t - s)) + b
      else let t := t - 2 in c / 2 * (t * t * ((s + 1) * t + s) + 2) + b
  end.

Definition easing (e : Ease) (t b c d : Q) : num :=
  if Qeq_bool d 0 then None else Some (eased e t b c d).

End Tram.

(** ** Tweens of the transition library and their frame loop

    [Tween] between two finite numbers and [Delay], with the private list
    of the tweens that are rendered on every frame.  A tween is an object:
    it is known by its index in the store of the tweens created so far,
    the list holds such indices, and the calls of the user's [update] and
    [complete] functions and of [enterFrame] are recorded in a log.  The
    string [value + unit] is kept as its two parts. *)

Module Ticker.

(** The class of an object decides which [render] it has. *)
Inductive Proto := TweenProto | DelayProto.

Record Tween := {
  proto : Proto;
  duration : Q;
  delay : Q;
  ease : option Tram.Ease;              (* None: noop *)
  update : bool;                        (* a function other than noop *)
  complete : bool;                      (* a function other than noop *)
  context : bool;                       (* not null *)
  unit : String.string;
  begin : Q;
  change : Q;
  value : num;                          (* the number in front of the unit *)
  start : num;                          (* None: undefined *)
  active : bool
}.

Inductive Event :=
| Updated (id : nat) (value : num) (unit : String.string)
| Completed (id : nat)
| EnterFrame.                           (* enterFrame(renderLoop) *)

Record t := {
  tweens : list Tween;                  (* the objects, by identity *)
  tweenList : list nat;
  calls : list Event
}.


(** *** The store *)

Fixpoint setAt {A : Type} (n : nat) (x : A) (l : list A) : list A :=
  match l, n with
  | [], _ => []
  | _ :: rest, O => x :: rest
  | y :: rest, S n' => y :: setAt n' x rest
  end.

Definition getTween (id : nat) (st : t) : option Tween := nth_error (tweens st) id.

Definition putTween (id : nat) (tw : Tween) (st : t) : t :=
  {| tweens := setAt id tw (tweens st); tweenList := tweenList st; calls := calls st |}.

Definition set_tweenList (l : list nat) (st : t) : t :=
  {| tweens := tweens st; tweenList := l; calls := calls st |}.

Definition emit (e : Event) (st : t) : t :=
  {| tweens := tweens st; tweenList := tweenList st; calls := calls st ++ [e] |}.

(** A method of the object [id]. *)
Definition withTween (id : nat) (st : t) (k : Tween -> t) : t :=
  match getTween id st with
  | Some tw => k tw
  | None => st
  end.

Definition set_value (v : num) (tw : Tween) : Tween :=
  {| proto := proto tw; duration := duration tw; delay := delay tw;
     ease := ease tw; update := update tw; complete := complete tw;
     context := context tw; unit := unit tw; begin := begin tw;
     change := change tw; value := v; start := start tw; active := active tw |}.


Definition set_active (b : bool) (tw : Tween) : Tween :=
  {| proto := proto tw; duration := duration tw; delay := delay tw;
     ease := ease tw; update := update tw; complete := complete tw;
     context := context tw; unit := unit tw; begin := begin tw;
     change := change tw; value := value tw; start := start tw; active := b |}.

(** [this.context = null; this.ease = this.update = this.complete = noop]. *)
Definition cleared (tw : Tween) : Tween :=
  {| proto := proto tw; duration := duration tw; delay := delay tw;
     ease := None; update := false; complete := false;
     context := false; unit := unit tw; begin := begin tw;
     change := change tw; value := value tw; start := start tw; active := active tw |}.

(** *** The render list *)

(** [jQuery.inArray(x, l)], [None] for -1. *)
Fixpoint inArray (x : nat) (l : list nat) : option nat :=
  match l with
  | [] => None
  | y :: rest => if (x =? y)%nat then Some O else option_map S (inArray x rest)
  end.


Definition removeRender (id : nat) (st : t) : t :=
  match inArray id (tweenList st) with
  | Some index =>
      set_tweenList (firstn index (tweenList st) ++ skipn (S index) (tweenList st)) st
  | None => st
  end.

(** *** Methods *)


Definition stop (id : nat) (st : t) : t :=
  withTween id st (fun tw =>
    if negb (active tw) then st
    else removeRender id (putTween id (set_active false tw) st)).

Definition destroy (id : nat) (st : t) : t :=
  let st := stop id st in
  withTween id st (fun tw => putTween id (cleared tw) st).







(** *** Construction *)


(** The options of a tween between numbers; [o_ease] is the key of one
    of the polynomial easings, if one is given. *)
Record Options := {
  o_duration : num;
  o_delay : num;
  o_ease : option Tram.Ease;
  o_update : bool;
  o_complete : bool;
  o_unit : String.string;
  o_from : option Q;
  o_to : option Q;
  o_autoplay : bool
}.



(** *** What a program does with the tweens it holds *)




End Ticker.

(** ** Vocabulary of the properties *)

Module Vocabulary.

(** [r] is [x] clamped to the interval from 0 to 1. *)
Definition is_clamp (x r : Q) : Prop :=
  (x < 0 -> r == 0)%Q /\ (0 <= x <= 1 -> r == x)%Q /\ (1 < x -> r == 1)%Q.

(** [r] is the entry of [table] closest to [v]; among equally close
    entries it is the one of lowest index. *)
Definition closest_step (table : list Q) (v r : Q) : Prop :=
  exists k : nat,
    nth_error table k = Some r /\
    (forall j s, nth_error table j = Some s -> Qabs (r - v) <= Qabs (s - v))%Q /\
    (forall j s, (j < k)%nat -> nth_error table j = Some s ->
                 Qabs (r - v) < Qabs (s - v))%Q.

(** The engine rests on steps: more than one step is configured and
    either the snap option is set or neither a drag nor a tap is under
    way. *)
Definition stepping (d : Dragdealer.t) : Prop :=
  1 < Dragdealer.Opt.steps (Dragdealer.options d) /\
  ((Dragdealer.dragging d = false /\ Dragdealer.tapping d = false)
   \/ Dragdealer.Opt.snap (Dragdealer.options d) = true).


(** [t] is the ratio the engine settles on for a requested ratio [x]:
    [x] clamped, then moved to the closest step of [table] if the engine
    rests on steps ([stepped]). *)
Definition settled (stepped : Prop) (table : list Q) (x t : Q) : Prop :=
  exists cx, is_clamp x cx /\
    (stepped -> closest_step table cx t) /\
    (~ stepped -> t == cx)%Q.

(** The state of the search loop of [getClosestStep] before index [i]:
    [m] is below the distance of no entry seen so far, strictly below
    those before [k], and is either the initial 1 or the distance of
    entry [k]. *)
Definition closest_so_far (table : list Q) (v : Q) (i : nat) (m : Q) (k : nat) : Prop :=
  (forall j s, (j < i)%nat -> nth_error table j = Some s -> m <= Qabs (s - v))%Q /\
  (forall j s, (j < k)%nat -> nth_error table j = Some s -> m < Qabs (s - v))%Q /\
  ((m = 1%Q /\ k = 0%nat) \/
   ((k < i)%nat /\ exists r, nth_error table k = Some r /\ m = Qabs (r - v))).

(** The engine went through [init()], and its step table is the one of
    its options. *)
Definition initialised (d : Dragdealer.t) (c : Dragdealer.Core) : Prop :=
  Dragdealer.core d = Some c /\
  Dragdealer.stepRatios c = Dragdealer.calculateStepRatios (Dragdealer.options d).

(** The result [r] of a method body run on [d] and [c] keeps the
    options, the handle, the listeners, the drag flag and the step
    table. *)
Definition keeps (d : Dragdealer.t) (c : Dragdealer.Core)
    (r : Dragdealer.t * Dragdealer.Core) : Prop :=
  Dragdealer.options (fst r) = Dragdealer.options d /\
  Dragdealer.handle (fst r) = Dragdealer.handle d /\
  Dragdealer.listening (fst r) = Dragdealer.listening d /\
  Dragdealer.dragging (fst r) = Dragdealer.dragging d /\
  Dragdealer.stepRatios (snd r) = Dragdealer.stepRatios c.

(** An engine [d'] with its fields [c'] reads the same options, drag and
    tap flags, bounds and step table as [d] with [c]. *)
Definition alike (d : Dragdealer.t) (c : Dragdealer.Core)
    (d' : Dragdealer.t) (c' : Dragdealer.Core) : Prop :=
  Dragdealer.options d' = Dragdealer.options d /\
  Dragdealer.dragging d' = Dragdealer.dragging d /\
  Dragdealer.tapping d' = Dragdealer.tapping d /\
  Dragdealer.bounds c' = Dragdealer.bounds c /\
  Dragdealer.stepRatios c' = Dragdealer.stepRatios c.

(** The offset [updateOffsetFromValue] computes for the current value. *)
Definition shownOffset (d : Dragdealer.t) (c : Dragdealer.Core) : num * num :=
  if negb (Dragdealer.Opt.snap (Dragdealer.options d))
  then Dragdealer.getOffsetsByRatios c
         (Dragdealer.Value.current (Dragdealer.value c))
  else Dragdealer.getOffsetsByRatios c
         (Dragdealer.getClosestSteps (Dragdealer.options d) c
            (Dragdealer.Value.current (Dragdealer.value c))).

(** The pair [callAnimationCallback] reports for the current value. *)
Definition reported (d : Dragdealer.t) (c : Dragdealer.Core) : num * num :=
  if Dragdealer.Opt.snap (Dragdealer.options d)
     && (1 <? Dragdealer.Opt.steps (Dragdealer.options d))
  then Dragdealer.getClosestSteps (Dragdealer.options d) c
         (Dragdealer.Value.current (Dragdealer.value c))
  else Dragdealer.Value.current (Dragdealer.value c).

(** The handle shows the current value: the current offset is the one
    of the current value, and it either equals the offset rendered last
    or is that offset, written to the handle. *)
Definition shown (d : Dragdealer.t) (c : Dragdealer.Core) : Prop :=
  Dragdealer.Offset.current (Dragdealer.offset c) = shownOffset d c /\
  (Dragdealer.groupCompare (shownOffset d c)
     (Dragdealer.Offset.prev (Dragdealer.offset c)) = true
   \/ (Dragdealer.Offset.prev (Dragdealer.offset c) = shownOffset d c /\
       Dragdealer.renderHandlePosition d c = d)).

(** The engine [d] with its fields [c] glides from [(vx, vy)] towards
    [(tx, ty)]: it is not dragged, both pairs are finite, and its last
    frame had the time stamp [s]. *)
Definition gliding (d : Dragdealer.t) (c : Dragdealer.Core) (tx ty vx vy s : Q) : Prop :=
  Dragdealer.core d = Some c /\ Dragdealer.dragging d = false /\
  Dragdealer.Value.target (Dragdealer.value c) = (Some tx, Some ty) /\
  Dragdealer.Value.current (Dragdealer.value c) = (Some vx, Some vy) /\
  Dragdealer.timeStamp d = Some s.

(** Time stamps that go on from [t0], each at least [gap] after the one
    before. *)
Fixpoint paced (gap t0 : Q) (times : list Q) : Prop :=
  match times with
  | [] => True
  | t :: rest => (t0 + gap <= t)%Q /\ paced gap t rest
  end.

(** A pointer event that carries a touch if it is a touch event. *)
Definition touched (e : Dragdealer.Pointer) : Prop :=
  match e with
  | Dragdealer.HandleDown e | Dragdealer.HandleTouchStart e
  | Dragdealer.WrapperTouchMove e | Dragdealer.WrapperDown e =>
      e <> Dragdealer.Touch []
  | _ => True
  end.


(** The pixel offset of a ratio: [round(ratio * range) + padding], a half
    rounding up. *)
Definition pixel (ratio range padding : Q) : Q :=
  (inject_Z (Qfloor (ratio * range + (1 # 2))) + padding)%Q.

(** [q] is where the handle is put on an axis of the given range and
    padding when it is dragged to the offset [off], a whole number of
    pixels from the padding: at [off] itself while that lies within the
    range, and at the nearer end of the range otherwise. *)
Definition tracks (off range padding q : Q) : Prop :=
  (range == 0 -> q == padding)%Q /\
  (~ range == 0 ->
   forall k : Z, off == padding + inject_Z k ->
     (0 <= inject_Z k / range <= 1 -> q == off) /\
     (inject_Z k / range < 0 -> q == padding) /\
     (1 < inject_Z k / range -> q == pixel 1 range padding))%Q.









(** The controller [q] has the current index, the triggered events, the
    breakpoints and the bound handlers of [p]. *)
Definition carried (p q : Pagination.t) : Prop :=
  Pagination.currentIndex q = Pagination.currentIndex p /\
  Pagination.triggered q = Pagination.triggered p /\
  Pagination.mobilePrevNext q = Pagination.mobilePrevNext p /\
  Pagination.resizeHandler q = Pagination.resizeHandler p /\
  Pagination.breakpoint q = Pagination.breakpoint p.

(** 1-based wrap-around of an index into 1..[n]. *)
Definition wrap1 (n i : Z) : Z :=
  if i <=? n then i else i - n.

(** The window edges after a shift to [index] if every shift made the
    index the left edge. *)
Definition leftAligned (N index : Z) : DesktopPaginationNavi.Edge :=
  {| DesktopPaginationNavi.left := index;
     DesktopPaginationNavi.right := Helpers.getLoopedLastIndex N 4 index |}.

End Vocabulary.

(** ** Sample pages *)

Module Samples.

Definition cursor0 : Dragdealer.Cursor :=
  {| Dragdealer.cx := 0; Dragdealer.cy := 0;
     Dragdealer.xDiff := 0; Dragdealer.yDiff := 0 |}.

Definition cursorAt (x : Q) : Dragdealer.Cursor :=
  {| Dragdealer.cx := x; Dragdealer.cy := 0;
     Dragdealer.xDiff := 0; Dragdealer.yDiff := 0 |}.

(** A page that is not scrolled, and a pointer at a client position. *)
Definition unscrolled : Dragdealer.Scroll :=
  {| Dragdealer.bodyScrollLeft := 0; Dragdealer.bodyScrollTop := 0;
     Dragdealer.docScrollLeft := 0; Dragdealer.docScrollTop := 0 |}.

Definition pointAt (x y : Q) : Dragdealer.Point :=
  {| Dragdealer.clientX := x; Dragdealer.clientY := y;
     Dragdealer.pageX := x; Dragdealer.pageY := y |}.

(** A wrapper 200 wide with a handle 50 wide, both 20 high: 150 pixels
    to move in, none vertically. *)
Definition slider : Dragdealer.Dom :=
  {| Dragdealer.wrapperOffsetWidth := 200; Dragdealer.wrapperOffsetHeight := 20;
     Dragdealer.handleOffsetWidth := 50; Dragdealer.handleOffsetHeight := 20;
     Dragdealer.wrapperRect := (0, 0)%Q; Dragdealer.handleRect := (0, 0)%Q |}.


Definition withSteps (n : Z) (snap loose : bool) : Dragdealer.Opt.t :=
  {| Dragdealer.Opt.disabled := false; Dragdealer.Opt.horizontal := true;
     Dragdealer.Opt.vertical := false; Dragdealer.Opt.slide := true;
     Dragdealer.Opt.steps := n; Dragdealer.Opt.snap := snap;
     Dragdealer.Opt.loose := loose; Dragdealer.Opt.speed := 1 # 10;
     Dragdealer.Opt.xPrecision := 0; Dragdealer.Opt.yPrecision := 0;
     Dragdealer.Opt.css3 := true; Dragdealer.Opt.tapping := true;
     Dragdealer.Opt.x := 0; Dragdealer.Opt.y := 0;
     Dragdealer.Opt.top := 0; Dragdealer.Opt.bottom := 0;
     Dragdealer.Opt.left := 0; Dragdealer.Opt.right := 0;
     Dragdealer.Opt.callback := false; Dragdealer.Opt.dragStartCallback := false;
     Dragdealer.Opt.dragStopCallback := true;
     Dragdealer.Opt.animationCallback := false |}.

(** The same options with all four callbacks given. *)
Definition withCallbacks (o : Dragdealer.Opt.t) : Dragdealer.Opt.t :=
  {| Dragdealer.Opt.disabled := Dragdealer.Opt.disabled o;
     Dragdealer.Opt.horizontal := Dragdealer.Opt.horizontal o;
     Dragdealer.Opt.vertical := Dragdealer.Opt.vertical o;
     Dragdealer.Opt.slide := Dragdealer.Opt.slide o;
     Dragdealer.Opt.steps := Dragdealer.Opt.steps o;
     Dragdealer.Opt.snap := Dragdealer.Opt.snap o;
     Dragdealer.Opt.loose := Dragdealer.Opt.loose o;
     Dragdealer.Opt.speed := Dragdealer.Opt.speed o;
     Dragdealer.Opt.xPrecision := Dragdealer.Opt.xPrecision o;
     Dragdealer.Opt.yPrecision := Dragdealer.Opt.yPrecision o;
     Dragdealer.Opt.css3 := Dragdealer.Opt.css3 o;
     Dragdealer.Opt.tapping := Dragdealer.Opt.tapping o;
     Dragdealer.Opt.x := Dragdealer.Opt.x o;
     Dragdealer.Opt.y := Dragdealer.Opt.y o;
     Dragdealer.Opt.top := Dragdealer.Opt.top o;
     Dragdealer.Opt.bottom := Dragdealer.Opt.bottom o;
     Dragdealer.Opt.left := Dragdealer.Opt.left o;
     Dragdealer.Opt.right := Dragdealer.Opt.right o;
     Dragdealer.Opt.callback := true;
     Dragdealer.Opt.dragStartCallback := true;
     Dragdealer.Opt.dragStopCallback := true;
     Dragdealer.Opt.animationCallback := true |}.

(** A live engine on [slider], and one whose wrapper was not found. *)
Definition engine (o : Dragdealer.Opt.t) : Dragdealer.t :=
  state_of (Dragdealer.create o true true cursor0 slider).

Definition inert : Dragdealer.t :=
  state_of (Dragdealer.create Dragdealer.Opt.defaults false false cursor0 slider).

(** An engine picked up at the left end and dragged 135 pixels to the
    right within one animation frame. *)
Definition dragged (o : Dragdealer.Opt.t) : Dragdealer.t :=
  state_of (Dragdealer.startDrag cursor0 slider (engine o)
            >>= Dragdealer.animate false false (cursorAt 135)).

(** A banner page with [n] items: the mobile strip and the desktop list
    hold a button per item. *)
Definition strip (n : nat) : HorizontalSlideNavi.Env :=
  {| HorizontalSlideNavi.cursor := cursor0;
     HorizontalSlideNavi.dom :=
       {| Dragdealer.wrapperOffsetWidth := 320; Dragdealer.wrapperOffsetHeight := 40;
          Dragdealer.handleOffsetWidth := inject_Z (160 * Z.of_nat n);
          Dragdealer.handleOffsetHeight := 40;
          Dragdealer.wrapperRect := (0, 0)%Q; Dragdealer.handleRect := (0, 0)%Q |};
     HorizontalSlideNavi.handleOuterWidth := inject_Z (160 * Z.of_nat n);
     HorizontalSlideNavi.wrapWidth := 320 |}.

Definition page (n : nat) (width : Z) : Pagination.Env :=
  {| Pagination.innerWidth := width;
     Pagination.slideEnv := strip n;
     Pagination.mobileWrap := true;
     Pagination.mobileHandle := true;
     Pagination.mobileItems := n;
     Pagination.mobileBtns := seq 1 n;
     Pagination.btnLeft := fun e => inject_Z (160 * (Z.of_nat e - 1));
     Pagination.pcWrap := true;
     Pagination.pcDom :=
       {| DesktopPaginationNavi.listItems := n;
          DesktopPaginationNavi.btns := seq 101 n |} |}.

(** The controller as [init()] leaves it on a page of [n] items seen at
    [width] pixels. *)
Definition controller (n : nat) (width : Z) : Pagination.t :=
  state_of (Pagination.init (page n width)
              (Pagination.create Helpers.BREAKPOINTS false true)).

(** A desktop navigator over [n] buttons, first shown from [first] on. *)
Definition desktop (n : nat) (first : Z) : DesktopPaginationNavi.t :=
  DesktopPaginationNavi.init
    {| DesktopPaginationNavi.listItems := n;
       DesktopPaginationNavi.btns := seq 101 n |}
    (DesktopPaginationNavi.create true true first).



End Samples.

(** * Properties *)

(** ** The step table *)

Module StepTable.

Import Dragdealer.

Lemma stepLoop_length (steps : Z) (n : nat) :
  forall i, length (stepLoop steps n i) = n.
Proof.
  induction n as [|n IH]; intro i; simpl; [reflexivity | now rewrite IH].
Qed.

Lemma stepLoop_nth (steps : Z) (Hs : 1 < steps) (n : nat) :
  forall (i : Z) (k : nat), (k < n)%nat ->
    nth_error (stepLoop steps n i) k
    = Some (inject_Z (i + Z.of_nat k) / inject_Z (steps - 1))%Q.
Proof.
  induction n as [|n IH]; intros i k Hk; [lia|].
  simpl. destruct (Z.ltb_spec 1 steps) as [_|]; [|lia].
  destruct k as [|k]; simpl.
  - now rewrite Z.add_0_r.
  - rewrite IH by lia. do 3 f_equal. lia.
Qed.

Lemma ratio_lt (steps i j : Z) :
  1 < steps -> i < j ->
  (inject_Z i / inject_Z (steps - 1) < inject_Z j / inject_Z (steps - 1))%Q.
Proof.
  intros Hs Hij. unfold Qdiv. apply Qmult_lt_compat_r.
  - apply Qinv_lt_0_compat. change 0%Q with (inject_Z 0).
    rewrite <- Zlt_Qlt. lia.
  - now rewrite <- Zlt_Qlt.
Qed.

Lemma stepLoop_above (steps : Z) (Hs : 1 < steps) (n : nat) :
  forall i j, i < j ->
    Forall (Qlt (inject_Z i / inject_Z (steps - 1))) (stepLoop steps n j).
Proof.
  induction n as [|n IH]; intros i j Hij; simpl; constructor.
  - destruct (Z.ltb_spec 1 steps); [|lia]. now apply ratio_lt.
  - apply IH. lia.
Qed.

Lemma stepLoop_sorted (steps : Z) (Hs : 1 < steps) (n : nat) :
  forall i, StronglySorted Qlt (stepLoop steps n i).
Proof.
  induction n as [|n IH]; intro i; simpl; constructor.
  - apply IH.
  - destruct (Z.ltb_spec 1 steps); [|lia]. apply stepLoop_above; lia.
Qed.

Lemma table_nth (o : Opt.t) (i : Z) :
  1 < Opt.steps o -> 0 <= i < Opt.steps o ->
  nth_error (calculateStepRatios o) (Z.to_nat i)
  = Some (inject_Z i / inject_Z (Opt.steps o - 1))%Q.
Proof.
  intros Hs Hi. unfold calculateStepRatios.
  destruct (Z.leb_spec 1 (Opt.steps o)) as [_|]; [|lia].
  rewrite stepLoop_nth by lia. do 3 f_equal. lia.
Qed.

Lemma table_length (o : Opt.t) :
  1 <= Opt.steps o ->
  length (calculateStepRatios o) = Z.to_nat (Opt.steps o).
Proof.
  intro Hs. unfold calculateStepRatios.
  destruct (Z.leb_spec 1 (Opt.steps o)) as [_|]; [|lia].
  apply stepLoop_length.
Qed.

(** C9.  For a step count N > 1 the step table has exactly N entries,
    the first is 0, the last is 1, entry i is i / (N - 1), and the table
    is sorted in ascending order. *)
Theorem step_table (o : Opt.t) :
  1 < Opt.steps o ->
  let table := calculateStepRatios o in
  let N := Opt.steps o in
  length table = Z.to_nat N /\
  (exists first, nth_error table 0 = Some first /\ first == 0)%Q /\
  (exists last, nth_error table (Z.to_nat (N - 1)) = Some last /\ last == 1)%Q /\
  (forall i, 0 <= i < N ->
     nth_error table (Z.to_nat i) = Some (inject_Z i / inject_Z (N - 1))%Q) /\
  StronglySorted Qlt table.
Proof.
  intros Hs table N. subst table N. repeat split.
  - apply table_length. lia.
  - exists (inject_Z 0 / inject_Z (Opt.steps o - 1))%Q. split.
    + apply (table_nth o 0); lia.
    + unfold Qdiv. apply Qmult_0_l.
  - exists (inject_Z (Opt.steps o - 1) / inject_Z (Opt.steps o - 1))%Q. split.
    + apply table_nth; lia.
    + apply Qmult_inv_r. intro H.
      assert (Hlt : (inject_Z 0 < inject_Z (Opt.steps o - 1))%Q)
        by (rewrite <- Zlt_Qlt; lia).
      rewrite H in Hlt. now apply Qlt_irrefl in Hlt.
  - intros i Hi. now apply table_nth.
  - unfold calculateStepRatios.
    destruct (Z.leb_spec 1 (Opt.steps o)) as [_|]; [|lia].
    now apply stepLoop_sorted.
Qed.

Lemma step_table_witness :
  1 < Opt.steps (Samples.withSteps 3 false false) /\
  length (calculateStepRatios (Samples.withSteps 3 false false)) = 3%nat.
Proof.
  split; [reflexivity|].
  exact (proj1 (step_table (Samples.withSteps 3 false false) eq_refl)).
Defined.

End StepTable.

(** ** The navigation abstraction *)

Module NaviProps.

(** C7.  [activate(index)] stores [index] as the active index when it is
    between 1 and the number of buttons, and 0 otherwise; the activate
    callback, if there is one, receives the previous and the new index
    while the stored index is still the previous one. *)
Theorem activate_sets_index (index : Z) (n : Navi.t) :
  let N := Z.of_nat (length (Navi.btns n)) in
  exists idx,
    (1 <= index <= N -> idx = index) /\
    (~ (1 <= index <= N) -> idx = 0) /\
    Navi.activateIndex (snd (Navi.activate index n)) = idx /\
    Navi.currentIndex (snd (Navi.activate index n)) = Navi.currentIndex n /\
    Navi.btns (snd (Navi.activate index n)) = Navi.btns n /\
    fst (Navi.activate index n)
    = if Navi.activateCallback n
      then [ {| Navi.call := Navi.ActivateCall (Navi.activateIndex n) idx;
                Navi.activatedThen := Navi.activateIndex n |} ]
      else [].
Proof.
  intro N. subst N.
  exists (if (index <=? 0) || (Z.of_nat (length (Navi.btns n)) <? index)
          then 0 else index).
  unfold Navi.activate, Navi.invoke. simpl.
  destruct (Z.leb_spec index 0);
    destruct (Z.ltb_spec (Z.of_nat (length (Navi.btns n))) index);
    simpl; repeat split; intros; try reflexivity; lia.
Qed.

Lemma filter_all (l : list Navi.Elem) :
  filter (fun _ => true) l = l.
Proof.
  induction l as [|e l IH]; simpl; [reflexivity | now rewrite IH].
Qed.

Lemma destroy_twice (n : Navi.t) :
  Navi.destroy (Navi.destroy n) = Navi.destroy n.
Proof.
  unfold Navi.destroy, Navi.setBtnsEventHandler. simpl.
  now rewrite filter_all.
Qed.

Lemma destroy_unbinds (n : Navi.t) (btn : Navi.Elem) :
  In btn (Navi.btns n) -> Navi.hasHandler (Navi.destroy n) btn = false.
Proof.
  intro Hin. unfold Navi.hasHandler, Navi.destroy, Navi.setBtnsEventHandler. simpl.
  apply not_true_is_false. intro H. apply existsb_exists in H.
  destruct H as [e [He Heq]]. apply Nat.eqb_eq in Heq. subst e.
  apply filter_In in He. destruct He as [_ He].
  apply negb_true_iff in He.
  assert (Ht : existsb (Nat.eqb btn) (Navi.btns n) = true).
  { apply existsb_exists. exists btn. split; [assumption | apply Nat.eqb_refl]. }
  congruence.
Qed.

End NaviProps.

(** ** Teardown of the navigators *)

Module DestroyProps.

Module HSN := HorizontalSlideNavi.
Module DPN := DesktopPaginationNavi.

(** A second [destroy()] of the slide navigator completes and changes
    nothing. *)
Lemma slide_destroy_twice (h h1 : HSN.t) :
  HSN.destroy h = Ok h1 -> HSN.destroy h1 = Ok h1.
Proof.
  unfold HSN.destroy, HSN.onDragDealer. simpl.
  destruct (HSN.dragDealer h) as [d|]; simpl.
  - unfold Dragdealer.unbindEventListeners.
    destruct (Dragdealer.handle d); simpl; [|discriminate].
    intro H. injection H as <-. simpl.
    now rewrite NaviProps.destroy_twice.
  - intro H. injection H as <-. simpl.
    now rewrite NaviProps.destroy_twice.
Qed.

(** After [destroy()] the slide navigator holds no drag engine, no resize
    handler, and none of its buttons carries a handler. *)
Lemma slide_destroy_detaches (h h1 : HSN.t) (btn : Navi.Elem) :
  HSN.destroy h = Ok h1 ->
  HSN.dragDealer h1 = None /\ HSN.resizeHandler h1 = false /\
  (In btn (HSN.getBtns h) -> Navi.hasHandler (HSN.navi h1) btn = false).
Proof.
  unfold HSN.destroy, HSN.onDragDealer. simpl.
  destruct (HSN.dragDealer h) as [d|]; simpl.
  - unfold Dragdealer.unbindEventListeners.
    destruct (Dragdealer.handle d); simpl; [|discriminate].
    intro H. injection H as <-. simpl. repeat split.
    apply NaviProps.destroy_unbinds.
  - intro H. injection H as <-. simpl. repeat split.
    apply NaviProps.destroy_unbinds.
Qed.

(** The first [destroy()] of a desktop navigator that was set up
    completes; the second one raises a TypeError at [prevBtn]. *)
Lemma desktop_destroy_again (d : DPN.t) :
  DPN.prevBtn d = true -> DPN.nextBtn d = true ->
  exists d1, DPN.destroy d = Ok d1 /\ throws (DPN.destroy d1) = true.
Proof.
  intros Hp Hn. unfold DPN.destroy. cbn.
  destruct (DPN.navi d) as [n|]; cbn; rewrite Hp; cbn; rewrite Hn; cbn;
    eexists; (split; [reflexivity|]); reflexivity.
Qed.

(** C5.  On a desktop navigator over five buttons, set up on an existing
    wrap, the first [destroy()] completes and the second one throws,
    whereas the second [destroy()] of a navigation object is a no-op. *)
Theorem desktop_destroy_twice_throws :
  exists d1,
    DPN.destroy (Samples.desktop 5 1) = Ok d1 /\
    throws (DPN.destroy d1) = true /\
    forall n, Navi.destroy (Navi.destroy n) = Navi.destroy n.
Proof.
  destruct (desktop_destroy_again (Samples.desktop 5 1) eq_refl eq_refl)
    as [d1 [H1 H2]].
  exists d1. split; [exact H1 | split; [exact H2 | apply NaviProps.destroy_twice]].
Qed.

End DestroyProps.

(** ** The pagination controller's mobile buttons *)

Module MobileButtons.

Module HSN := HorizontalSlideNavi.



End MobileButtons.

(** ** Degenerate geometry and missing elements *)

Module EngineEdges.

Import Dragdealer.

Lemma withCore_some (d : t) (c : Core) (k : Core -> t * Core) :
  core d = Some c ->
  withCore d k = Ok (set_core (snd (k c)) (fst (k c))).
Proof.
  intro H. unfold withCore. rewrite H. now destruct (k c).
Qed.

Lemma withCore_none (d : t) (k : Core -> t * Core) :
  core d = None -> withCore d k = Throw d.
Proof.
  intro H. unfold withCore. now rewrite H.
Qed.

(** C8.  A range of zero makes the offset-to-ratio conversion zero, and
    an axis whose available range is zero has a delta of zero in the
    drag-stop callback. *)
Theorem zero_range_ratios (cur : Cursor) (d : t) (c : Core) :
  core d = Some c -> disabled d = false -> dragging d = true ->
  Opt.dragStopCallback (options d) = true ->
  (forall off range pad, (range == 0)%Q -> getRatioByOffset off range pad = Some 0%Q) /\
  exists d' l x y dx dy,
    stopDrag cur d = Ok d' /\
    log d' = l ++ [DragStopCallback x y (dx, dy)] /\
    ((Bounds.availWidth (bounds c) == 0)%Q -> dx = 0%Q) /\
    ((Bounds.availHeight (bounds c) == 0)%Q -> dy = 0%Q).
Proof.
  intros Hc Hd Hg Hcb. split.
  - intros off range pad H. unfold getRatioByOffset, qtruthy.
    apply Qeq_bool_iff in H. now rewrite H.
  - unfold stopDrag. rewrite Hd, Hg. simpl.
    rewrite (withCore_some _ c) by exact Hc.
    set (target := if Opt.slide _ then _ else _).
    unfold setTargetValue. simpl.
    unfold callDragStopCallback. simpl.
    replace (Opt.dragStopCallback (options (callTargetCallback (set_dragging false d) _)))
      with true
      by (unfold callTargetCallback; simpl; destruct (Opt.callback (options d)); simpl; now rewrite Hcb).
    simpl. do 6 eexists. split; [reflexivity|]. simpl. split; [reflexivity|].
    split; intro H; apply Qeq_bool_iff in H; now rewrite H.
Qed.

(** The sample slider has no vertical range: a drag of 135 pixels to the
    right and 40 down reports a vertical delta of 0. *)
Lemma zero_range_ratios_witness :
  exists d' l x y dx,
    stopDrag {| cx := 135; cy := 40; xDiff := 0; yDiff := 0 |}
             (Samples.dragged (Samples.withSteps 0 false false)) = Ok d' /\
    log d' = l ++ [DragStopCallback x y (dx, 0%Q)].
Proof.
  destruct (core (Samples.dragged (Samples.withSteps 0 false false))) as [c|] eqn:E;
    [|vm_compute in E; discriminate E].
  assert (Hd : disabled (Samples.dragged (Samples.withSteps 0 false false)) = false)
    by (vm_compute; reflexivity).
  assert (Hg : dragging (Samples.dragged (Samples.withSteps 0 false false)) = true)
    by (vm_compute; reflexivity).
  assert (Hcb : Opt.dragStopCallback
                  (options (Samples.dragged (Samples.withSteps 0 false false))) = true)
    by (vm_compute; reflexivity).
  destruct (zero_range_ratios {| cx := 135; cy := 40; xDiff := 0; yDiff := 0 |}
              (Samples.dragged (Samples.withSteps 0 false false)) c
              E Hd Hg Hcb)
    as [_ (d' & l & x & y & dx & dy & Hs & Hl & _ & Hy)].
  assert (Hz : dy = 0%Q).
  { apply Hy. vm_compute in E. injection E as <-. reflexivity. }
  subst dy. exists d', l, x, y, dx. split; [exact Hs | exact Hl].
Defined.

(** C6.  When the wrapper or the handle is not found, construction
    completes and leaves an instance without listeners and without the
    fields of [init()]: no DOM event reaches it, and [stopDrag] and
    [stopTap] do nothing; [setValue], [getValue], [reflow], [enable],
    [disable] and [startDrag] raise a TypeError. *)
Theorem missing_element_instance (o : Opt.t) (wrapperFound handleFound : bool)
    (cur : Cursor) (dom : Dom) :
  wrapperFound && handleFound = false ->
  exists d,
    create o wrapperFound handleFound cur dom = Ok d /\
    listening d = false /\ core d = None /\ log d = [] /\
    (forall e cur' dom', dispatch e cur' dom' d = Ok d) /\
    (forall cur', stopDrag cur' d = Ok d) /\
    stopTap d = Ok d /\
    getValue d = None /\
    (forall x y snap, throws (setValue x y snap d) = true) /\
    (forall dom', throws (reflow dom' d) = true) /\
    throws (enable d) = true /\
    throws (disable d) = true /\
    (forall cur' dom', throws (startDrag cur' dom' d) = true).
Proof.
  intro H. unfold create.
  destruct wrapperFound; simpl in *; [subst handleFound; simpl|];
    eexists; (split; [reflexivity|]); repeat split.
Qed.

Lemma missing_element_instance_witness :
  create Opt.defaults false false Samples.cursor0 Samples.slider = Ok Samples.inert /\
  getValue Samples.inert = None.
Proof.
  destruct (missing_element_instance Opt.defaults false false
              Samples.cursor0 Samples.slider eq_refl)
    as (d & Hc & _ & _ & _ & _ & _ & _ & Hv & _).
  assert (Hd : d = Samples.inert).
  { unfold Samples.inert. rewrite Hc. reflexivity. }
  subst d. split; assumption.
Defined.

(** On an instance built without its wrapper, the public methods throw:
    they are not no-ops. *)
Lemma missing_element_methods_throw :
  throws (setValue (Some (1 # 2)) (Some 0%Q) true Samples.inert) = true /\
  getValue Samples.inert = None /\
  throws (reflow Samples.slider Samples.inert) = true /\
  throws (enable Samples.inert) = true /\
  throws (disable Samples.inert) = true /\
  throws (startDrag Samples.cursor0 Samples.slider Samples.inert) = true.
Proof.
  vm_compute. repeat split.
Qed.

End EngineEdges.

(** ** The desktop navigator's window *)

Module WindowEdges.

Module DPN := DesktopPaginationNavi.
Import Vocabulary.

Lemma looped_last_wraps (N index : Z) :
  4 < N -> 1 <= index <= N ->
  Helpers.getLoopedLastIndex N 4 index = wrap1 N (index + 3).
Proof.
  intros HN Hi. unfold Helpers.getLoopedLastIndex, wrap1.
  destruct (Z.leb_spec (index + 3) N).
  - rewrite Z.mod_small by lia. lia.
  - replace (index + 4 - 1 - 1) with (index + 2 - N + 1 * N) by lia.
    rewrite Z.mod_add by lia. rewrite Z.mod_small by lia. lia.
Qed.

Lemma position_keeps_edges (d : DPN.t) :
  DPN.edgeBtnsIndex (DPN.setNaviListItemsPosition d) = DPN.edgeBtnsIndex d.
Proof.
  unfold DPN.setNaviListItemsPosition.
  destruct (_ <=? 0); [reflexivity|].
  destruct (_ <=? DPN.DISPLAY_BTN_NUM); reflexivity.
Qed.

(** What [switchBtns] does to the window edges, and what the constructor
    sets them to. *)
Lemma switchBtns_shift
    (isIndexInLoop : Z -> Z -> Z -> Z -> bool)
    (getReverseLoopedFirstIndex : Z -> Z -> Z -> Z)
    (d : DPN.t) (n : Navi.t) (dir : DPN.Direction) (index : Z) :
  let N := Z.of_nat (DPN.naviListItems d) in
  let switch := DPN.switchBtns isIndexInLoop getReverseLoopedFirstIndex in
  4 < N -> DPN.navi d = Some n ->
  (isIndexInLoop N 4 (DPN.left (DPN.edgeBtnsIndex d)) index = true ->
     switch (Some dir) index d = Ok d) /\
  (isIndexInLoop N 4 (DPN.left (DPN.edgeBtnsIndex d)) index = false ->
     exists d', switch (Some dir) index d = Ok d' /\
       match dir with
       | DPN.next =>
           DPN.left (DPN.edgeBtnsIndex d') = index /\
           DPN.right (DPN.edgeBtnsIndex d') = (index + 2) mod N + 1 /\
           (1 <= index <= N -> DPN.right (DPN.edgeBtnsIndex d') = wrap1 N (index + 3))
       | DPN.prev =>
           DPN.right (DPN.edgeBtnsIndex d') = index /\
           DPN.left (DPN.edgeBtnsIndex d') = getReverseLoopedFirstIndex N 4 index
       end) /\
  (forall (dm : DPN.Dom) (cb : bool) (first : Z),
     4 < Z.of_nat (DPN.listItems dm) ->
     DPN.edgeBtnsIndex (DPN.init dm (DPN.create true cb first))
     = {| DPN.left := first;
          DPN.right := (first + 2) mod Z.of_nat (DPN.listItems dm) + 1 |}).
Proof.
  intros N switch HN Hn. subst switch. unfold DPN.switchBtns. fold N.
  unfold DPN.DISPLAY_BTN_NUM.
  destruct (Z.leb_spec N 4) as [|_]; [lia|].
  split; [|split].
  - intros ->. reflexivity.
  - intros ->. rewrite Hn. eexists. split; [reflexivity|].
    rewrite position_keeps_edges.
    destruct dir; cbn.
    + split; reflexivity.
    + split; [reflexivity|]. split.
      * unfold Helpers.getLoopedLastIndex.
        replace (index + 4 - 1 - 1) with (index + 2) by lia. reflexivity.
      * intro Hi. now apply looped_last_wraps.
  - intros dm cb first Hlen.
    unfold DPN.init, DPN.setInstance, DPN.resize, DPN.arrangeNaviListItems.
    cbn [negb DPN.wrap DPN.create].
    rewrite !position_keeps_edges. unfold DPN.DISPLAY_BTN_NUM. cbn.
    destruct (Z.ltb_spec 4 (Z.of_nat (DPN.listItems dm))); [|lia].
    cbn. rewrite ?position_keeps_edges. cbn. unfold Helpers.getLoopedLastIndex.
    replace (first + 4 - 1 - 1) with (first + 2) by lia. reflexivity.
Qed.

(** C3, as the code has it.  With more than four list items and a
    direction given, [switchBtns] leaves the edges alone when the index
    is reported to be in the window; otherwise a 'next' shift makes the
    index the left edge and puts the right edge three buttons further,
    wrapping from N to 1, and a 'prev' shift makes the index the right
    edge and takes the left edge from [getReverseLoopedFirstIndex].  The
    constructor sets the edges like a 'next' shift to [firstIndex]. *)
Theorem switchBtns_edges
    (isIndexInLoop : Z -> Z -> Z -> Z -> bool)
    (getReverseLoopedFirstIndex : Z -> Z -> Z -> Z)
    (d : DPN.t) (n : Navi.t) (dir : DPN.Direction) (index : Z) :
  let N := Z.of_nat (DPN.naviListItems d) in
  let switch := DPN.switchBtns isIndexInLoop getReverseLoopedFirstIndex in
  4 < N -> DPN.navi d = Some n ->
  (isIndexInLoop N 4 (DPN.left (DPN.edgeBtnsIndex d)) index = true ->
     switch (Some dir) index d = Ok d) /\
  (isIndexInLoop N 4 (DPN.left (DPN.edgeBtnsIndex d)) index = false ->
     exists d', switch (Some dir) index d = Ok d' /\
       match dir with
       | DPN.next =>
           DPN.left (DPN.edgeBtnsIndex d') = index /\
           DPN.right (DPN.edgeBtnsIndex d') = (index + 2) mod N + 1 /\
           (1 <= index <= N -> DPN.right (DPN.edgeBtnsIndex d') = wrap1 N (index + 3))
       | DPN.prev =>
           DPN.right (DPN.edgeBtnsIndex d') = index /\
           DPN.left (DPN.edgeBtnsIndex d') = getReverseLoopedFirstIndex N 4 index
       end) /\
  (forall (dm : DPN.Dom) (cb : bool) (first : Z),
     4 < Z.of_nat (DPN.listItems dm) ->
     DPN.edgeBtnsIndex (DPN.init dm (DPN.create true cb first))
     = {| DPN.left := first;
          DPN.right := (first + 2) mod Z.of_nat (DPN.listItems dm) + 1 |}).
Proof.
  exact (switchBtns_shift isIndexInLoop getReverseLoopedFirstIndex d n dir index).
Qed.

(** Ten buttons, window from 5: 'next' to 9, which is not shown, gives
    the edges 9 and 2. *)
Lemma switchBtns_edges_witness :
  exists d',
    Pagination.switchBtns (Some DPN.next) 9 (Samples.desktop 10 5) = Ok d' /\
    DPN.edgeBtnsIndex d' = {| DPN.left := 9; DPN.right := 2 |}.
Proof.
  destruct (DPN.navi (Samples.desktop 10 5)) as [n|] eqn:E;
    [|vm_compute in E; discriminate E].
  assert (HN : 4 < Z.of_nat (DPN.naviListItems (Samples.desktop 10 5)))
    by (vm_compute; reflexivity).
  destruct (switchBtns_edges Helpers.isIndexInLoop Helpers.getReverseLoopedFirstIndex
              (Samples.desktop 10 5) n DPN.next 9 HN E)
    as (_ & Hout & _).
  destruct Hout as (d' & Hs & Hl & _ & Hr); [vm_compute; reflexivity|].
  exists d'. split; [exact Hs|].
  destruct (DPN.edgeBtnsIndex d') as [l r]. cbn in Hl, Hr.
  rewrite Hl, Hr by (vm_compute; split; discriminate). reflexivity.
Defined.

(** Ten buttons, window 1 to 4.  A 'prev' shift to 10 gives the edges 7
    and 10, not 10 and 3; a 'next' shift to 2, which is shown already,
    leaves the edges at 1 and 4, not 2 and 5. *)
Lemma shift_edges_differ :
  DPN.edgeBtnsIndex (Samples.desktop 10 1) = {| DPN.left := 1; DPN.right := 4 |} /\
  DPN.edgeBtnsIndex
    (state_of (Pagination.switchBtns (Some DPN.prev) 10 (Samples.desktop 10 1)))
  = {| DPN.left := 7; DPN.right := 10 |} /\
  leftAligned 10 10 = {| DPN.left := 10; DPN.right := 3 |} /\
  DPN.edgeBtnsIndex
    (state_of (Pagination.switchBtns (Some DPN.next) 2 (Samples.desktop 10 1)))
  = {| DPN.left := 1; DPN.right := 4 |} /\
  leftAligned 10 2 = {| DPN.left := 2; DPN.right := 5 |}.
Proof.
  vm_compute. repeat split.
Qed.

(** Whatever the two missing helpers compute, a 'prev' shift to 10 from
    the window 1 to 4 of ten buttons does not make 10 the left edge. *)
Lemma prev_shift_never_left_aligned
    (isIndexInLoop : Z -> Z -> Z -> Z -> bool)
    (getReverseLoopedFirstIndex : Z -> Z -> Z -> Z) :
  DPN.edgeBtnsIndex
    (state_of (DPN.switchBtns isIndexInLoop getReverseLoopedFirstIndex
                 (Some DPN.prev) 10 (Samples.desktop 10 1)))
  <> leftAligned 10 10.
Proof.
  destruct (DPN.navi (Samples.desktop 10 1)) as [n|] eqn:E;
    [|vm_compute in E; discriminate E].
  assert (HN : 4 < Z.of_nat (DPN.naviListItems (Samples.desktop 10 1)))
    by (vm_compute; reflexivity).
  destruct (switchBtns_shift isIndexInLoop getReverseLoopedFirstIndex
              (Samples.desktop 10 1) n DPN.prev 10 HN E)
    as (Hin & Hout & _).
  destruct (isIndexInLoop (Z.of_nat (DPN.naviListItems (Samples.desktop 10 1))) 4
              (DPN.left (DPN.edgeBtnsIndex (Samples.desktop 10 1))) 10) eqn:B.
  - rewrite (Hin eq_refl). cbn [state_of]. vm_compute. discriminate.
  - destruct (Hout eq_refl) as (d' & Hs & Hr & _). rewrite Hs. cbn [state_of].
    intro H. rewrite H in Hr. vm_compute in Hr. discriminate.
Qed.

End WindowEdges.

(** ** Crossing the breakpoint *)

Module Breakpoint.

Module HSN := HorizontalSlideNavi.
Module DPN := DesktopPaginationNavi.


Lemma desktop_activate_index (i : Z) (d : DPN.t) (n : Navi.t) :
  DPN.navi d = Some n ->
  DPN.getActivatedIndex (DPN.activate i d)
  = if (i <=? 0) || (Z.of_nat (length (Navi.btns n)) <? i) then 0 else i.
Proof.
  intro Hn. unfold DPN.getActivatedIndex, DPN.activate. rewrite Hn.
  unfold Navi.activate. cbn. reflexivity.
Qed.

Lemma position_keeps_wrap (d : DPN.t) :
  DPN.wrap (DPN.setNaviListItemsPosition d) = DPN.wrap d.
Proof.
  unfold DPN.setNaviListItemsPosition.
  destruct (_ <=? 0); [reflexivity|].
  destruct (_ <=? DPN.DISPLAY_BTN_NUM); reflexivity.
Qed.

Lemma desktop_init_wrap (dm : DPN.Dom) (cb : bool) (first : Z) :
  DPN.wrap (DPN.init dm (DPN.create true cb first)) = true.
Proof.
  unfold DPN.init, DPN.setInstance, DPN.resize, DPN.arrangeNaviListItems.
  cbn [negb DPN.wrap DPN.create].
  rewrite position_keeps_wrap. cbn. rewrite position_keeps_wrap. cbn.
  now destruct (_ <? _).
Qed.





Lemma runCalls_keeps_wrap (calls : list Navi.Invocation) (n : Navi.t) :
  forall d, DPN.wrap (snd (DPN.runCalls calls n d)) = DPN.wrap d.
Proof.
  induction calls as [|c calls IH]; intro d; [reflexivity|].
  cbn. destruct (Navi.call c); try apply IH.
  - specialize (IH d). destruct (DPN.runCalls calls n d). exact IH.
  - rewrite IH. reflexivity.
Qed.

Lemma activate_keeps_wrap (i : Z) (d : DPN.t) :
  DPN.wrap (DPN.activate i d) = DPN.wrap d.
Proof.
  unfold DPN.activate. destruct (DPN.navi d) as [n|]; [|reflexivity].
  destruct (Navi.activate i n) as [calls n']. cbn.
  apply runCalls_keeps_wrap.
Qed.




(** Activating an index on the slide navigator, as every resize in the
    mobile range does with [currentIndex], leaves the navigator in step
    with that index. *)
Lemma slide_activate_in_step (i : Z) (p p' : Pagination.t) :
  Pagination.slideActivate i p = Ok p' ->
  exists h', Pagination.slideNavi p' = Some h' /\
    Pagination.currentIndex p' = Pagination.currentIndex p /\
    HSN.getActivatedIndex (snd (HSN.activate i h')) = HSN.getActivatedIndex h'.
Proof.
  unfold Pagination.slideActivate.
  destruct (Pagination.slideNavi p) as [h|]; [|discriminate].
  unfold HSN.activate, Navi.activate. cbn.
  intro H. injection H as <-. eexists. split; [reflexivity|]. split.
  - now destruct (Navi.activateCallback (HSN.navi h)).
  - unfold HSN.getActivatedIndex, HSN.activate, Navi.activate. cbn. reflexivity.
Qed.

End Breakpoint.

(** ** Clamping and the closest step *)

Module Settling.

Import Dragdealer Vocabulary.
Local Open Scope Q_scope.

Lemma Qle_bool_false (x y : Q) : Qle_bool x y = false -> y < x.
Proof.
  intro H. apply Qnot_le_lt. intro Hle.
  apply Qle_bool_iff in Hle. congruence.
Qed.

Lemma clamp_value (x : Q) :
  clampRatio (Some x) = Some (qmin (qmax x 0) 1).
Proof. reflexivity. Qed.

Lemma clamp_is_clamp (x : Q) : is_clamp x (qmin (qmax x 0) 1).
Proof.
  unfold is_clamp, qmin, qmax.
  destruct (Qle_bool x 0) eqn:E0.
  - apply Qle_bool_iff in E0.
    destruct (Qle_bool 0 1) eqn:E1; [|discriminate].
    repeat split; intros; lra.
  - apply Qle_bool_false in E0.
    destruct (Qle_bool x 1) eqn:E1.
    + apply Qle_bool_iff in E1. repeat split; intros; lra.
    + apply Qle_bool_false in E1. repeat split; intros; lra.
Qed.

Lemma clamp_range (x r : Q) : is_clamp x r -> 0 <= r <= 1.
Proof.
  intros (Hlo & Hmid & Hhi).
  destruct (Qlt_le_dec x 0) as [H|H]; [specialize (Hlo H); lra|].
  destruct (Qlt_le_dec 1 x) as [H1|H1]; [specialize (Hhi H1); lra|].
  assert (r == x) by (apply Hmid; lra). lra.
Qed.

Lemma clamp_compat (x x' r : Q) : x == x' -> is_clamp x r -> is_clamp x' r.
Proof.
  intros E (Hlo & Hmid & Hhi). repeat split; intros.
  - apply Hlo. lra.
  - rewrite <- E. apply Hmid. lra.
  - apply Hhi. lra.
Qed.

Section Loop.

Variable table : list Q.
Variable v : Q.

Lemma search_start : closest_so_far table v 0 1 0.
Proof.
  repeat split; intros; try lia. now left.
Qed.

Lemma search_step (i : nat) (m : Q) (k : nat) (s : Q) :
  nth_error table i = Some s ->
  closest_so_far table v i m k ->
  (m <= Qabs (s - v) -> closest_so_far table v (S i) m k) /\
  (Qabs (s - v) < m -> closest_so_far table v (S i) (Qabs (s - v)) i).
Proof.
  intros Hs (Hall & Hbefore & Hk). split; intro Hcmp.
  - repeat split.
    + intros j s' Hj Hs'. destruct (Nat.eq_dec j i) as [->|Hne].
      * rewrite Hs in Hs'. injection Hs' as <-. exact Hcmp.
      * apply (Hall j); [lia | exact Hs'].
    + exact Hbefore.
    + destruct Hk as [Hk | (Hlt & r & Hr & Hm)]; [now left|].
      right. split; [lia|]. now exists r.
  - repeat split.
    + intros j s' Hj Hs'. destruct (Nat.eq_dec j i) as [->|Hne].
      * rewrite Hs in Hs'. injection Hs' as <-. lra.
      * specialize (Hall j s' ltac:(lia) Hs'). lra.
    + intros j s' Hj Hs'. specialize (Hall j s' Hj Hs'). lra.
    + right. split; [lia|]. now exists s.
Qed.

Lemma search_loop (n : nat) :
  forall (i : nat) (m : Q) (k : nat),
    (i + n = length table)%nat ->
    closest_so_far table v i m k ->
    exists m',
      closest_so_far table v (length table) m'
        (closestLoop table (Some v) n i (Some m) k).
Proof.
  induction n as [|n IH]; intros i m k Hlen Hinv.
  - exists m. replace (length table) with i by lia. exact Hinv.
  - destruct (nth_error table i) as [s|] eqn:Hs.
    2:{ apply nth_error_None in Hs. lia. }
    destruct (search_step i m k s Hs Hinv) as [Hkeep Htake].
    cbn [closestLoop]. rewrite Hs.
    change (Math_abs (sub (Some s) (Some v))) with (Some (Qabs (s - v))).
    change (lt (Some (Qabs (s - v))) (Some m))
      with (negb (Qle_bool m (Qabs (s - v)))).
    destruct (Qle_bool m (Qabs (s - v))) eqn:E; cbn [negb].
    + apply Qle_bool_iff in E. apply IH; [lia | now apply Hkeep].
    + apply Qle_bool_false in E. apply IH; [lia | now apply Htake].
Qed.

Lemma search_result (m : Q) (k : nat) :
  closest_so_far table v (length table) m k ->
  (exists j s, nth_error table j = Some s /\ Qabs (s - v) < 1) ->
  exists r, nth_error table k = Some r /\ closest_step table v r.
Proof.
  intros (Hall & Hbefore & Hk) (j & s & Hs & Hnear).
  assert (Hj : (j < length table)%nat)
    by (apply nth_error_Some; congruence).
  destruct Hk as [[-> ->] | (Hlt & r & Hr & ->)].
  - specialize (Hall j s Hj Hs). lra.
  - exists r. split; [exact Hr|]. exists k. split; [exact Hr|]. split.
    + intros j' s' Hs'. apply (Hall j'); [|exact Hs'].
      apply nth_error_Some. congruence.
    + exact Hbefore.
Qed.

End Loop.

(** [getClosestStep] returns the closest step whenever some step is less
    than 1 away. *)
Lemma getClosestStep_closest (o : Opt.t) (c : Core) (v : Q) :
  Z.to_nat (Opt.steps o) = length (stepRatios c) ->
  (exists j s, nth_error (stepRatios c) j = Some s /\ Qabs (s - v) < 1) ->
  exists r, getClosestStep o c (Some v) = Some r /\
            closest_step (stepRatios c) v r.
Proof.
  intros Hlen Hnear. unfold getClosestStep. rewrite Hlen.
  destruct (search_loop (stepRatios c) v (length (stepRatios c)) 0 1 0 eq_refl
              (search_start _ _)) as [m Hinv].
  exact (search_result _ _ m _ Hinv Hnear).
Qed.

Lemma closest_of_entry (table : list Q) (k : nat) (s r : Q) :
  nth_error table k = Some s -> closest_step table s r -> r == s.
Proof.
  intros Hs (k' & _ & Hmin & _).
  specialize (Hmin k s Hs).
  assert (E : s - s == 0) by ring.
  assert (H0 : Qabs (r - s) <= 0) by (rewrite E in Hmin; exact Hmin).
  revert H0. apply Qabs_case; intros; lra.
Qed.

(** The step table of more than one step has an entry less than 1 away
    from every ratio between 0 and 1. *)
Lemma table_near (o : Opt.t) (v : Q) :
  (1 < Opt.steps o)%Z -> 0 <= v <= 1 ->
  exists j s, nth_error (calculateStepRatios o) j = Some s /\ Qabs (s - v) < 1.
Proof.
  intros Hs Hv. destruct (Qlt_le_dec v 1) as [Hlt|Hge].
  - exists (Z.to_nat 0), (inject_Z 0 / inject_Z (Opt.steps o - 1)). split.
    + apply StepTable.table_nth; lia.
    + assert (E : inject_Z 0 / inject_Z (Opt.steps o - 1) == 0)
        by (unfold Qdiv; apply Qmult_0_l).
      rewrite E. apply Qabs_case; intros; lra.
  - exists (Z.to_nat (Opt.steps o - 1)),
      (inject_Z (Opt.steps o - 1) / inject_Z (Opt.steps o - 1)). split.
    + apply StepTable.table_nth; lia.
    + assert (E : inject_Z (Opt.steps o - 1) / inject_Z (Opt.steps o - 1) == 1).
      { apply Qmult_inv_r. intro H.
        assert (Hpos : inject_Z 0 < inject_Z (Opt.steps o - 1))
          by (rewrite <- Zlt_Qlt; lia).
        rewrite H in Hpos. now apply Qlt_irrefl in Hpos. }
      rewrite E. apply Qabs_case; intros; lra.
Qed.


Lemma stepping_bool (d : t) :
  stepping d <->
  ((negb (dragging d) && negb (tapping d)) || Opt.snap (options d) = true
   /\ (1 <? Opt.steps (options d))%Z = true).
Proof.
  unfold stepping. rewrite Z.ltb_lt.
  destruct (dragging d), (tapping d), (Opt.snap (options d)); cbn;
    intuition congruence.
Qed.

(** What [getProperValue] returns for a pair of finite ratios. *)
Lemma getProperValue_settled (d : t) (c : Core) (x y : Q) :
  stepRatios c = calculateStepRatios (options d) ->
  exists tx ty,
    getProperValue d c (@pair num num (Some x) (Some y))
    = @pair num num (Some tx) (Some ty) /\
    settled (stepping d) (stepRatios c) x tx /\
    settled (stepping d) (stepRatios c) y ty.
Proof.
  intro Htab. unfold getProperValue. cbn [fst snd]. rewrite !clamp_value.
  pose proof (stepping_bool d) as Hb.
  destruct ((negb (dragging d) && negb (tapping d)) || Opt.snap (options d)) eqn:Eb.
  1: destruct (1 <? Opt.steps (options d))%Z eqn:Es.
  - assert (Hst : stepping d) by (apply Hb; split; reflexivity).
    assert (Hsteps : (1 < Opt.steps (options d))%Z) by (now apply Z.ltb_lt).
    assert (Hlen : Z.to_nat (Opt.steps (options d)) = length (stepRatios c))
      by (rewrite Htab, StepTable.table_length; [reflexivity | lia]).
    assert (Hnear : forall v, is_clamp v (qmin (qmax v 0) 1) ->
              exists j s, nth_error (stepRatios c) j = Some s
                          /\ Qabs (s - qmin (qmax v 0) 1) < 1).
    { intros v Hv. rewrite Htab. apply table_near; [exact Hsteps|].
      now apply (clamp_range v). }
    destruct (getClosestStep_closest (options d) c _ Hlen (Hnear x (clamp_is_clamp x)))
      as (tx & Hx & Hcx).
    destruct (getClosestStep_closest (options d) c _ Hlen (Hnear y (clamp_is_clamp y)))
      as (ty & Hy & Hcy).
    exists tx, ty. unfold getClosestSteps. cbn [fst snd]. rewrite Hx, Hy.
    split; [reflexivity|]. split.
    + exists (qmin (qmax x 0) 1). split; [apply clamp_is_clamp|]. split; tauto.
    + exists (qmin (qmax y 0) 1). split; [apply clamp_is_clamp|]. split; tauto.
  - assert (Hst : ~ stepping d) by (intro H; apply Hb in H; destruct H; congruence).
    exists (qmin (qmax x 0) 1), (qmin (qmax y 0) 1). split; [reflexivity|]. split.
    + exists (qmin (qmax x 0) 1). split; [apply clamp_is_clamp|].
      split; [tauto | reflexivity].
    + exists (qmin (qmax y 0) 1). split; [apply clamp_is_clamp|].
      split; [tauto | reflexivity].
  - assert (Hst : ~ stepping d) by (intro H; apply Hb in H; destruct H; congruence).
    exists (qmin (qmax x 0) 1), (qmin (qmax y 0) 1). split; [reflexivity|]. split.
    + exists (qmin (qmax x 0) 1). split; [apply clamp_is_clamp|].
      split; [tauto | reflexivity].
    + exists (qmin (qmax y 0) 1). split; [apply clamp_is_clamp|].
      split; [tauto | reflexivity].
Qed.



End Settling.

(** ** Setting the value and releasing a drag *)

Module Positioning.

Import Dragdealer Vocabulary.
Local Open Scope Q_scope.

Lemma or0_finite (y : Q) : exists y', or0 (Some y) = Some y' /\ y' == y.
Proof.
  unfold or0, truthy. destruct (Qeq_bool y 0) eqn:E; cbn.
  - exists 0. split; [reflexivity|]. apply Qeq_bool_iff in E. now symmetry.
  - exists y. split; reflexivity.
Qed.



Lemma update_offset_result (d : t) (c : Core) :
  Offset.current (offset (snd (updateOffsetFromValue d c)))
  = (if negb (Opt.snap (options d))
     then getOffsetsByRatios c (Value.current (value c))
     else getOffsetsByRatios c
            (getClosestSteps (options d) c (Value.current (value c)))) /\
  value (snd (updateOffsetFromValue d c)) = value c /\
  options (fst (updateOffsetFromValue d c)) = options d.
Proof.
  unfold updateOffsetFromValue.
  destruct (negb (groupCompare _ _)); cbn; repeat split.
  unfold renderHandlePosition. now destruct (Opt.css3 (options d)).
Qed.

Lemma animation_callback_result (d : t) (c : Core) :
  offset (snd (callAnimationCallback d c)) = offset c /\
  Value.target (value (snd (callAnimationCallback d c))) = Value.target (value c).
Proof.
  unfold callAnimationCallback.
  destruct (negb (groupCompare _ _)); cbn; split; reflexivity.
Qed.


Lemma pixel_compat (r r' range padding : Q) :
  r == r' -> pixel r range padding = pixel r' range padding.
Proof.
  intro E. unfold pixel. f_equal. f_equal. apply Qfloor_comp.
  rewrite E. reflexivity.
Qed.

(** A step snaps to itself. *)
Lemma closest_steps_of_steps (o : Opt.t) (c : Core) (kx ky : nat) (tx ty : Q) :
  Z.to_nat (Opt.steps o) = length (stepRatios c) ->
  nth_error (stepRatios c) kx = Some tx ->
  nth_error (stepRatios c) ky = Some ty ->
  exists rx ry,
    getClosestSteps o c (@pair num num (Some tx) (Some ty))
    = @pair num num (Some rx) (Some ry) /\
    rx == tx /\ ry == ty.
Proof.
  intros Hlen Hx Hy.
  assert (Hnear : forall k t, nth_error (stepRatios c) k = Some t ->
            exists j s, nth_error (stepRatios c) j = Some s /\ Qabs (s - t) < 1).
  { intros k t Hk. exists k, t. split; [exact Hk|].
    assert (E : t - t == 0) by ring. rewrite E. reflexivity. }
  destruct (Settling.getClosestStep_closest o c tx Hlen (Hnear kx tx Hx))
    as (rx & Hrx & Hcx).
  destruct (Settling.getClosestStep_closest o c ty Hlen (Hnear ky ty Hy))
    as (ry & Hry & Hcy).
  exists rx, ry. unfold getClosestSteps. cbn [fst snd]. rewrite Hrx, Hry.
  split; [reflexivity|]. split.
  - now apply (Settling.closest_of_entry (stepRatios c) kx).
  - now apply (Settling.closest_of_entry (stepRatios c) ky).
Qed.









(** The snap option without steps: the table of step ratios is empty, the
    ratio pair is stored as given, and the offset of the handle has no
    number in it, since [stepRatios[0]] is undefined. *)
Lemma snap_without_steps :
  let d := Samples.engine (Samples.withSteps 0 true false) in
  exists d' c',
    setValue (Some (1 # 2)) (Some 0) true d = Ok d' /\
    core d' = Some c' /\
    stepRatios c' = [] /\
    getValue d' = Some (Some (1 # 2), Some 0) /\
    Offset.current (offset c') = (None, None).
Proof.
  vm_compute. eexists. eexists.
  split; [reflexivity|]. split; [reflexivity|].
  split; [reflexivity|]. split; reflexivity.
Qed.

End Positioning.

(** ** Engines that went through [init()] *)

Module Initialised.

Import Dragdealer Vocabulary.

Lemma keeps_refl (d : t) (c : Core) : keeps d c (d, c).
Proof. repeat split. Qed.

Lemma keeps_trans (d d1 : t) (c c1 : Core) (r : t * Core) :
  keeps d c (d1, c1) -> keeps d1 c1 r -> keeps d c r.
Proof.
  intros (H1 & H2 & H3 & H4 & H5) (K1 & K2 & K3 & K4 & K5).
  cbn [fst snd] in *. repeat split; congruence.
Qed.

Lemma keeps_update (d : t) (c : Core) : keeps d c (updateOffsetFromValue d c).
Proof.
  unfold keeps, updateOffsetFromValue, renderHandlePosition.
  destruct (negb (groupCompare _ _)); destruct (Opt.css3 (options d));
    cbn; repeat split; reflexivity.
Qed.

Lemma keeps_animation (d : t) (c : Core) : keeps d c (callAnimationCallback d c).
Proof.
  unfold keeps, callAnimationCallback.
  destruct (negb (groupCompare _ _)); destruct (Opt.animationCallback (options d));
    cbn; repeat split; reflexivity.
Qed.

Lemma keeps_target (v : num * num) (loose : bool) (d : t) (c : Core) :
  keeps d c (setTargetValue v loose d c).
Proof.
  unfold keeps, setTargetValue, callTargetCallback.
  destruct (Opt.callback (options d)); cbn; repeat split; reflexivity.
Qed.

Lemma keeps_rendered (d : t) (c : Core) :
  keeps d c (let '(d1, c1) := updateOffsetFromValue d c in
             callAnimationCallback d1 c1).
Proof.
  pose proof (keeps_update d c) as H1.
  destruct (updateOffsetFromValue d c) as [d1 c1].
  exact (keeps_trans d d1 c c1 _ H1 (keeps_animation d1 c1)).
Qed.

Lemma glide_table (d : t) (c : Core) :
  stepRatios (snd (glide d c)) = stepRatios c.
Proof.
  unfold glide. destruct (_ && _); [reflexivity|]. now destruct (_ || _).
Qed.

(** A method body that keeps the frame, run on an initialised engine,
    completes and leaves an initialised engine. *)
Lemma withCore_initialised (d : t) (c : Core) (k : Core -> t * Core) :
  initialised d c -> keeps d c (k c) ->
  exists d' c',
    withCore d k = Ok d' /\ initialised d' c' /\ keeps d c (d', c').
Proof.
  intros [Hc Ht] (Ho & Hh & Hl & Hg & Hs). unfold withCore. rewrite Hc.
  destruct (k c) as [d' c']. cbn [fst snd] in Ho, Hh, Hl, Hg, Hs.
  exists (set_core c' d'), c'. split; [reflexivity|]. split.
  - split; [reflexivity|]. cbn. now rewrite Hs, Ho.
  - repeat split; assumption.
Qed.

Lemma reflow_initialised (dom : Dom) (d : t) (c : Core) :
  initialised d c ->
  exists d' c', reflow dom d = Ok d' /\ initialised d' c' /\ keeps d c (d', c').
Proof.
  intro H. unfold reflow.
  apply (withCore_initialised d c); [exact H|].
  cbv zeta.
  match goal with
  | |- keeps _ _ (updateOffsetFromValue _ ?c') =>
      exact (keeps_trans d d c c' _ (keeps_refl d c') (keeps_update d c'))
  end.
Qed.

Lemma setValue_initialised (x y : num) (snap : bool) (d : t) (c : Core) :
  initialised d c ->
  exists d' c', setValue x y snap d = Ok d' /\ initialised d' c'.
Proof.
  intro H. unfold setValue.
  destruct (withCore_initialised d c
              (fun c =>
                 let '(d, c) := setTargetValue (x, or0 y) false d c in
                 if snap then
                   let c := set_value_current (Value.target (value c)) c in
                   let '(d, c) := updateOffsetFromValue d c in
                   callAnimationCallback d c
                 else (d, c)) H) as (d' & c' & Hr & Hi & _).
  - pose proof (keeps_target (x, or0 y) false d c) as H1.
    destruct (setTargetValue (x, or0 y) false d c) as [d1 c1].
    destruct snap; [|exact H1].
    apply (keeps_trans d d1 c (set_value_current (Value.target (value c1)) c1));
      [exact H1 | apply keeps_rendered].
  - exists d', c'. split; assumption.
Qed.

Lemma startDrag_initialised (cur : Cursor) (dom : Dom) (d : t) (c : Core) :
  initialised d c ->
  exists d' c', startDrag cur dom d = Ok d' /\ initialised d' c'.
Proof.
  intros [Hc Ht]. unfold startDrag.
  destruct (disabled d); [exists d, c; split; [reflexivity | split; assumption]|].
  destruct (withCore_initialised (set_dragging true d) c
              (fun c =>
                 let c := set_offset_wrapper (wrapperRect dom) c in
                 let c := set_dragStartPosition (cx cur, cy cur) c in
                 let c := set_offset_mouse
                            ((cx cur - fst (handleRect dom))%Q,
                             (cy cur - snd (handleRect dom))%Q) c in
                 let d := set_wrapperActive true (set_dragging true d) in
                 (callDragStartCallback d c, c)))
    as (d' & c' & Hr & Hi & _).
  - split; assumption.
  - unfold keeps, callDragStartCallback.
    destruct (Opt.dragStartCallback _); cbn; repeat split; reflexivity.
  - exists d', c'. split; assumption.
Qed.

(** Construction on a wrapper with its handle yields an initialised
    engine of the given options with its listeners bound. *)
Lemma create_initialised (o : Opt.t) (cur : Cursor) (dom : Dom) :
  exists d c,
    create o true true cur dom = Ok d /\ initialised d c /\
    options d = o /\ listening d = true /\ dragging d = false.
Proof.
  unfold create. cbn [negb]. unfold init.
  set (c0 := Build_Core _ _ _ _ _ _ _).
  set (d1 := set_tapping false _).
  assert (H1 : initialised d1 c0) by (split; reflexivity).
  destruct (reflow_initialised dom d1 c0 H1)
    as (d2 & c2 & Hr & H2 & (Ho2 & Hh2 & Hl2 & Hg2 & _)).
  cbn [fst snd] in Ho2, Hh2, Hl2, Hg2.
  rewrite Hr. cbn [bind].
  change (options (set_elements true true (set_elements true false (blank o))))
    with o.
  assert (H3 : exists d3,
             (if Opt.disabled o then disable d2 else Ok d2) = Ok d3 /\
             initialised d3 c2 /\ options d3 = o /\ dragging d3 = false).
  { destruct H2 as [Hc2 Ht2]. destruct (Opt.disabled o).
    - unfold disable. rewrite Hh2. cbn. eexists. split; [reflexivity|].
      repeat split; cbn; assumption.
    - exists d2. split; [reflexivity|]. repeat split; assumption. }
  destruct H3 as (d3 & Hd3 & H3 & Ho3 & Hg3).
  rewrite Hd3. cbn [bind]. unfold bindEventListeners, animate. cbn [andb].
  assert (H3' : initialised (set_listening true d3) c2) by exact H3.
  change (dragging (set_listening true d3)) with (dragging d3).
  rewrite Hg3. cbn [orb].
  match goal with
  | |- context [withCore _ ?k] =>
      destruct (withCore_initialised (set_listening true d3) c2 k H3')
        as (d4 & c4 & Hr4 & H4 & (Ho4 & _ & Hl4 & Hg4 & _))
  end.
  - set (cc := set_value_current _ _).
    pose proof (glide_table (set_listening true d3) cc) as Hg.
    destruct (glide (set_listening true d3) cc) as [g cg]. cbn [snd] in Hg.
    replace (if g then (true, cg) else (true, cg)) with (true, cg) by now destruct g.
    apply (keeps_trans _ (set_listening true d3) _ cg);
      [repeat split; exact Hg | apply keeps_rendered].
  - exists d4, c4. split; [exact Hr4|]. split; [exact H4|].
    cbn in Ho4, Hl4, Hg4. repeat split; congruence.
Qed.

End Initialised.

(** ** Pixels and ratios *)

Module PixelRatio.

Import Dragdealer Vocabulary.
Local Open Scope Q_scope.

Lemma qround_whole (k : Z) (q : Q) : q == inject_Z k -> qround q = k.
Proof.
  intro E. unfold qround.
  assert (H : q + (1 # 2) == (2 * k + 1) # 2).
  { rewrite E. unfold Qeq, Qplus, inject_Z. cbn [Qnum Qden]. lia. }
  rewrite H. unfold Qfloor.
  symmetry. apply (Z.div_unique _ _ _ 1); [left; lia | lia].
Qed.

Lemma qround_near (q : Q) : Qabs (inject_Z (qround q) - q) <= 1 # 2.
Proof.
  unfold qround.
  pose proof (Qfloor_le (q + (1 # 2))) as Hlo.
  pose proof (Qlt_floor (q + (1 # 2))) as Hhi.
  rewrite inject_Z_plus in Hhi. change (inject_Z 1) with 1%Q in Hhi.
  apply Qabs_Qle_condition. split; lra.
Qed.

Lemma qtruthy_nonzero (q : Q) : ~ q == 0 -> qtruthy q = true.
Proof.
  intro H. unfold qtruthy. destruct (Qeq_bool q 0) eqn:E; [|reflexivity].
  apply Qeq_bool_eq in E. contradiction.
Qed.



End PixelRatio.

(** ** Step numbers *)

Module StepNumbers.

Import Dragdealer Vocabulary.
Local Open Scope Q_scope.








End StepNumbers.

(** ** Gliding towards the target *)

Module Gliding.

Import Dragdealer Vocabulary.
Local Open Scope Q_scope.

Lemma Qeq_bool_false (a b : Q) : Qeq_bool a b = false -> ~ a == b.
Proof.
  intros E H. apply Qeq_bool_iff in H. congruence.
Qed.

Lemma qmin_le_1 (a : Q) : qmin a 1 <= 1.
Proof.
  unfold qmin. destruct (Qle_bool a 1) eqn:E; [|lra].
  now apply Qle_bool_iff.
Qed.

Lemma qmin_nonneg (a : Q) : 0 <= a -> 0 <= qmin a 1.
Proof.
  intro H. unfold qmin. destruct (Qle_bool a 1); lra.
Qed.

Lemma Qabs_scale (rho x : Q) : 0 <= rho <= 1 -> Qabs (rho * x) <= Qabs x.
Proof.
  intros [H0 H1]. rewrite Qabs_Qmult, (Qabs_pos rho) by exact H0.
  pose proof (Qabs_nonneg x) as Hx.
  assert (E : Qabs x == 1 * Qabs x) by ring.
  rewrite E at 2. apply Qmult_le_compat_r; assumption.
Qed.

(** X3.  One [glide()] on finite values with the frame time [t]: the
    target stays; if both distances are within the precision the
    current value lands on the target, otherwise it moves by the
    fraction [min(speed * t / 25, 1)] of each distance; it reports
    [false] exactly when there was no distance left; and with
    [speed * t] not negative no distance grows, so the handle never
    overshoots. *)
Theorem glide_step (d : t) (c : Core) (tx ty ux uy t : Q) :
  Value.target (value c) = (Some tx, Some ty) ->
  Value.current (value c) = (Some ux, Some uy) ->
  timeOffset d = Some t ->
  let rate := qmin (Opt.speed (options d) * t / 25) 1 in
  exists moved c' ux' uy',
    glide d c = (moved, c') /\
    Value.target (value c') = (Some tx, Some ty) /\
    Value.current (value c') = (Some ux', Some uy') /\
    (moved = false <-> tx == ux /\ ty == uy) /\
    (Qabs (tx - ux) <= fst (valuePrecision c) /\
     Qabs (ty - uy) <= snd (valuePrecision c) ->
     ux' == tx /\ uy' == ty) /\
    (~ (Qabs (tx - ux) <= fst (valuePrecision c) /\
        Qabs (ty - uy) <= snd (valuePrecision c)) ->
     ux' == ux + (tx - ux) * rate /\ uy' == uy + (ty - uy) * rate) /\
    (0 <= Opt.speed (options d) * t ->
     Qabs (tx - ux') <= Qabs (tx - ux) /\ Qabs (ty - uy') <= Qabs (ty - uy)).
Proof.
  intros Htg Hcu Ht rate. unfold glide. rewrite Htg, Hcu, Ht.
  cbn [fst snd sub lift2 truthy Math_abs lift1 option_map gt lt].
  set (px := fst (valuePrecision c)). set (py := snd (valuePrecision c)).
  assert (Hzero : Qeq_bool (tx - ux) 0 && Qeq_bool (ty - uy) 0 = true <->
                  tx == ux /\ ty == uy).
  { rewrite andb_true_iff, !Qeq_bool_iff. split; intros [H1 H2]; split; lra. }
  assert (Hin : negb (Qle_bool (Qabs (tx - ux)) px)
                || negb (Qle_bool (Qabs (ty - uy)) py) = false <->
                Qabs (tx - ux) <= px /\ Qabs (ty - uy) <= py).
  { rewrite orb_false_iff, !negb_false_iff, !Qle_bool_iff. reflexivity. }
  rewrite !negb_involutive.
  destruct (Qeq_bool (tx - ux) 0 && Qeq_bool (ty - uy) 0) eqn:Ez.
  - destruct (proj1 Hzero eq_refl) as [Ex Ey].
    exists false, c, ux, uy. split; [reflexivity|].
    split; [exact Htg|]. split; [exact Hcu|].
    split; [split; [intros _; split; assumption | reflexivity]|].
    split; [intros _; split; lra|].
    split.
    + intros _. split; [rewrite Ex | rewrite Ey]; ring.
    + intros _. split; apply Qle_refl.
  - assert (Hnz : ~ (tx == ux /\ ty == uy)).
    { intro H. apply Hzero in H. discriminate H. }
    destruct (negb (Qle_bool (Qabs (tx - ux)) px)
              || negb (Qle_bool (Qabs (ty - uy)) py)) eqn:Eo.
    + assert (Hout : ~ (Qabs (tx - ux) <= px /\ Qabs (ty - uy) <= py)).
      { intro H. apply Hin in H. discriminate H. }
      cbn [mul add Math_min divq lift1 lift2 option_map].
      eexists true, _, _, _. split; [reflexivity|].
      split; [exact Htg|]. split; [reflexivity|].
      split; [split; [discriminate | intro H; contradiction]|].
      split; [intro H; contradiction|].
      fold rate. split; [intros _; split; reflexivity|].
      intro Hs.
      assert (Hr : 0 <= 1 - rate <= 1).
      { pose proof (qmin_le_1 (Opt.speed (options d) * t / 25)).
        assert (0 <= Opt.speed (options d) * t / 25).
        { apply Qle_shift_div_l; [reflexivity | lra]. }
        pose proof (qmin_nonneg _ H0). unfold rate. lra. }
      split.
      * assert (E : tx - (ux + (tx - ux) * rate) == (1 - rate) * (tx - ux)) by ring.
        rewrite E. now apply Qabs_scale.
      * assert (E : ty - (uy + (ty - uy) * rate) == (1 - rate) * (ty - uy)) by ring.
        rewrite E. now apply Qabs_scale.
    + destruct (proj1 Hin eq_refl) as [Hx Hy].
      exists true, (set_value_current (@pair num num (Some tx) (Some ty)) c), tx, ty.
      split; [reflexivity|].
      split; [exact Htg|]. split; [reflexivity|].
      split; [split; [discriminate | intro H; contradiction]|].
      split; [intros _; split; reflexivity|].
      split; [intro H; exfalso; apply H; split; assumption|].
      intros _.
      assert (E : forall a, a - a == 0) by (intro; ring).
      rewrite !E. split; apply Qabs_nonneg.
Qed.

(** The sample slider asked for the middle, one 25 ms frame at the
    default speed: the value moves a tenth of the way. *)
Lemma glide_step_witness :
  let d := set_time (Some 25) None
             (state_of (setValue (Some (1 # 2)) (Some 0) false
                          (Samples.engine Opt.defaults))) in
  exists c c' ux' uy',
    core d = Some c /\
    glide d c = (true, c') /\
    Value.current (value c') = (Some ux', Some uy') /\
    ux' == 1 # 20 /\ uy' == 0.
Proof.
  intro d.
  destruct (core d) as [c|] eqn:E; [|vm_compute in E; discriminate E].
  assert (Htg : Value.target (value c) = (Some (1 # 2), Some 0))
    by (vm_compute in E; injection E as <-; reflexivity).
  assert (Hcu : Value.current (value c) = (Some 0, Some 0))
    by (vm_compute in E; injection E as <-; reflexivity).
  assert (Hp : valuePrecision c = (1 # 150, 0))
    by (vm_compute in E; injection E as <-; reflexivity).
  assert (Ht : timeOffset d = Some 25) by reflexivity.
  assert (Hs : Opt.speed (options d) = 1 # 10) by (vm_compute; reflexivity).
  destruct (glide_step d c (1 # 2) 0 0 0 25 Htg Hcu Ht)
    as (moved & c' & ux' & uy' & Hg & _ & Hc' & Hm & _ & Hout & _).
  rewrite Hp, Hs in Hout. cbn [fst snd] in Hout.
  assert (Hfar : ~ (Qabs ((1 # 2) - 0) <= 1 # 150 /\ Qabs (0 - 0) <= 0)).
  { intros [H _]. vm_compute in H. apply H. reflexivity. }
  destruct (Hout Hfar) as [Hx Hy].
  exists c, c', ux', uy'. split; [reflexivity|].
  split.
  - destruct moved; [exact Hg|].
    exfalso. destruct (proj1 Hm eq_refl) as [H _]. vm_compute in H. discriminate H.
  - split; [exact Hc'|]. split.
    + rewrite Hx. vm_compute. reflexivity.
    + rewrite Hy. vm_compute. reflexivity.
Defined.

End Gliding.

(** ** Setting the same value again *)

Module Repeating.

Import Dragdealer Vocabulary.
Local Open Scope Q_scope.

Lemma groupCompare_refl (a b : Q) :
  groupCompare (@pair num num (Some a) (Some b)) (@pair num num (Some a) (Some b)) = true.
Proof.
  unfold groupCompare, eqb. cbn [fst snd]. now rewrite !Qeq_bool_refl.
Qed.

Lemma set_value_target_id (c : Core) (v : num * num) :
  Value.target (value c) = v -> set_value_target v c = c.
Proof. intros <-. destruct c as [[] ? ? ? ? ? ?]. reflexivity. Qed.

Lemma set_value_current_id (c : Core) (v : num * num) :
  Value.current (value c) = v -> set_value_current v c = c.
Proof. intros <-. destruct c as [[] ? ? ? ? ? ?]. reflexivity. Qed.

Lemma set_offset_target_id (c : Core) (v : num * num) :
  Offset.target (offset c) = v -> set_offset_target v c = c.
Proof. intros <-. destruct c as [? [] ? ? ? ? ?]. reflexivity. Qed.

Lemma set_offset_current_id (c : Core) (v : num * num) :
  Offset.current (offset c) = v -> set_offset_current v c = c.
Proof. intros <-. destruct c as [? [] ? ? ? ? ?]. reflexivity. Qed.

Lemma set_offset_prev_id (c : Core) (v : num * num) :
  Offset.prev (offset c) = v -> set_offset_prev v c = c.
Proof. intros <-. destruct c as [? [] ? ? ? ? ?]. reflexivity. Qed.

Lemma set_core_id (d : t) (c : Core) : core d = Some c -> set_core c d = d.
Proof. intro H. destruct d. cbn in H. subst. reflexivity. Qed.

(** *** What depends on the frame only *)

Lemma alike_refl (d : t) (c : Core) : alike d c d c.
Proof. repeat split. Qed.

Lemma alike_trans (d d1 d2 : t) (c c1 c2 : Core) :
  alike d c d1 c1 -> alike d1 c1 d2 c2 -> alike d c d2 c2.
Proof.
  intros (H1 & H2 & H3 & H4 & H5) (K1 & K2 & K3 & K4 & K5).
  repeat split; congruence.
Qed.

Lemma alike_offsets (d d' : t) (c c' : Core) (g : num * num) :
  alike d c d' c' -> getOffsetsByRatios c' g = getOffsetsByRatios c g.
Proof.
  intros (_ & _ & _ & Hb & _). unfold getOffsetsByRatios. now rewrite Hb.
Qed.

Lemma alike_steps (d d' : t) (c c' : Core) (g : num * num) :
  alike d c d' c' ->
  getClosestSteps (options d') c' g = getClosestSteps (options d) c g.
Proof.
  intros (Ho & _ & _ & _ & Hs).
  unfold getClosestSteps, getClosestStep. now rewrite Ho, Hs.
Qed.

Lemma alike_proper (d d' : t) (c c' : Core) (v : num * num) :
  alike d c d' c' -> getProperValue d' c' v = getProperValue d c v.
Proof.
  intro H. pose proof H as (Ho & Hd & Ht & _ & _).
  unfold getProperValue. rewrite (alike_steps d d' c c' _ H).
  now rewrite Ho, Hd, Ht.
Qed.

Lemma alike_shownOffset (d d' : t) (c c' : Core) :
  alike d c d' c' -> Value.current (value c') = Value.current (value c) ->
  shownOffset d' c' = shownOffset d c.
Proof.
  intros H Hv. pose proof H as (Ho & _).
  unfold shownOffset. rewrite Hv, (alike_steps d d' c c' _ H), Ho.
  now rewrite !(alike_offsets d d' c c' _ H).
Qed.

Lemma alike_reported (d d' : t) (c c' : Core) :
  alike d c d' c' -> Value.current (value c') = Value.current (value c) ->
  reported d' c' = reported d c.
Proof.
  intros H Hv. pose proof H as (Ho & _).
  unfold reported. now rewrite Hv, (alike_steps d d' c c' _ H), Ho.
Qed.

(** *** Rendering commutes with what does not touch the style *)

Lemma render_emit (e : Event) (d : t) (c : Core) :
  renderHandlePosition (emit e d) c = emit e (renderHandlePosition d c).
Proof.
  unfold renderHandlePosition. cbn [options emit handleStyle].
  destruct (Opt.css3 (options d)); reflexivity.
Qed.

Lemma render_set_core (d : t) (c c' : Core) :
  renderHandlePosition (set_core c' d) c = set_core c' (renderHandlePosition d c).
Proof.
  unfold renderHandlePosition. cbn [options set_core handleStyle].
  destruct (Opt.css3 (options d)); reflexivity.
Qed.

Lemma render_offset (d : t) (c c' : Core) :
  Offset.current (offset c') = Offset.current (offset c) ->
  renderHandlePosition d c' = renderHandlePosition d c.
Proof.
  intro H. unfold renderHandlePosition. now rewrite H.
Qed.

Lemma render_twice (d : t) (c : Core) :
  renderHandlePosition (renderHandlePosition d c) c = renderHandlePosition d c.
Proof.
  unfold renderHandlePosition.
  destruct (Opt.css3 (options d)) eqn:E; cbn [options set_handleStyle handleStyle];
    rewrite E; cbn [fst snd];
    destruct (Opt.horizontal (options d)), (Opt.vertical (options d)); reflexivity.
Qed.

Lemma render_target_callback (d : t) (c c' : Core) :
  renderHandlePosition d c = d ->
  renderHandlePosition (callTargetCallback d c') c = callTargetCallback d c'.
Proof.
  intro H. unfold callTargetCallback.
  destruct (Opt.callback (options d)); [|exact H].
  now rewrite render_emit, H.
Qed.

Lemma shown_set_core (d : t) (c : Core) : shown d c -> shown (set_core c d) c.
Proof.
  intros [H1 H2].
  assert (E : shownOffset (set_core c d) c = shownOffset d c) by reflexivity.
  split; rewrite E; [exact H1|].
  destruct H2 as [H | [Ha Hb]]; [now left | right].
  split; [exact Ha|]. rewrite render_set_core. now f_equal.
Qed.

(** *** The steps of [setValue] on a core that is up to date *)

Lemma setTargetValue_again (v tg : num * num) (d : t) (c : Core) :
  getProperValue d c v = tg ->
  Value.target (value c) = tg ->
  Offset.target (offset c) = getOffsetsByRatios c tg ->
  setTargetValue v false d c = (callTargetCallback d c, c).
Proof.
  intros Hp Ht Ho. unfold setTargetValue. rewrite Hp.
  rewrite (set_value_target_id c tg Ht).
  now rewrite (set_offset_target_id c _ Ho).
Qed.

Lemma update_again (d : t) (c : Core) :
  shown d c -> updateOffsetFromValue d c = (d, c).
Proof.
  intros [Hc Hp]. unfold updateOffsetFromValue. fold (shownOffset d c).
  rewrite (set_offset_current_id c _ Hc).
  destruct (groupCompare (shownOffset d c) (Offset.prev (offset c))) eqn:E;
    cbn [negb].
  - reflexivity.
  - destruct Hp as [Hp | [Hp Hr]]; [discriminate Hp|].
    now rewrite Hr, (set_offset_prev_id c _ Hp).
Qed.

Lemma animation_again (d : t) (c : Core) :
  groupCompare (reported d c) (Value.prev (value c)) = true ->
  callAnimationCallback d c = (d, c).
Proof.
  intro H. unfold callAnimationCallback. fold (reported d c). now rewrite H.
Qed.

(** [setValue(x, y, true)] on an engine that already shows the pair. *)
Lemma setValue_again (d : t) (c : Core) (x y y' : Q) (tg : num * num) :
  core d = Some c ->
  or0 (Some y) = Some y' ->
  getProperValue d c (@pair num num (Some x) (Some y')) = tg ->
  Value.target (value c) = tg ->
  Value.current (value c) = tg ->
  Offset.target (offset c) = getOffsetsByRatios c tg ->
  shown d c ->
  groupCompare (reported d c) (Value.prev (value c)) = true ->
  setValue (Some x) (Some y) true d = Ok (callTargetCallback d c).
Proof.
  intros Hcore Hy Hp Ht Hc Ho [Hcur Hprev] Hv.
  assert (Ha : alike d c (callTargetCallback d c) c).
  { unfold callTargetCallback. destruct (Opt.callback (options d)); repeat split. }
  unfold setValue, withCore. rewrite Hcore, Hy.
  rewrite (setTargetValue_again _ tg d c Hp Ht Ho).
  rewrite (set_value_current_id c _ (eq_trans Hc (eq_sym Ht))).
  rewrite (update_again (callTargetCallback d c) c).
  - rewrite (animation_again (callTargetCallback d c) c).
    + f_equal. apply set_core_id. unfold callTargetCallback.
      now destruct (Opt.callback (options d)).
    + now rewrite (alike_reported d _ c c Ha eq_refl).
  - split; rewrite (alike_shownOffset d _ c c Ha eq_refl); [exact Hcur|].
    destruct Hprev as [H | [H1 H2]]; [now left | right].
    split; [exact H1 | now apply render_target_callback].
Qed.

(** *** What the steps of the first call establish *)

Lemma update_shown (d : t) (c : Core) :
  let r := updateOffsetFromValue d c in
  shown (fst r) (snd r) /\ alike d c (fst r) (snd r) /\
  value (snd r) = value c /\
  Offset.target (offset (snd r)) = Offset.target (offset c) /\
  core (fst r) = core d /\ log (fst r) = log d.
Proof.
  unfold updateOffsetFromValue. fold (shownOffset d c).
  destruct (groupCompare (shownOffset d c)
              (Offset.prev (offset (set_offset_current (shownOffset d c) c))))
    eqn:E; cbn [negb fst snd].
  - split.
    { split; [reflexivity|]. left. exact E. }
    repeat split.
  - assert (Ha : alike d c (renderHandlePosition d (set_offset_current (shownOffset d c) c))
                   (set_offset_prev (shownOffset d c)
                      (set_offset_current (shownOffset d c) c))).
    { unfold renderHandlePosition. destruct (Opt.css3 (options d)); repeat split. }
    split.
    { split.
      - rewrite (alike_shownOffset d _ c _ Ha eq_refl). reflexivity.
      - right. rewrite (alike_shownOffset d _ c _ Ha eq_refl).
        split; [reflexivity|].
        rewrite (render_offset _ (set_offset_current (shownOffset d c) c))
          by reflexivity.
        apply render_twice. }
    split; [exact Ha|].
    unfold renderHandlePosition. destruct (Opt.css3 (options d)); repeat split.
Qed.

Lemma animation_reported (d : t) (c : Core) (vx vy : Q) :
  reported d c = @pair num num (Some vx) (Some vy) ->
  let r := callAnimationCallback d c in
  groupCompare (reported (fst r) (snd r)) (Value.prev (value (snd r))) = true /\
  alike d c (fst r) (snd r) /\
  offset (snd r) = offset c /\
  Value.target (value (snd r)) = Value.target (value c) /\
  Value.current (value (snd r)) = Value.current (value c) /\
  core (fst r) = core d /\
  (renderHandlePosition d c = d ->
   renderHandlePosition (fst r) (snd r) = fst r).
Proof.
  intro Hv. unfold callAnimationCallback. fold (reported d c).
  destruct (groupCompare (reported d c) (Value.prev (value c))) eqn:E;
    cbn [negb fst snd].
  - split; [exact E|]. split; [apply alike_refl|]. repeat split. tauto.
  - assert (Ha : alike d c
                   (if Opt.animationCallback (options d)
                    then emit (AnimationCallback (fst (reported d c))
                                                 (snd (reported d c))) d
                    else d)
                   (set_value_prev (reported d c) c)).
    { destruct (Opt.animationCallback (options d)); repeat split. }
    split.
    { rewrite (alike_reported d _ c _ Ha eq_refl). cbn [Value.prev value set_value_prev
        set_value]. rewrite Hv. apply groupCompare_refl. }
    split; [exact Ha|].
    split; [reflexivity|]. split; [reflexivity|]. split; [reflexivity|].
    split; [now destruct (Opt.animationCallback (options d))|].
    intro Hr.
    rewrite (render_offset _ c) by reflexivity.
    destruct (Opt.animationCallback (options d)); [|exact Hr].
    now rewrite render_emit, Hr.
Qed.

(** The value the animation callback reports is finite on an
    initialised engine whose current value is its settled target. *)
Lemma reported_finite (d : t) (c : Core) (x y tx ty : Q) :
  stepRatios c = calculateStepRatios (options d) ->
  settled (stepping d) (stepRatios c) x tx ->
  settled (stepping d) (stepRatios c) y ty ->
  exists vx vy,
    (if Opt.snap (options d) && (1 <? Opt.steps (options d))%Z
     then getClosestSteps (options d) c (@pair num num (Some tx) (Some ty))
     else @pair num num (Some tx) (Some ty))
    = @pair num num (Some vx) (Some vy).
Proof.
  intros Htab Hsx Hsy.
  destruct (Opt.snap (options d)) eqn:Es; cbn [andb]; [|now exists tx, ty].
  destruct (Z.ltb_spec 1 (Opt.steps (options d))) as [HN|HN]; [|now exists tx, ty].
  assert (Hst : stepping d) by (split; [exact HN | now right]).
  destruct Hsx as (cx & _ & Hkx & _). destruct (Hkx Hst) as (kx & Hnx & _).
  destruct Hsy as (cy & _ & Hky & _). destruct (Hky Hst) as (ky & Hny & _).
  assert (Hlen : Z.to_nat (Opt.steps (options d)) = length (stepRatios c)).
  { rewrite Htab, StepTable.table_length; [reflexivity | lia]. }
  destruct (Positioning.closest_steps_of_steps (options d) c kx ky tx ty Hlen Hnx Hny)
    as (rx & ry & Hr & _). now exists rx, ry.
Qed.

(** X4.  [setValue(x, y, true)] called a second time with the same
    finite pair on an initialised engine changes nothing, except that
    the target callback, if there is one, is called again with the same
    target: no second animation callback, and the handle is not moved. *)
Theorem setValue_twice (d : t) (c : Core) (x y : Q) :
  initialised d c ->
  exists d1 tx ty,
    setValue (Some x) (Some y) true d = Ok d1 /\
    getValue d1 = Some (Some tx, Some ty) /\
    setValue (Some x) (Some y) true d1
    = Ok (if Opt.callback (options d)
          then emit (Callback (Some tx) (Some ty)) d1 else d1).
Proof.
  intros [Hcore Htab].
  destruct (Positioning.or0_finite y) as (y' & Hy' & Ey).
  destruct (Settling.getProperValue_settled d c x y' Htab) as (tx & ty & Hp & Hsx & Hsy).
  destruct (reported_finite d c x y' tx ty Htab Hsx Hsy) as (vx & vy & Hv).
  unfold setValue at 1. unfold withCore. rewrite Hcore, Hy'.
  unfold setTargetValue. cbv beta iota zeta. rewrite Hp.
  set (tg := @pair num num (Some tx) (Some ty)) in *.
  set (c0 := set_value_target tg c).
  set (c1 := set_offset_target (getOffsetsByRatios c0 tg) c0).
  set (c2 := set_value_current (Value.target (value c1)) c1).
  set (d1 := callTargetCallback d c1).
  assert (Ha1 : alike d c d1 c2).
  { unfold d1, callTargetCallback. destruct (Opt.callback (options d)); repeat split. }
  assert (Hcore1 : core d1 = Some c).
  { unfold d1, callTargetCallback. now destruct (Opt.callback (options d)). }
  destruct (update_shown d1 c2) as (Hsh & Ha2 & Hval & Hot & Hcore2 & _).
  destruct (updateOffsetFromValue d1 c2) as [d2 c3].
  cbn [fst snd] in Hsh, Ha2, Hval, Hot, Hcore2.
  assert (Hv2 : reported d1 c2 = @pair num num (Some vx) (Some vy)).
  { unfold reported. change (Value.current (value c2)) with tg.
    rewrite (alike_steps d d1 c c2 _ Ha1), (proj1 Ha1). exact Hv. }
  assert (Hv3 : reported d2 c3 = @pair num num (Some vx) (Some vy)).
  { rewrite (alike_reported d1 d2 c2 c3 Ha2); [exact Hv2 | now rewrite Hval]. }
  destruct (animation_reported d2 c3 vx vy Hv3)
    as (Hrep & Ha3 & Hoff & Htg4 & Hcu4 & Hcore3 & Hrend).
  destruct (callAnimationCallback d2 c3) as [d3 c4].
  cbn [fst snd] in Hrep, Ha3, Hoff, Htg4, Hcu4, Hcore3, Hrend.
  set (dF := set_core c4 d3).
  assert (Ha4 : alike d3 c4 dF c4) by (repeat split).
  assert (HaF : alike d c dF c4).
  { apply (alike_trans _ d3 _ _ c4); [|exact Ha4].
    apply (alike_trans _ d2 _ _ c3); [|exact Ha3].
    apply (alike_trans _ d1 _ _ c2); assumption. }
  assert (Htg : Value.target (value c4) = tg) by (rewrite Htg4, Hval; reflexivity).
  assert (Hcu : Value.current (value c4) = tg) by (rewrite Hcu4, Hval; reflexivity).
  exists dF, tx, ty. split; [reflexivity|].
  split; [unfold getValue; cbn [core dF set_core]; now rewrite Htg|].
  rewrite (setValue_again dF c4 x y y' tg).
  - f_equal. unfold callTargetCallback. rewrite (proj1 HaF), Htg. reflexivity.
  - reflexivity.
  - exact Hy'.
  - rewrite (alike_proper d dF c c4 _ HaF). exact Hp.
  - exact Htg.
  - exact Hcu.
  - rewrite Hoff, Hot, (alike_offsets d dF c c4 _ HaF). reflexivity.
  - destruct Hsh as [Hs1 Hs2].
    assert (E : shownOffset dF c4 = shownOffset d2 c3).
    { apply (alike_shownOffset d2 dF c3 c4).
      - now apply (alike_trans _ d3 _ _ c4).
      - exact Hcu4. }
    split; rewrite E, Hoff; [exact Hs1|].
    destruct Hs2 as [H | [H1 H2]]; [now left | right].
    split; [exact H1|].
    unfold dF. rewrite render_set_core. f_equal. now apply Hrend.
  - rewrite (alike_reported d3 dF c4 c4 Ha4 eq_refl). exact Hrep.
Qed.

(** The sample slider with three steps and all four callbacks: the second
    [setValue(2/5, 0, true)] only repeats the target callback. *)
Lemma setValue_twice_witness :
  let o := Samples.withCallbacks (Samples.withSteps 3 false false) in
  exists d1 tx ty,
    setValue (Some (2 # 5)) (Some 0) true (Samples.engine o) = Ok d1 /\
    getValue d1 = Some (Some tx, Some ty) /\
    setValue (Some (2 # 5)) (Some 0) true d1
    = Ok (emit (Callback (Some tx) (Some ty)) d1).
Proof.
  intro o. set (d := Samples.engine o).
  destruct (core d) as [c|] eqn:E; [|vm_compute in E; discriminate E].
  assert (Htable : stepRatios c = calculateStepRatios (options d))
    by (vm_compute in E; injection E as <-; vm_compute; reflexivity).
  assert (Hcb : Opt.callback (options d) = true) by (vm_compute; reflexivity).
  destruct (setValue_twice d c (2 # 5) 0 (conj E Htable))
    as (d1 & tx & ty & H1 & H2 & H3).
  rewrite Hcb in H3.
  exists d1, tx, ty. split; [exact H1|]. split; [exact H2 | exact H3].
Defined.

End Repeating.

(** ** Pointer events *)

Module PointerEvents.

Import Dragdealer Vocabulary.
Local Open Scope Q_scope.

Lemma set_activity_id (d : t) : set_activity (activity d) d = d.
Proof. destruct d. reflexivity. Qed.

Lemma refreshed_ok (s : Scroll) (e : PointerEvent) (cur : Cursor) (d : t)
    (k : Cursor -> outcome Handled) :
  e <> Touch [] ->
  exists cur', Cursor_refresh s e cur = Ok cur' /\ refreshed s e cur d k = k cur'.
Proof.
  intro H. unfold refreshed. destruct e as [p|p|[|p l]]; cbn.
  - eexists. split; reflexivity.
  - eexists. split; reflexivity.
  - contradiction.
  - eexists. split; reflexivity.
Qed.

(** One pointer event on a disabled engine that is not being dragged. *)
Lemma disabled_pointer (s : Scroll) (dom : Dom) (e : Pointer) (cur : Cursor)
    (d : t) (c : Core) (b : bool) :
  core d = Some c -> disabled d = true -> dragging d = false ->
  touched e ->
  exists h b',
    pointer s dom e cur (set_activity b d) = Ok h /\
    engineAfter h = set_activity b' d.
Proof.
  intros Hc Hdis Hdrag Ht.
  destruct e as [e|e|p|e|e| |]; cbn [pointer touched] in *.
  - unfold onHandleMouseDown.
    destruct (refreshed_ok s e cur (set_activity b d)
                (fun cur => handled cur true true
                   (startDrag cur dom (set_activity false (set_activity b d)))) Ht)
      as (cur' & _ & ->).
    unfold startDrag. cbn [disabled set_activity]. rewrite Hdis. cbn [handled].
    eexists _, false. split; reflexivity.
  - unfold onHandleTouchStart.
    destruct (refreshed_ok s e cur (set_activity b d)
                (fun cur => handled cur false true
                   (startDrag cur dom (set_activity false (set_activity b d)))) Ht)
      as (cur' & _ & ->).
    unfold startDrag. cbn [disabled set_activity]. rewrite Hdis. cbn [handled].
    eexists _, false. split; reflexivity.
  - unfold onDocumentMouseMove. cbn [core set_activity]. rewrite Hc.
    destruct (_ && _).
    + eexists _, b. split; reflexivity.
    + cbn [refreshed Cursor_refresh dragging set_activity]. rewrite Hdrag.
      eexists _, b. split; reflexivity.
  - unfold onWrapperTouchMove.
    destruct (refreshed_ok s e cur (set_activity b d)
                (fun cur =>
                   if negb (activity (set_activity b d))
                      && draggingOnDisabledAxis cur (set_activity b d)
                   then if dragging (set_activity b d)
                        then handled cur false false (stopDrag cur (set_activity b d))
                        else handled cur false false (Ok (set_activity b d))
                   else handled cur true false
                          (Ok (set_activity true (set_activity b d)))) Ht)
      as (cur' & _ & ->).
    cbn [dragging set_activity]. rewrite Hdrag.
    destruct (_ && _).
    + eexists _, b. split; reflexivity.
    + eexists _, true. split; reflexivity.
  - unfold onWrapperMouseDown.
    destruct (refreshed_ok s e cur (set_activity b d)
                (fun cur => handled cur true false
                   (startTap cur dom (set_activity b d))) Ht)
      as (cur' & _ & ->).
    unfold startTap. cbn [disabled set_activity]. rewrite Hdis. cbn [orb handled].
    eexists _, b. split; reflexivity.
  - unfold onDocumentMouseUp, stopDrag, stopTap.
    cbn [disabled set_activity]. rewrite Hdis. cbn [orb bind].
    cbn [disabled set_activity]. rewrite Hdis. cbn [orb handled].
    eexists _, b. split; reflexivity.
  - unfold onHandleClick. destruct (activity (set_activity b d)); cbn [handled];
      eexists _, b; split; reflexivity.
Qed.

(** X5.  A disabled engine that is not being dragged does not react to
    pointer events: whatever sequence of mouse and touch events reaches
    its handlers, they all complete, and the engine is as before, its
    value, offsets, classes and callback log included, except for the
    flag that tells [onHandleClick] whether to cancel a click. *)
Theorem disabled_ignores_pointers (s : Scroll) (dom : Dom) (es : list Pointer)
    (cur : Cursor) (d : t) (c : Core) :
  core d = Some c -> disabled d = true -> dragging d = false ->
  Forall touched es ->
  exists cur' b,
    pointers s dom es cur d = Ok (cur', set_activity b d).
Proof.
  intros Hc Hdis Hdrag Hes.
  assert (G : forall cur b, exists cur' b',
              pointers s dom es cur (set_activity b d) = Ok (cur', set_activity b' d)).
  { induction Hes as [|e es He _ IH]; intros cur0 b.
    - exists cur0, b. reflexivity.
    - destruct (disabled_pointer s dom e cur0 d c b Hc Hdis Hdrag He)
        as (h & b' & Hp & Hh).
      cbn [pointers]. rewrite Hp, Hh. apply IH. }
  specialize (G cur (activity d)). now rewrite set_activity_id in G.
Qed.

(** Mouse down, a touch move and a click on a disabled sample slider. *)
Lemma disabled_ignores_pointers_witness :
  let d := state_of (disable (Samples.engine Opt.defaults)) in
  exists cur' b,
    pointers Samples.unscrolled Samples.slider
      [HandleDown (MouseOther (Samples.pointAt 10 5));
       WrapperTouchMove (Touch [Samples.pointAt 30 5]);
       DocumentUp; HandleClick]
      Samples.cursor0 d
    = Ok (cur', set_activity b d).
Proof.
  intro d.
  destruct (core d) as [c|] eqn:E; [|vm_compute in E; discriminate E].
  apply (disabled_ignores_pointers _ _ _ _ d c E).
  - vm_compute. reflexivity.
  - vm_compute. reflexivity.
  - repeat constructor; discriminate.
Defined.

(** *** A drag from mouse down to click *)

Lemma targeted (v : num * num) (loose : bool) (d : t) (c : Core) :
  let r := setTargetValue v loose d c in
  activity (fst r) = activity d /\ dragging (fst r) = dragging d /\
  tapping (fst r) = tapping d /\ disabled (fst r) = disabled d /\
  options (fst r) = options d.
Proof.
  unfold setTargetValue, callTargetCallback. cbn [fst].
  destruct (Opt.callback (options d)); repeat split.
Qed.


Lemma stopDrag_stopped (cur : Cursor) (d : t) (c : Core) :
  core d = Some c -> disabled d = false -> dragging d = true ->
  exists d' c',
    stopDrag cur d = Ok d' /\ core d' = Some c' /\
    dragging d' = false /\ activity d' = activity d /\
    tapping d' = tapping d /\ disabled d' = false.
Proof.
  intros Hc Hdis Hdrag. unfold stopDrag, withCore. rewrite Hdis, Hdrag.
  cbn [orb negb core set_dragging]. rewrite Hc.
  match goal with
  | |- context [setTargetValue ?v false ?d0 c] =>
      pose proof (targeted v false d0 c) as (Ha & Hg & Ht & Hd & Ho);
      destruct (setTargetValue v false d0 c) as [d1 c1]
  end.
  cbn [fst] in Ha, Hg, Ht, Hd, Ho. unfold callDragStopCallback.
  cbn [options set_wrapperActive].
  destruct (Opt.dragStopCallback (options d1));
    eexists _, _; (split; [reflexivity|]); cbn;
    (split; [reflexivity|]); repeat split; cbn in *; congruence.
Qed.




(** *** The first touch move of a drag *)

(** X7.  On an enabled, initialised slider that moves horizontally only,
    the first touch move of a drag (no activity yet) that went farther
    down or up than sideways ends the drag and leaves the default action
    (scrolling the page) alone; any other first touch move is taken for
    the drag: its default is prevented, and the drag goes on.  A touch
    event without a touch raises a TypeError. *)
Theorem touch_move_axis (s : Scroll) (p : Point) (rest : list Point)
    (cur : Cursor) (d : t) (c : Core) :
  core d = Some c -> disabled d = false ->
  dragging d = true -> activity d = false ->
  Opt.horizontal (options d) = true -> Opt.vertical (options d) = false ->
  let cur' := Cursor_set s p cur in
  exists h,
    onWrapperTouchMove s (Touch (p :: rest)) cur d = Ok h /\
    cursorAfter h = cur' /\
    (Qabs (cx cur' - cx cur) < Qabs (cy cur' - cy cur) ->
     dragging (engineAfter h) = false /\ activity (engineAfter h) = false /\
     defaultPrevented h = false) /\
    (Qabs (cy cur' - cy cur) <= Qabs (cx cur' - cx cur) ->
     engineAfter h = set_activity true d /\ defaultPrevented h = true) /\
    throws (onWrapperTouchMove s (Touch []) cur d) = true.
Proof.
  intros Hc Hdis Hg Ha Hh Hv cur'.
  unfold onWrapperTouchMove. cbn [refreshed Cursor_refresh]. fold cur'.
  rewrite Ha, Hg. cbn [negb andb]. unfold draggingOnDisabledAxis.
  rewrite Hh, Hv. cbn [negb andb orb].
  assert (Ex : xDiff cur' = Qabs (cx cur' - cx cur)).
  { unfold cur', Cursor_set.
    destruct (qtruthy (clientX p) || qtruthy (clientY p)); [reflexivity|].
    destruct (qtruthy (pageX p) || qtruthy (pageY p)); reflexivity. }
  assert (Ey : yDiff cur' = Qabs (cy cur' - cy cur)).
  { unfold cur', Cursor_set.
    destruct (qtruthy (clientX p) || qtruthy (clientY p)); [reflexivity|].
    destruct (qtruthy (pageX p) || qtruthy (pageY p)); reflexivity. }
  rewrite Ex, Ey.
  destruct (Qle_bool (Qabs (cy cur' - cy cur)) (Qabs (cx cur' - cx cur))) eqn:E;
    cbn [negb].
  - apply Qle_bool_iff in E. eexists. split; [reflexivity|].
    split; [reflexivity|]. split; [intro H; lra|].
    split; [intros _; split; reflexivity | reflexivity].
  - apply Settling.Qle_bool_false in E.
    destruct (stopDrag_stopped cur' d c Hc Hdis Hg)
      as (d2 & c2 & H2 & _ & Hg2 & Ha2 & _ & _).
    rewrite H2. cbn [handled]. eexists. split; [reflexivity|].
    split; [reflexivity|]. cbn [engineAfter defaultPrevented].
    split; [intros _; repeat split; congruence|].
    split; [intro H; lra | reflexivity].
Qed.

(** A drag on the sample slider, the finger going 3 pixels sideways and
    20 down: the drag is over. *)
Lemma touch_move_axis_witness :
  let d := state_of (startDrag (Samples.cursorAt 10) Samples.slider
                       (Samples.engine Opt.defaults)) in
  exists h,
    onWrapperTouchMove Samples.unscrolled (Touch [Samples.pointAt 13 20])
      (Samples.cursorAt 10) d = Ok h /\
    dragging (engineAfter h) = false /\ defaultPrevented h = false.
Proof.
  intro d.
  destruct (core d) as [c|] eqn:E; [|vm_compute in E; discriminate E].
  assert (H1 : disabled d = false) by (vm_compute; reflexivity).
  assert (H2 : dragging d = true) by (vm_compute; reflexivity).
  assert (H3 : activity d = false) by (vm_compute; reflexivity).
  assert (H4 : Opt.horizontal (options d) = true) by (vm_compute; reflexivity).
  assert (H5 : Opt.vertical (options d) = false) by (vm_compute; reflexivity).
  destruct (touch_move_axis Samples.unscrolled (Samples.pointAt 13 20) []
              (Samples.cursorAt 10) d c E H1 H2 H3 H4 H5)
    as (h & Hh & _ & Hdown & _).
  exists h. split; [exact Hh|].
  assert (Hfar : Qabs (cx (Cursor_set Samples.unscrolled (Samples.pointAt 13 20)
                             (Samples.cursorAt 10)) - cx (Samples.cursorAt 10))
                 < Qabs (cy (Cursor_set Samples.unscrolled (Samples.pointAt 13 20)
                               (Samples.cursorAt 10)) - cy (Samples.cursorAt 10)))
    by (vm_compute; reflexivity).
  destruct (Hdown Hfar) as (Hd & _ & Hp). split; assumption.
Defined.

End PointerEvents.

(** ** Dragging the handle *)

Module Dragging.

Import Dragdealer Vocabulary.
Local Open Scope Q_scope.

Lemma qtruthy_zero (q : Q) : q == 0 -> qtruthy q = false.
Proof.
  intro H. unfold qtruthy. apply Qeq_bool_iff in H. now rewrite H.
Qed.

(** The offset of the clamped ratio of a requested offset. *)
Lemma clamped_pixel_tracks (off range padding r t : Q) :
  getRatioByOffset (Some off) range padding = Some r ->
  is_clamp r t ->
  tracks off range padding (pixel t range padding).
Proof.
  intros Hr (Hlo & Hmid & Hhi). unfold getRatioByOffset in Hr. split.
  - intro H0. rewrite (qtruthy_zero range H0) in Hr. injection Hr as <-.
    assert (Et : t == 0) by (apply Hmid; lra).
    unfold pixel.
    assert (E : Qfloor (t * range + (1 # 2)) = 0%Z).
    { apply (PixelRatio.qround_whole 0 (t * range)). rewrite H0. ring. }
    rewrite E. ring.
  - intros Hn k Hk. rewrite (PixelRatio.qtruthy_nonzero range Hn) in Hr.
    cbn in Hr. injection Hr as <-.
    assert (Er : (off - padding) / range == inject_Z k / range).
    { rewrite Hk. field. exact Hn. }
    split; [|split]; intro H.
    + assert (Et : t == inject_Z k / range).
      { rewrite <- Er. apply Hmid. now rewrite Er. }
      unfold pixel.
      assert (E : Qfloor (t * range + (1 # 2)) = k).
      { apply (PixelRatio.qround_whole k (t * range)). rewrite Et. field. exact Hn. }
      rewrite E, Hk. ring.
    + assert (Et : t == 0) by (apply Hlo; now rewrite Er).
      unfold pixel.
      assert (E : Qfloor (t * range + (1 # 2)) = 0%Z).
      { apply (PixelRatio.qround_whole 0 (t * range)). rewrite Et. ring. }
      rewrite E. ring.
    + assert (Et : t == 1) by (apply Hhi; now rewrite Er).
      now rewrite (Positioning.pixel_compat t 1).
Qed.



End Dragging.

(** ** Reflow *)

Module Reflowing.

Import Dragdealer Vocabulary.
Local Open Scope Q_scope.



End Reflowing.

(** ** Buttons of the navigation object *)

Module NaviButtons.

Lemma indexFrom_nth (l : list Navi.Elem) :
  forall (k : nat) (i : Z) (b : Navi.Elem),
    NoDup l -> nth_error l k = Some b ->
    Navi.indexFrom i l b = i + Z.of_nat k.
Proof.
  induction l as [|e l IH]; intros k i b Hnd Hk.
  - destruct k; discriminate Hk.
  - inversion Hnd as [|? ? Hnot Hnd']; subst. destruct k as [|k]; cbn in Hk |- *.
    + injection Hk as ->. rewrite Nat.eqb_refl. lia.
    + destruct (Nat.eqb_spec e b) as [->|_].
      * exfalso. apply Hnot. eapply nth_error_In. exact Hk.
      * rewrite (IH k (i + 1) b Hnd' Hk). lia.
Qed.

Lemma indexFrom_absent (l : list Navi.Elem) :
  forall (i : Z) (b : Navi.Elem), ~ In b l -> Navi.indexFrom i l b = -1.
Proof.
  induction l as [|e l IH]; intros i b Hb; cbn; [reflexivity|].
  destruct (Nat.eqb_spec e b) as [->|_].
  - exfalso. apply Hb. now left.
  - apply IH. intro H. apply Hb. now right.
Qed.

Lemma getBtn_of_index (n : Navi.t) (b : Navi.Elem) :
  NoDup (Navi.btns n) -> In b (Navi.btns n) ->
  Navi.getBtn (Navi.index (Navi.btns n) b + 1) n = Some b.
Proof.
  intros Hnd Hb. apply In_nth_error in Hb. destruct Hb as [k Hk].
  assert (Hlt : (k < length (Navi.btns n))%nat)
    by (apply nth_error_Some; congruence).
  unfold Navi.index. rewrite (indexFrom_nth _ k 0 b Hnd Hk).
  unfold Navi.getBtn.
  destruct (Z.ltb_spec (0 + Z.of_nat k + 1 - 1) 0); [lia|].
  destruct (Z.leb_spec (Z.of_nat (length (Navi.btns n))) (0 + Z.of_nat k + 1 - 1));
    [lia|].
  cbn [orb]. replace (Z.to_nat (0 + Z.of_nat k + 1 - 1)) with k by lia. exact Hk.
Qed.

(** X10.  [getBtn(i)] and the index the handlers compute,
    [$(btns).index(btn) + 1], are inverse to each other on the buttons
    (distinct elements): for [i] from 1 to the number of buttons
    [getBtn(i)] is a button whose index is [i]; for any other [i] it is
    [null]; and an element that is no button has index 0. *)
Theorem getBtn_index (n : Navi.t) :
  NoDup (Navi.btns n) ->
  let N := Z.of_nat (length (Navi.btns n)) in
  (forall i, 1 <= i <= N ->
     exists b, Navi.getBtn i n = Some b /\ In b (Navi.btns n) /\
               Navi.index (Navi.btns n) b + 1 = i) /\
  (forall i, ~ 1 <= i <= N -> Navi.getBtn i n = None) /\
  (forall b, In b (Navi.btns n) ->
     Navi.getBtn (Navi.index (Navi.btns n) b + 1) n = Some b) /\
  (forall b, ~ In b (Navi.btns n) -> Navi.index (Navi.btns n) b + 1 = 0).
Proof.
  intros Hnd N. split; [|split; [|split]].
  - intros i Hi. unfold Navi.getBtn.
    destruct (Z.ltb_spec (i - 1) 0); [lia|].
    destruct (Z.leb_spec (Z.of_nat (length (Navi.btns n))) (i - 1)); [lia|].
    cbn [orb].
    destruct (nth_error (Navi.btns n) (Z.to_nat (i - 1))) as [b|] eqn:E.
    + exists b. split; [reflexivity|]. split; [eapply nth_error_In; exact E|].
      unfold Navi.index. rewrite (indexFrom_nth _ _ 0 b Hnd E). lia.
    + apply nth_error_None in E. lia.
  - intros i Hi. unfold Navi.getBtn.
    destruct (Z.ltb_spec (i - 1) 0); [reflexivity|].
    destruct (Z.leb_spec (Z.of_nat (length (Navi.btns n))) (i - 1)); [reflexivity|].
    lia.
  - intros b Hb. apply getBtn_of_index; assumption.
  - intros b Hb. unfold Navi.index. rewrite (indexFrom_absent _ 0 b Hb). lia.
Qed.

Lemma getBtn_index_witness :
  let n := Navi.create
             {| Navi.o_btns := [7; 8; 9]%nat;
                Navi.o_mouseoverCallback := false; Navi.o_mouseoutCallback := false;
                Navi.o_mousedownCallback := false; Navi.o_mouseupCallback := false;
                Navi.o_clickCallback := true; Navi.o_activateCallback := true |} in
  Navi.getBtn 2 n = Some 8%nat /\ Navi.index (Navi.btns n) 8%nat + 1 = 2.
Proof.
  intro n.
  assert (Hnd : NoDup (Navi.btns n)).
  { repeat constructor; cbn; intuition discriminate. }
  destruct (getBtn_index n Hnd) as (H & _).
  destruct (H 2) as (b & Hb & _ & Hi); [vm_compute; split; discriminate|].
  assert (E : b = 8%nat) by (vm_compute in Hb; congruence).
  subst b. split; assumption.
Defined.

Lemma init_binds (n : Navi.t) (b : Navi.Elem) :
  In b (Navi.btns n) -> Navi.hasHandler (Navi.init n) b = true.
Proof.
  intro Hb. unfold Navi.hasHandler, Navi.init, Navi.setBtnsEventHandler.
  cbn [Navi.handlers Navi.set_handlers]. apply existsb_exists.
  exists b. split; [apply in_or_app; now right | apply Nat.eqb_refl].
Qed.

(** X11.  After [init()], a click on button number [i + 1] (the buttons
    being distinct elements) calls the click callback and then the
    activate callback, whichever are given, each with the active index
    of before as [prevIndex] and with [i + 1] as [index], and only then
    stores [i + 1] as the current and the active index; after
    [destroy()] the same click reaches no handler. *)
Theorem click_sets_index (n : Navi.t) (i : nat) (b : Navi.Elem) :
  NoDup (Navi.btns n) -> nth_error (Navi.btns n) i = Some b ->
  let n1 := Navi.init n in
  let idx := Z.of_nat i + 1 in
  fst (Navi.click b n1)
  = (if Navi.clickCallback n
     then [ {| Navi.call := Navi.ClickCall (Navi.activateIndex n) idx;
               Navi.activatedThen := Navi.activateIndex n |} ]
     else [])
    ++ (if Navi.activateCallback n
        then [ {| Navi.call := Navi.ActivateCall (Navi.activateIndex n) idx;
                  Navi.activatedThen := Navi.activateIndex n |} ]
        else []) /\
  Navi.activateIndex (snd (Navi.click b n1)) = idx /\
  Navi.currentIndex (snd (Navi.click b n1)) = idx /\
  Navi.btns (snd (Navi.click b n1)) = Navi.btns n /\
  Navi.click b (Navi.destroy n1) = ([], Navi.destroy n1).
Proof.
  intros Hnd Hi. cbv zeta.
  assert (Hin : In b (Navi.btns n)) by (eapply nth_error_In; exact Hi).
  assert (Hidx : Navi.index (Navi.btns (Navi.init n)) b + 1 = Z.of_nat i + 1).
  { unfold Navi.index. change (Navi.btns (Navi.init n)) with (Navi.btns n).
    rewrite (indexFrom_nth _ i 0 b Hnd Hi). lia. }
  unfold Navi.click. rewrite (init_binds n b Hin).
  unfold Navi.clickBtnEventHandler. rewrite Hidx. cbn [fst snd].
  split; [reflexivity|]. split; [reflexivity|]. split; [reflexivity|].
  split; [reflexivity|].
  rewrite (NaviProps.destroy_unbinds (Navi.init n) b Hin). reflexivity.
Qed.

Lemma click_sets_index_witness :
  let n := Navi.create
             {| Navi.o_btns := [7; 8; 9]%nat;
                Navi.o_mouseoverCallback := false; Navi.o_mouseoutCallback := false;
                Navi.o_mousedownCallback := false; Navi.o_mouseupCallback := false;
                Navi.o_clickCallback := true; Navi.o_activateCallback := false |} in
  fst (Navi.click 9%nat (Navi.init n))
  = [ {| Navi.call := Navi.ClickCall 0 3; Navi.activatedThen := 0 |} ] /\
  Navi.activateIndex (snd (Navi.click 9%nat (Navi.init n))) = 3.
Proof.
  intro n.
  assert (Hnd : NoDup (Navi.btns n)).
  { repeat constructor; cbn; intuition discriminate. }
  destruct (click_sets_index n 2 9%nat Hnd eq_refl) as (H1 & H2 & _).
  split; [exact H1 | exact H2].
Defined.

End NaviButtons.

(** ** Setting up the slide navigator *)

Module SlideSetup.

Module HSN := HorizontalSlideNavi.
Import Dragdealer Vocabulary.
Local Open Scope Q_scope.

(** What [updateOffsetFromValue] and [callAnimationCallback] leave
    alone. *)
Lemma update_switches (d : t) (c : Core) :
  let r := updateOffsetFromValue d c in
  disabled (fst r) = disabled d /\ handle (fst r) = handle d /\
  tapping (fst r) = tapping d /\ handleDisabled (fst r) = handleDisabled d /\
  dragging (fst r) = dragging d.
Proof.
  unfold updateOffsetFromValue, renderHandlePosition.
  destruct (negb (groupCompare _ _)); cbn [fst]; [|repeat split].
  destruct (Opt.css3 (options d)); repeat split.
Qed.

Lemma animation_switches (d : t) (c : Core) :
  let r := callAnimationCallback d c in
  disabled (fst r) = disabled d /\ handle (fst r) = handle d /\
  tapping (fst r) = tapping d /\ handleDisabled (fst r) = handleDisabled d /\
  dragging (fst r) = dragging d.
Proof.
  unfold callAnimationCallback.
  destruct (negb (groupCompare _ _)); cbn [fst]; [|repeat split].
  destruct (Opt.animationCallback (options d)); repeat split.
Qed.

Lemma rendered_switches (d : t) (c : Core) :
  let r := (let '(d1, c1) := updateOffsetFromValue d c in
            callAnimationCallback d1 c1) in
  disabled (fst r) = disabled d /\ handle (fst r) = handle d /\
  tapping (fst r) = tapping d /\ handleDisabled (fst r) = handleDisabled d /\
  Value.target (value (snd r)) = Value.target (value c).
Proof.
  pose proof (update_switches d c) as (H1 & H2 & H3 & H4 & _).
  pose proof (Positioning.update_offset_result d c) as (_ & Hv & _).
  destruct (updateOffsetFromValue d c) as [d1 c1]. cbn [fst snd] in *.
  pose proof (animation_switches d1 c1) as (K1 & K2 & K3 & K4 & _).
  pose proof (Positioning.animation_callback_result d1 c1) as (_ & Ht).
  destruct (callAnimationCallback d1 c1) as [d2 c2]. cbn [fst snd] in *.
  repeat split; congruence.
Qed.

Lemma glide_target (d : t) (c : Core) :
  Value.target (value (snd (glide d c))) = Value.target (value c).
Proof.
  unfold glide. destruct (_ && _); [reflexivity|]. now destruct (_ || _).
Qed.

(** Construction on a wrapper with its handle, in detail. *)
Lemma create_found (o : Opt.t) (cur : Cursor) (dom : Dom) :
  exists d c,
    create o true true cur dom = Ok d /\ initialised d c /\
    options d = o /\ handle d = true /\ disabled d = Opt.disabled o /\
    dragging d = false /\ tapping d = false /\
    Value.target (value c) = (or0 (Some (Opt.x o)), or0 (Some (Opt.y o))).
Proof.
  destruct (Initialised.create_initialised o cur dom)
    as (d & c & Hcr & Hi & Ho & _ & Hg).
  exists d, c. split; [exact Hcr|]. split; [exact Hi|]. split; [exact Ho|].
  revert Hcr. unfold create. cbn [negb]. unfold init.
  set (c0 := Build_Core _ _ _ _ _ _ _).
  set (d1 := set_tapping false _).
  unfold reflow, withCore. cbn [core d1 set_tapping set_dragging set_activity set_core].
  match goal with
  | |- context [updateOffsetFromValue ?dd ?cc] =>
      pose proof (update_switches dd cc) as (H1 & H2 & H3 & H4 & H5);
      pose proof (Positioning.update_offset_result dd cc) as (_ & Hv & Hopt);
      destruct (updateOffsetFromValue dd cc) as [d2 c2]
  end.
  cbn [fst snd bind] in *.
  change (options (set_elements true true (set_elements true false (blank o))))
    with o.
  assert (G : forall d3, disabled d3 = Opt.disabled o -> handle d3 = true ->
                         tapping d3 = false -> dragging d3 = false ->
                         core d3 = Some c2 ->
                         bindEventListeners cur d3 = Ok d ->
                         handle d = true /\ disabled d = Opt.disabled o /\
                         dragging d = false /\ tapping d = false /\
                         Value.target (value c)
                         = (or0 (Some (Opt.x o)), or0 (Some (Opt.y o)))).
  { intros d3 Hd3 Hh3 Ht3 Hg3 Hc3. unfold bindEventListeners, animate, withCore.
    cbn [andb dragging set_listening core]. rewrite Hg3, Hc3. cbn [orb negb].
    set (cc := set_value_current _ c2).
    pose proof (glide_target (set_listening true d3) cc) as Hgt.
    destruct (glide (set_listening true d3) cc) as [g cg]. cbn [snd] in Hgt.
    replace (if g then (true, cg) else (true, cg)) with (true, cg) by now destruct g.
    pose proof (rendered_switches (set_listening true d3) cg) as (K1 & K2 & K3 & K4 & K5).
    destruct (let '(d1, c1) := updateOffsetFromValue (set_listening true d3) cg in
              callAnimationCallback d1 c1) as [d4 c4].
    cbn [fst snd] in K1, K2, K3, K4, K5.
    intro H. injection H as <-.
    destruct Hi as [Hc _]. cbn [core set_core] in Hc. injection Hc as <-.
    cbn [disabled handle tapping set_listening] in K1, K2, K3.
    split; [cbn [handle set_core]; congruence|].
    split; [cbn [disabled set_core]; congruence|].
    split; [exact Hg|]. split; [cbn [tapping set_core]; congruence|].
    rewrite K5, Hgt. unfold cc. cbn [value set_value_current set_value Value.target].
    rewrite Hv. reflexivity. }
  change (handle d1) with true in H2. change (disabled d1) with false in H1.
  change (tapping d1) with false in H3. change (dragging d1) with false in H5.
  destruct (Opt.disabled o) eqn:Ed.
  - unfold disable. cbn [handle set_core]. rewrite H2. cbn [bind].
    apply G; [reflexivity | exact H2 | exact H3 | exact H5 | reflexivity].
  - cbn [bind]. apply G; [exact H1 | exact H2 | exact H3 | exact H5 | reflexivity].
Qed.

(** X12.  [init()] of a slide navigator.  If the wrap or its handle is
    missing, the drag engine it creates is never initialised, and the
    first [resize()] raises a TypeError.  Otherwise [init()] completes
    with the resize handler and the button handlers bound, the navigator
    is slidable exactly when the handle is wider than the wrap, the drag
    engine is enabled exactly when it is slidable, whatever the
    [disabled] option says, and the ratio is 0. *)
Theorem slide_init (env : HSN.Env) (o : HSN.Options) :
  if HSN.wrapFound o && HSN.handleFound o then
    exists h d q,
      HSN.init env (HSN.create o) = Ok h /\
      HSN.dragDealer h = Some d /\
      HSN.isSlidable h
      = negb (Qle_bool (HSN.handleOuterWidth env) (HSN.wrapWidth env)) /\
      disabled d = negb (HSN.isSlidable h) /\
      HSN.getRatioX h = Some (Some q) /\ q == 0 /\
      HSN.resizeHandler h = true /\
      (forall b, In b (Navi.o_btns (HSN.o_navi o)) ->
                 Navi.hasHandler (HSN.navi h) b = true)
  else throws (HSN.init env (HSN.create o)) = true.
Proof.
  destruct (HSN.wrapFound o && HSN.handleFound o) eqn:Ef.
  - apply andb_true_iff in Ef. destruct Ef as [Ew Eh].
    destruct (create_found (HSN.dragdealerOptions o) (HSN.cursor env) (HSN.dom env))
      as (d & c & Hcr & Hi & Ho & Hh & Hd & Hg & Ht & Htg).
    unfold HSN.init, HSN.setInstance.
    cbn [HSN.opt HSN.set_navi HSN.create]. rewrite Ew, Eh. cbn [andb].
    rewrite Hcr. cbn [bind]. unfold HSN.resize.
    cbn [HSN.dragDealer HSN.set_resizeHandler HSN.set_dragDealer HSN.opt
         HSN.set_navi HSN.create].
    rewrite Hh, Ew. unfold gt, lt.
    destruct (Qle_bool (HSN.handleOuterWidth env) (HSN.wrapWidth env)) eqn:Ele;
      cbn [negb].
    + (* the handle fits into the wrap *)
      assert (G : forall d0, core d0 = Some c -> disabled d0 = true ->
                    options d0 = HSN.dragdealerOptions o ->
                    exists d1 c1 q,
                      setValue (Some 0) (Some 0) false d0 = Ok d1 /\
                      core d1 = Some c1 /\ disabled d1 = true /\
                      Value.target (value c1) = (Some q, Some q) /\ q == 0).
      { intros d0 Hc0 Hd0 Ho0. unfold setValue, withCore. rewrite Hc0.
        unfold or0, truthy. cbn [Qeq_bool].
        change (Qeq_bool 0 0) with true. cbn [negb].
        pose proof (PointerEvents.targeted (@pair num num (Some 0) (Some 0)) false d0 c)
          as (_ & _ & _ & Hdd & _).
        assert (Hv : Value.target
                       (value (snd (setTargetValue (@pair num num (Some 0) (Some 0))
                                      false d0 c)))
                     = getProperValue d0 c (@pair num num (Some 0) (Some 0)))
          by reflexivity.
        destruct (setTargetValue (@pair num num (Some 0) (Some 0)) false d0 c)
          as [d1 c1].
        cbn [fst snd] in Hdd, Hv.
        exists (set_core c1 d1), c1, (qmin (qmax 0 0) 1).
        split; [reflexivity|]. split; [reflexivity|].
        split; [cbn [disabled set_core]; congruence|].
        split; [|reflexivity].
        rewrite Hv. unfold getProperValue. rewrite Ho0. cbn [fst snd].
        change (1 <? Opt.steps (HSN.dragdealerOptions o))%Z with false.
        rewrite !Settling.clamp_value.
        now destruct (_ || _). }
      destruct Hi as [Hc _].
      destruct (disabled d) eqn:Edis; cbn [negb bind].
      * destruct (G d Hc Edis Ho) as (d1 & c1 & q & Hs & Hc1 & Hd1 & Ht1 & Eq).
        unfold HSN.setRatioX, HSN.setValue, HSN.onDragDealer.
        cbn [HSN.dragDealer HSN.set_resizeHandler HSN.set_dragDealer].
        rewrite Hs. cbn [lift bind].
        eexists _, d1, q. split; [reflexivity|].
        split; [reflexivity|]. split; [reflexivity|].
        split; [exact Hd1|].
        split; [unfold HSN.getRatioX, getValue; cbn [HSN.dragDealer HSN.set_isDraggable
                  HSN.set_dragDealer]; rewrite Hc1, Ht1; reflexivity|].
        split; [exact Eq|]. split; [reflexivity|].
        intros b Hb. apply NaviButtons.init_binds. exact Hb.
      * unfold HSN.disable, HSN.onDragDealer.
        cbn [HSN.dragDealer HSN.set_resizeHandler HSN.set_dragDealer].
        unfold disable. rewrite Hh. cbn [lift bind].
        destruct (G (set_disabled true (S (handleDisabled d)) d) Hc eq_refl Ho)
          as (d1 & c1 & q & Hs & Hc1 & Hd1 & Ht1 & Eq).
        unfold HSN.setRatioX, HSN.setValue, HSN.onDragDealer.
        cbn [HSN.dragDealer HSN.set_resizeHandler HSN.set_dragDealer].
        rewrite Hs. cbn [lift bind].
        eexists _, d1, q. split; [reflexivity|].
        split; [reflexivity|]. split; [reflexivity|].
        split; [exact Hd1|].
        split; [unfold HSN.getRatioX, getValue; cbn [HSN.dragDealer HSN.set_isDraggable
                  HSN.set_dragDealer]; rewrite Hc1, Ht1; reflexivity|].
        split; [exact Eq|]. split; [reflexivity|].
        intros b Hb. apply NaviButtons.init_binds. exact Hb.
    + (* the handle is wider than the wrap *)
      unfold HSN.enable, HSN.onDragDealer.
      cbn [HSN.dragDealer HSN.set_resizeHandler HSN.set_dragDealer].
      unfold enable. rewrite Hh. cbn [lift bind].
      destruct Hi as [Hc _].
      eexists _, _, 0. split; [reflexivity|].
      split; [reflexivity|]. split; [reflexivity|].
      split; [reflexivity|].
      split; [unfold HSN.getRatioX, getValue; cbn [HSN.dragDealer HSN.set_isDraggable
                HSN.set_dragDealer core set_disabled]; rewrite Hc, Htg; reflexivity|].
      split; [reflexivity|]. split; [reflexivity|].
      intros b Hb. apply NaviButtons.init_binds. exact Hb.
  - unfold HSN.init, HSN.setInstance.
    cbn [HSN.opt HSN.set_navi HSN.create]. rewrite Ef.
    unfold create.
    destruct (HSN.wrapFound o) eqn:Ew; cbn [negb bind];
      unfold HSN.resize;
      cbn [HSN.dragDealer HSN.set_resizeHandler HSN.set_dragDealer HSN.opt
           HSN.set_navi HSN.create handle set_elements blank disabled];
      rewrite Ew; reflexivity.
Qed.

End SlideSetup.

(** ** The desktop navigator's window and its prev and next buttons *)

Module PagingWindow.

Module DPN := DesktopPaginationNavi.

(** [windowFrom] in closed form. *)
Lemma windowFrom_nth (N : Z) (n : nat) :
  forall (start : Z) (i : nat),
    1 <= start <= N -> (i < n)%nat ->
    nth_error (Helpers.windowFrom N n start) i
    = Some ((start - 1 + Z.of_nat i) mod N + 1).
Proof.
  induction n as [|n IH]; intros start i Hs Hi; [lia|].
  destruct i as [|i]; cbn [Helpers.windowFrom nth_error].
  - f_equal. rewrite Z.add_0_r, Z.mod_small; lia.
  - destruct (Z.ltb_spec N (start + 1)) as [Hw|Hw].
    + rewrite IH by lia. f_equal. f_equal.
      replace (start - 1 + Z.of_nat (S i)) with (1 - 1 + Z.of_nat i + 1 * N) by lia.
      now rewrite Z.mod_add by lia.
    + rewrite IH by lia. f_equal. f_equal. f_equal. lia.
Qed.

Lemma windowFrom_length (N : Z) (n : nat) :
  forall start, length (Helpers.windowFrom N n start) = n.
Proof.
  induction n as [|n IH]; intro start; cbn; [reflexivity | now rewrite IH].
Qed.

(** X13.  The list items [setNaviListItemsPosition] shows, slot by slot.
    Up to four items are all shown in their order.  Of more than four
    items, with the left edge on an item, it shows four: slot [i] holds
    item [(left - 1 + i) mod N + 1], so the window starts at the left
    edge, runs on past the last item to the first, and shows no item
    twice. *)
Theorem shown_window (d : DPN.t) :
  let N := Z.of_nat (DPN.naviListItems d) in
  let l := DPN.left (DPN.edgeBtnsIndex d) in
  let d' := DPN.setNaviListItemsPosition d in
  (N = 0 -> d' = d) /\
  (1 <= N <= 4 ->
   DPN.shown d' = map (fun i => Z.of_nat i + 1) (seq 0 (DPN.naviListItems d))) /\
  (4 < N -> 1 <= l <= N ->
   DPN.shown d'
   = [(l - 1) mod N + 1; l mod N + 1; (l + 1) mod N + 1; (l + 2) mod N + 1] /\
   NoDup (DPN.shown d') /\
   Forall (fun i => 1 <= i <= N) (DPN.shown d')).
Proof.
  intros N l d'. unfold d', DPN.setNaviListItemsPosition. fold N.
  split; [|split].
  - intro H0. rewrite H0. reflexivity.
  - intros HN. destruct (Z.leb_spec N 0); [lia|].
    destruct (Z.leb_spec N DPN.DISPLAY_BTN_NUM) as [_|H4]; [reflexivity|].
    unfold DPN.DISPLAY_BTN_NUM in H4. lia.
  - intros HN Hl. destruct (Z.leb_spec N 0); [lia|].
    destruct (Z.leb_spec N DPN.DISPLAY_BTN_NUM) as [H4|_];
      [unfold DPN.DISPLAY_BTN_NUM in H4; lia|].
    cbn [DPN.shown DPN.set_shown]. fold l.
    change (Z.to_nat DPN.DISPLAY_BTN_NUM) with 4%nat.
    assert (E : Helpers.windowFrom N 4 l
                = [(l - 1) mod N + 1; l mod N + 1; (l + 1) mod N + 1;
                   (l + 2) mod N + 1]).
    { apply nth_error_ext. intro i.
      destruct (Nat.lt_ge_cases i 4) as [Hi|Hi].
      - rewrite (windowFrom_nth N 4 l i Hl Hi).
        destruct i as [|[|[|[|i]]]]; [| | | |lia]; cbn [nth_error]; f_equal; f_equal;
          f_equal; lia.
      - rewrite (proj2 (nth_error_None _ _)) by (rewrite windowFrom_length; exact Hi).
        symmetry. apply nth_error_None. cbn. exact Hi. }
    rewrite E. split; [reflexivity|].
    assert (H0 := Z.mod_pos_bound (l - 1) N ltac:(lia)).
    assert (H1 := Z.mod_pos_bound l N ltac:(lia)).
    assert (H2 := Z.mod_pos_bound (l + 1) N ltac:(lia)).
    assert (H3 := Z.mod_pos_bound (l + 2) N ltac:(lia)).
    split.
    + assert (D : forall a b, 0 < b - a < N -> a mod N + 1 <> b mod N + 1).
      { intros a b Hab Heq.
        assert (Hm : (b - a) mod N = 0).
        { rewrite Zminus_mod. replace (b mod N) with (a mod N) by lia.
          rewrite Z.sub_diag. apply Z.mod_0_l. lia. }
        rewrite Z.mod_small in Hm by lia. lia. }
      repeat constructor; cbn [In]; intuition;
        match goal with
        | H : ?a mod N + 1 = ?b mod N + 1 |- _ =>
            first [ apply (D a b) in H; [exact H | lia]
                  | symmetry in H; apply (D b a) in H; [exact H | lia] ]
        end.
    + repeat constructor; lia.
Qed.

(** Ten items seen from item 9 on: items 9, 10, 1 and 2 are shown. *)
Lemma shown_window_witness :
  DPN.shown (DPN.setNaviListItemsPosition (Samples.desktop 10 9)) = [9; 10; 1; 2].
Proof.
  destruct (shown_window (Samples.desktop 10 9)) as (_ & _ & H).
  destruct H as (H & _); [vm_compute; reflexivity | vm_compute; split; discriminate|].
  rewrite H. vm_compute. reflexivity.
Defined.

(** X14.  The click handlers of the desktop navigator's prev and next
    buttons, over [N >= 1] paging buttons with the active index [a]
    (between 0, none active, and [N]): the next button asks for
    [a mod N + 1] and the prev button for [(a - 2) mod N + 1], or for
    [N] when none is active; so both always ask for an index from 1 to
    [N], next going from [N] to 1 and prev from 1 to [N]. *)
Theorem prev_next_wrap (d : DPN.t) (n : Navi.t) :
  DPN.navi d = Some n ->
  DPN.prevHandler d = true -> DPN.nextHandler d = true ->
  let N := Z.of_nat (length (Navi.btns n)) in
  let a := Navi.activateIndex n in
  1 <= N -> 0 <= a <= N ->
  exists p q,
    DPN.clickPrevBtn d = Some (DPN.prev, p) /\
    DPN.clickNextBtn d = Some (DPN.next, q) /\
    1 <= p <= N /\ 1 <= q <= N /\
    q = a mod N + 1 /\
    (1 <= a -> p = (a - 2) mod N + 1) /\
    (a = 0 -> p = N).
Proof.
  intros Hn Hp Hx N a HN Ha.
  unfold DPN.clickPrevBtn, DPN.clickNextBtn. rewrite Hn, Hp, Hx.
  unfold Navi.getActivatedIndex, Navi.getBtns. fold N a.
  eexists _, _. split; [reflexivity|]. split; [reflexivity|].
  destruct (Z.leb_spec (a - 1) 0) as [H1|H1];
    destruct (Z.ltb_spec N (a + 1)) as [H2|H2].
  - assert (Ea : a = 1) by lia. assert (EN : N = 1) by lia.
    rewrite Ea, EN. repeat split; try lia; reflexivity.
  - repeat split; try lia.
    + rewrite Z.mod_small; lia.
    + intros H. replace a with 1 by lia.
      replace (1 - 2) with (N - 1 + (-1) * N) by lia.
      rewrite Z.mod_add, Z.mod_small; lia.
  - assert (a = N) by lia. repeat split; try lia.
    + subst a. rewrite H, Z.mod_same; lia.
    + intros _. rewrite Z.mod_small; lia.
  - repeat split; try lia.
    + rewrite Z.mod_small; lia.
    + intros _. rewrite Z.mod_small; lia.
Qed.

(** Five buttons, the last one active: next asks for 1, prev for 4. *)
Lemma prev_next_wrap_witness :
  let d := DPN.activate 5 (Samples.desktop 5 1) in
  DPN.clickPrevBtn d = Some (DPN.prev, 4) /\
  DPN.clickNextBtn d = Some (DPN.next, 1).
Proof.
  intro d.
  destruct (DPN.navi d) as [n|] eqn:E; [|vm_compute in E; discriminate E].
  assert (Hb : length (Navi.btns n) = 5%nat)
    by (vm_compute in E; injection E as <-; reflexivity).
  assert (Ha : Navi.activateIndex n = 5)
    by (vm_compute in E; injection E as <-; reflexivity).
  destruct (prev_next_wrap d n E) as (p & q & H1 & H2 & _ & _ & Hq & Hp & _);
    [reflexivity | reflexivity | rewrite Hb; lia | rewrite Hb, Ha; lia |].
  rewrite Hb, Ha in Hq, Hp.
  rewrite H1, H2, Hq, Hp by lia. split; reflexivity.
Defined.

End PagingWindow.

(** ** Clicks on the page buttons *)

Module PageClicks.

Module HSN := HorizontalSlideNavi.
Module DPN := DesktopPaginationNavi.

(** A click on button [i + 1] of a navigation object with both
    callbacks. *)
Lemma click_calls (n : Navi.t) (i : nat) (btn : Navi.Elem) :
  NoDup (Navi.btns n) -> nth_error (Navi.btns n) i = Some btn ->
  Navi.hasHandler n btn = true ->
  Navi.clickCallback n = true -> Navi.activateCallback n = true ->
  let idx := Z.of_nat i + 1 in
  Navi.click btn n
  = ([ {| Navi.call := Navi.ClickCall (Navi.activateIndex n) idx;
          Navi.activatedThen := Navi.activateIndex n |};
       {| Navi.call := Navi.ActivateCall (Navi.activateIndex n) idx;
          Navi.activatedThen := Navi.activateIndex n |} ],
     Navi.set_indices idx idx n) /\
  Navi.getBtn idx n = Some btn.
Proof.
  intros Hnd Hi Hh Hc Ha idx.
  assert (Hidx : Navi.index (Navi.btns n) btn + 1 = idx).
  { unfold Navi.index. rewrite (NaviButtons.indexFrom_nth _ i 0 btn Hnd Hi).
    unfold idx. lia. }
  split.
  - unfold Navi.click. rewrite Hh. unfold Navi.clickBtnEventHandler.
    rewrite Hc, Ha, Hidx. reflexivity.
  - rewrite <- Hidx.
    apply NaviButtons.getBtn_of_index; [exact Hnd|].
    eapply nth_error_In. exact Hi.
Qed.

(** X15.  A click on paging button [i + 1] of the desktop navigator, as
    the pagination controller sets it up: the button becomes the active
    one and gets the class 'on'; if it was the active one already,
    nothing else happens; otherwise the controller takes [i + 1] as its
    current index and triggers one CLICK_PAGE_BTN event with it. *)
Theorem desktop_click_page (btn : Navi.Elem) (i : nat) (p : Pagination.t)
    (d : DPN.t) (n : Navi.t) :
  Pagination.desktopNavi p = Some d -> DPN.navi d = Some n ->
  DPN.clickCallback d = true ->
  Navi.clickCallback n = true -> Navi.activateCallback n = true ->
  NoDup (Navi.btns n) -> nth_error (Navi.btns n) i = Some btn ->
  Navi.hasHandler n btn = true ->
  let idx := Z.of_nat i + 1 in
  let p' := Pagination.clickDesktopBtn btn p in
  (exists d', Pagination.desktopNavi p' = Some d' /\
              DPN.getActivatedIndex d' = idx /\ DPN.onBtn d' = Some btn) /\
  (idx = Navi.activateIndex n ->
   Pagination.triggered p' = Pagination.triggered p /\
   Pagination.currentIndex p' = Pagination.currentIndex p) /\
  (idx <> Navi.activateIndex n ->
   Pagination.triggered p' = Pagination.triggered p ++ [idx] /\
   Pagination.currentIndex p' = idx).
Proof.
  intros Hd Hn Hcb Hc Ha Hnd Hi Hh idx p'.
  destruct (click_calls n i btn Hnd Hi Hh Hc Ha) as [Hclick Hget]. fold idx in Hclick, Hget.
  unfold p', Pagination.clickDesktopBtn, DPN.click. rewrite Hd, Hn, Hclick.
  cbn [DPN.runCalls Navi.call]. unfold DPN.activateNaviBtn. rewrite Hget.
  cbn [DPN.clickCallback DPN.set_onBtn]. rewrite Hcb.
  cbn [Pagination.runDesktopCalls Navi.call Navi.activatedThen].
  split.
  - eexists. split; [reflexivity|]. split; reflexivity.
  - destruct (Z.eqb_spec idx (Navi.activateIndex n)) as [E|E].
    + split; [intros _; split; reflexivity | intro H; contradiction].
    + split; [intro H; contradiction | intros _; split; reflexivity].
Qed.

(** The sample page of five items at 1000 pixels: a click on the third
    paging button sends index 3. *)
Lemma desktop_click_page_witness :
  let p := Samples.controller 5 1000 in
  let p' := Pagination.clickDesktopBtn 103%nat p in
  Pagination.triggered p' = Pagination.triggered p ++ [3] /\
  Pagination.currentIndex p' = 3.
Proof.
  intros p p'.
  destruct (Pagination.desktopNavi p) as [d|] eqn:Ed; [|vm_compute in Ed; discriminate Ed].
  destruct (DPN.navi d) as [n|] eqn:En;
    [|vm_compute in Ed; injection Ed as <-; vm_compute in En; discriminate En].
  assert (Hn : n = Navi.set_indices 0 1
                 (Navi.init (Navi.create
                    {| Navi.o_btns := seq 101 5;
                       Navi.o_mouseoverCallback := false;
                       Navi.o_mouseoutCallback := false;
                       Navi.o_mousedownCallback := false;
                       Navi.o_mouseupCallback := false;
                       Navi.o_clickCallback := true;
                       Navi.o_activateCallback := true |}))).
  { vm_compute in Ed. injection Ed as <-. vm_compute in En. injection En as <-.
    reflexivity. }
  assert (Hcb : DPN.clickCallback d = true)
    by (vm_compute in Ed; injection Ed as <-; reflexivity).
  assert (Hnd : NoDup (Navi.btns n)).
  { rewrite Hn. cbn. repeat constructor; cbn; intuition discriminate. }
  destruct (desktop_click_page 103%nat 2 p d n Ed En Hcb) as (_ & _ & H);
    try (rewrite Hn; reflexivity); [exact Hnd|].
  apply H. rewrite Hn. discriminate.
Defined.

(** X16.  A click on button [i + 1] of the mobile strip, as the
    pagination controller sets it up: the button becomes the active one
    of the slide navigator and gets the class 'on'; if it was the active
    one already, nothing else happens; otherwise the controller takes
    [i + 1] as its current index and triggers one CLICK_PAGE_BTN event
    with it. *)
Theorem slide_click_page (btn : Navi.Elem) (i : nat) (p : Pagination.t) (h : HSN.t) :
  Pagination.slideNavi p = Some h ->
  Navi.clickCallback (HSN.navi h) = true ->
  Navi.activateCallback (HSN.navi h) = true ->
  NoDup (HSN.getBtns h) -> nth_error (HSN.getBtns h) i = Some btn ->
  Navi.hasHandler (HSN.navi h) btn = true ->
  let idx := Z.of_nat i + 1 in
  let p' := Pagination.clickSlideBtn btn p in
  (exists h', Pagination.slideNavi p' = Some h' /\
              HSN.getActivatedIndex h' = idx) /\
  Pagination.slideOnBtn p' = Some btn /\
  (idx = HSN.getActivatedIndex h ->
   Pagination.triggered p' = Pagination.triggered p /\
   Pagination.currentIndex p' = Pagination.currentIndex p) /\
  (idx <> HSN.getActivatedIndex h ->
   Pagination.triggered p' = Pagination.triggered p ++ [idx] /\
   Pagination.currentIndex p' = idx).
Proof.
  intros Hs Hc Ha Hnd Hi Hh idx p'.
  destruct (click_calls (HSN.navi h) i btn Hnd Hi Hh Hc Ha) as [Hclick Hget].
  fold idx in Hclick, Hget.
  unfold p', Pagination.clickSlideBtn, HSN.click. rewrite Hs, Hclick.
  cbn [Pagination.runSlideCalls Navi.call Navi.activatedThen].
  unfold Pagination.activateSlideNaviBtn, HSN.getBtn. rewrite Hget.
  unfold HSN.getActivatedIndex, Navi.getActivatedIndex.
  destruct (Z.eqb_spec idx (Navi.activateIndex (HSN.navi h))) as [E|E].
  - split; [eexists; split; reflexivity|]. split; [reflexivity|].
    split; [intros _; split; reflexivity | intro H; contradiction].
  - split; [eexists; split; reflexivity|]. split; [reflexivity|].
    split; [intro H; contradiction | intros _; split; reflexivity].
Qed.

(** The sample page of five items at 320 pixels: a click on the third
    button of the strip sends index 3. *)
Lemma slide_click_page_witness :
  let p := Samples.controller 5 320 in
  let p' := Pagination.clickSlideBtn 3%nat p in
  Pagination.triggered p' = Pagination.triggered p ++ [3] /\
  Pagination.currentIndex p' = 3.
Proof.
  intros p p'.
  destruct (Pagination.slideNavi p) as [h|] eqn:Eh; [|vm_compute in Eh; discriminate Eh].
  assert (Hn : HSN.navi h
               = Navi.set_indices 0 1
                   (Navi.init (Navi.create
                      {| Navi.o_btns := seq 1 5;
                         Navi.o_mouseoverCallback := false;
                         Navi.o_mouseoutCallback := false;
                         Navi.o_mousedownCallback := false;
                         Navi.o_mouseupCallback := false;
                         Navi.o_clickCallback := true;
                         Navi.o_activateCallback := true |}))).
  { vm_compute in Eh. injection Eh as <-. reflexivity. }
  assert (Hnd : NoDup (HSN.getBtns h)).
  { unfold HSN.getBtns. rewrite Hn. cbn. repeat constructor; cbn; intuition discriminate. }
  destruct (slide_click_page 3%nat 2 p h Eh) as (_ & _ & _ & H);
    try (unfold HSN.getBtns; rewrite Hn; reflexivity); [exact Hnd|].
  apply H. unfold HSN.getActivatedIndex. rewrite Hn. discriminate.
Defined.

End PageClicks.

(** ** Colours of the transition library *)

Module TramColours.

Import Stdlib.Strings.Ascii Stdlib.Strings.String.
Import Tram.

Lemma lor_disjoint (a k low : Z) :
  0 <= k -> 0 <= low < 2 ^ k -> Z.lor (a * 2 ^ k) low = a * 2 ^ k + low.
Proof.
  intros Hk Hlow.
  assert (H0 : Z.land (a * 2 ^ k) low = 0).
  { rewrite <- (Z.mod_small low (2 ^ k)) by exact Hlow.
    rewrite <- (Z.land_ones low k) by exact Hk.
    rewrite (Z.land_comm low), Z.land_assoc, (Z.land_ones (a * 2 ^ k) k)
      by exact Hk.
    rewrite Z.mod_mul by lia. apply Z.land_0_l. }
  pose proof (Z.add_lor_land (a * 2 ^ k) low) as H. lia.
Qed.

Lemma wrap32_small (z : Z) : - 2 ^ 31 <= z < 2 ^ 31 -> wrap32 z = z.
Proof.
  intro H. unfold wrap32. rewrite Z.mod_small; lia.
Qed.

Lemma toInt32_whole (z : Z) :
  - 2 ^ 31 <= z < 2 ^ 31 -> toInt32 (Some (inject_Z z)) = z.
Proof.
  intro H. unfold toInt32, truncate.
  assert (E : (if Qle_bool 0 (inject_Z z) then Qfloor (inject_Z z)
               else Qceiling (inject_Z z)) = z).
  { destruct (Qle_bool 0 (inject_Z z)); [apply Qfloor_Z | apply Qceiling_Z]. }
  rewrite E. now apply wrap32_small.
Qed.

(** The number [rgbToHex] prints. *)
Lemma packed (r g b : Z) :
  0 <= r <= 255 -> 0 <= g <= 255 -> 0 <= b <= 255 ->
  Z.lor (Z.lor (Z.lor (shl 1 24) (shl (toInt32 (Some (inject_Z r))) 16))
               (shl (toInt32 (Some (inject_Z g))) 8))
        (toInt32 (Some (inject_Z b)))
  = 16777216 + (r * 65536 + g * 256 + b).
Proof.
  intros Hr Hg Hb.
  rewrite !toInt32_whole by lia.
  unfold shl. rewrite !Z.shiftl_mul_pow2 by lia.
  rewrite !wrap32_small by lia.
  rewrite <- !Z.lor_assoc.
  rewrite (lor_disjoint g 8 b) by lia.
  rewrite (lor_disjoint r 16) by lia.
  rewrite (lor_disjoint 1 24) by lia.
  lia.
Qed.

(** *** Printing *)

Lemma toHex_step (fuel : nat) (n : Z) (acc : string) :
  16 <= n ->
  toHex (S fuel) n acc = toHex fuel (n / 16) (String (hexDigit (n mod 16)) acc).
Proof.
  intro H. cbn [toHex].
  destruct (Z.eqb_spec (n / 16) 0) as [E|_]; [|reflexivity].
  exfalso. Z.div_mod_to_equations. lia.
Qed.

Lemma toHex_last (fuel : nat) (n : Z) (acc : string) :
  0 <= n < 16 -> toHex (S fuel) n acc = String (hexDigit n) acc.
Proof.
  intro H. cbn [toHex]. rewrite Z.mod_small by lia.
  destruct (Z.eqb_spec (n / 16) 0) as [_|E]; [reflexivity|].
  exfalso. apply E. apply Z.div_small. lia.
Qed.

(** The six digits of a number below [16 ^ 6], as [rgbToHex] prints
    them. *)
Lemma print_packed (x : Z) :
  0 <= x < 16777216 ->
  slice1 (toString16 (16777216 + x))
  = String (hexDigit (x / 1048576))
      (String (hexDigit (x / 65536 mod 16))
         (String (hexDigit (x / 4096 mod 16))
            (String (hexDigit (x / 256 mod 16))
               (String (hexDigit (x / 16 mod 16))
                  (String (hexDigit (x mod 16)) EmptyString))))).
Proof.
  intro Hx. unfold toString16.
  destruct (Z.ltb_spec (16777216 + x) 0) as [H|_]; [lia|].
  assert (Hlog : Z.log2 (16777216 + x) = 24).
  { apply Z.log2_unique; [lia|]. change (2 ^ 24) with 16777216.
    change (2 ^ Z.succ 24) with 33554432. lia. }
  rewrite Hlog. change (S (Z.to_nat 24)) with 25%nat.
  rewrite toHex_step by lia.
  rewrite toHex_step by (Z.div_mod_to_equations; lia).
  rewrite toHex_step by (Z.div_mod_to_equations; lia).
  rewrite toHex_step by (Z.div_mod_to_equations; lia).
  rewrite toHex_step by (Z.div_mod_to_equations; lia).
  rewrite toHex_step by (Z.div_mod_to_equations; lia).
  rewrite toHex_last by (Z.div_mod_to_equations; lia).
  cbn [slice1].
  repeat (f_equal; [f_equal; Z.div_mod_to_equations; lia|]).
  f_equal. f_equal. Z.div_mod_to_equations. lia.
Qed.

(** *** Parsing *)

Lemma digit_cases (d : Z) :
  0 <= d < 16 ->
  d = 0 \/ d = 1 \/ d = 2 \/ d = 3 \/ d = 4 \/ d = 5 \/ d = 6 \/ d = 7 \/
  d = 8 \/ d = 9 \/ d = 10 \/ d = 11 \/ d = 12 \/ d = 13 \/ d = 14 \/ d = 15.
Proof. lia. Qed.

Ltac each_digit H :=
  apply digit_cases in H;
  repeat (destruct H as [H|H]; [subst|]); [..|subst].

Lemma hexValue_digit (d : Z) : 0 <= d < 16 -> hexValue (hexDigit d) = Some d.
Proof. intro H. each_digit H; reflexivity. Qed.

(** A string that starts with two printed digits is parsed as its
    digits: no white space, no sign and no [0x] come first. *)
Lemma parse_printed (d e : Z) (rest : string) :
  0 <= d < 16 -> 0 <= e < 16 ->
  parseInt16 (String (hexDigit d) (String (hexDigit e) rest))
  = Some (inject_Z (1 * parseDigits (String (hexDigit d) (String (hexDigit e) rest)) 0)).
Proof.
  intros Hd He. each_digit Hd; try reflexivity.
  each_digit He; reflexivity.
Qed.

Lemma parse_six (d5 d4 d3 d2 d1 d0 : Z) :
  0 <= d5 < 16 -> 0 <= d4 < 16 -> 0 <= d3 < 16 ->
  0 <= d2 < 16 -> 0 <= d1 < 16 -> 0 <= d0 < 16 ->
  parseInt16
    (String (hexDigit d5)
       (String (hexDigit d4)
          (String (hexDigit d3)
             (String (hexDigit d2)
                (String (hexDigit d1)
                   (String (hexDigit d0) EmptyString))))))
  = Some (inject_Z (((((d5 * 16 + d4) * 16 + d3) * 16 + d2) * 16 + d1) * 16 + d0)).
Proof.
  intros H5 H4 H3 H2 H1 H0. rewrite parse_printed by assumption.
  cbn [parseDigits]. rewrite !hexValue_digit by assumption.
  do 2 f_equal. lia.
Qed.

(** What [rgbToHex] prints for three bytes, and what [hexToRgb] reads
    from it. *)
Lemma printed_bytes (r g b : Z) :
  0 <= r <= 255 -> 0 <= g <= 255 -> 0 <= b <= 255 ->
  rgbToHex (Some (inject_Z r)) (Some (inject_Z g)) (Some (inject_Z b))
  = String "#"
      (String (hexDigit (r / 16))
         (String (hexDigit (r mod 16))
            (String (hexDigit (g / 16))
               (String (hexDigit (g mod 16))
                  (String (hexDigit (b / 16))
                     (String (hexDigit (b mod 16)) EmptyString)))))).
Proof.
  intros Hr Hg Hb.
  unfold rgbToHex. rewrite (packed r g b Hr Hg Hb).
  rewrite print_packed by lia.
  set (x := r * 65536 + g * 256 + b).
  assert (D5 : x / 1048576 = r / 16) by (subst x; Z.div_mod_to_equations; lia).
  assert (D4 : x / 65536 mod 16 = r mod 16) by (subst x; Z.div_mod_to_equations; lia).
  assert (D3 : x / 4096 mod 16 = g / 16) by (subst x; Z.div_mod_to_equations; lia).
  assert (D2 : x / 256 mod 16 = g mod 16) by (subst x; Z.div_mod_to_equations; lia).
  assert (D1 : x / 16 mod 16 = b / 16) by (subst x; Z.div_mod_to_equations; lia).
  assert (D0 : x mod 16 = b mod 16) by (subst x; Z.div_mod_to_equations; lia).
  rewrite D5, D4, D3, D2, D1, D0. reflexivity.
Qed.

Lemma parsed_bytes (r g b : Z) :
  0 <= r <= 255 -> 0 <= g <= 255 -> 0 <= b <= 255 ->
  hexToRgb
    (String "#"
       (String (hexDigit (r / 16))
          (String (hexDigit (r mod 16))
             (String (hexDigit (g / 16))
                (String (hexDigit (g mod 16))
                   (String (hexDigit (b / 16))
                      (String (hexDigit (b mod 16)) EmptyString)))))))
  = (r, g, b).
Proof.
  intros Hr Hg Hb. unfold hexToRgb. cbn [slice1].
  rewrite parse_six by (Z.div_mod_to_equations; lia).
  rewrite toInt32_whole by (Z.div_mod_to_equations; lia).
  rewrite !Z.shiftr_div_pow2 by lia.
  change 255 with (Z.ones 8). rewrite !Z.land_ones by lia.
  change (2 ^ 16) with 65536. change (2 ^ 8) with 256.
  f_equal; [f_equal|]; Z.div_mod_to_equations; lia.
Qed.

(** X17.  A colour of three bytes goes through [rgbToHex] and
    [hexToRgb] unchanged: for whole numbers [r], [g] and [b] from 0 to
    255, [rgbToHex(r, g, b)] is '#' and six hexadecimal digits, two for
    each byte, and [hexToRgb] of that string is [[r, g, b]]. *)
Theorem rgb_hex_round_trip (r g b : Z) :
  0 <= r <= 255 -> 0 <= g <= 255 -> 0 <= b <= 255 ->
  rgbToHex (Some (inject_Z r)) (Some (inject_Z g)) (Some (inject_Z b))
  = String "#"
      (String (hexDigit (r / 16))
         (String (hexDigit (r mod 16))
            (String (hexDigit (g / 16))
               (String (hexDigit (g mod 16))
                  (String (hexDigit (b / 16))
                     (String (hexDigit (b mod 16)) EmptyString)))))) /\
  hexToRgb (rgbToHex (Some (inject_Z r)) (Some (inject_Z g)) (Some (inject_Z b)))
  = (r, g, b).
Proof.
  intros Hr Hg Hb.
  pose proof (printed_bytes r g b Hr Hg Hb) as E.
  split; [exact E|].
  rewrite E. exact (parsed_bytes r g b Hr Hg Hb).
Qed.

(** Orange: [rgbToHex(255, 165, 0)] is '#ffa500', and back. *)
Lemma rgb_hex_round_trip_witness :
  rgbToHex (Some (inject_Z 255)) (Some (inject_Z 165)) (Some (inject_Z 0))
  = "#ffa500"%string /\
  hexToRgb "#ffa500" = (255, 165, 0).
Proof.
  destruct (rgb_hex_round_trip 255 165 0) as [H1 H2]; [lia | lia | lia |].
  split.
  - rewrite H1. reflexivity.
  - rewrite H1 in H2. exact H2.
Defined.

End TramColours.

(** ** Names, rounding and easing of the transition library *)

Module TramUtils.

Import Stdlib.Strings.Ascii Stdlib.Strings.String.
Import Tram.
Local Open Scope Q_scope.

(** *** Dashed names *)

Lemma lowered_not_upper (c : ascii) :
  isUpper c = true -> isUpper (toLowerCase c) = false.
Proof.
  destruct c as [[] [] [] [] [] [] [] []]; vm_compute; congruence.
Qed.

Lemma toDashed_plain (s : string) :
  Forall (fun c => isUpper c = false) (list_ascii_of_string s) ->
  toDashed s = s.
Proof.
  induction s as [|c s IH]; intro H; [reflexivity|].
  cbn [list_ascii_of_string] in H. inversion H as [|? ? Hc Hs]; subst.
  cbn [toDashed]. rewrite Hc, (IH Hs). reflexivity.
Qed.

Lemma toDashed_no_upper (s : string) :
  Forall (fun c => isUpper c = false) (list_ascii_of_string (toDashed s)).
Proof.
  induction s as [|c s IH]; [constructor|].
  cbn [toDashed]. destruct (isUpper c) eqn:E; cbn [list_ascii_of_string].
  - constructor; [reflexivity|].
    constructor; [apply lowered_not_upper; exact E | exact IH].
  - constructor; assumption.
Qed.

(** X18.  [toDashed] leaves no upper-case letter of A to Z in a name:
    each one is replaced by a dash and its lower-case letter, so the
    result is longer by the number of upper-case letters, and all other
    characters stay in place.  Applying [toDashed] twice is the same as
    applying it once. *)
Theorem toDashed_lower (s : string) :
  Forall (fun c => isUpper c = false) (list_ascii_of_string (toDashed s)) /\
  length (toDashed s)
  = (length s + List.length (filter isUpper (list_ascii_of_string s)))%nat /\
  filter (fun c => negb (Ascii.eqb c "-"))
         (map toLowerCase (list_ascii_of_string (toDashed s)))
  = filter (fun c => negb (Ascii.eqb c "-"))
           (map toLowerCase (list_ascii_of_string s)) /\
  toDashed (toDashed s) = toDashed s.
Proof.
  split; [apply toDashed_no_upper|].
  split; [|split; [|apply toDashed_plain, toDashed_no_upper]].
  - induction s as [|c s IH]; [reflexivity|].
    cbn [toDashed list_ascii_of_string filter].
    destruct (isUpper c); cbn [length List.length]; rewrite IH; lia.
  - induction s as [|c s IH]; [reflexivity|].
    cbn [toDashed list_ascii_of_string].
    destruct (isUpper c) eqn:E; cbn [list_ascii_of_string map filter].
    + assert (L : toLowerCase (toLowerCase c) = toLowerCase c).
      { unfold toLowerCase at 1. rewrite (lowered_not_upper c E). reflexivity. }
      rewrite L, IH.
      change (negb (Ascii.eqb (toLowerCase "-") "-")) with false.
      cbn iota. reflexivity.
    + rewrite IH. reflexivity.
Qed.

(** *** Rounding *)

(** X19.  [round(value)] is a multiple of one thousandth at most half a
    thousandth away from [value], no other multiple of a thousandth is
    closer, and rounding the result again changes nothing.  NaN stays
    NaN. *)
Theorem round_thousandth (v : Q) :
  round None = None /\
  exists (r : Q) (k : Z),
    round (Some v) = Some r /\
    r == inject_Z k / 1000 /\
    Qabs (r - v) <= 1 # 2000 /\
    (forall j : Z, Qabs (r - v) <= Qabs (inject_Z j / 1000 - v)) /\
    exists r', round (Some r) = Some r' /\ r' == r.
Proof.
  split; [reflexivity|].
  exists (inject_Z (qround (v * factor)) / factor), (qround (v * factor)).
  split; [reflexivity|]. split; [reflexivity|].
  pose proof (PixelRatio.qround_near (v * factor)) as N.
  apply Qabs_Qle_condition in N. destruct N as [N1 N2].
  set (k := qround (v * factor)) in *.
  unfold factor in *.
  split; [|split].
  - apply Qabs_Qle_condition. split.
    + apply Qmult_le_r with (z := 1000); [reflexivity|]. field_simplify. lra.
    + apply Qmult_le_r with (z := 1000); [reflexivity|]. field_simplify. lra.
  - intro j.
    assert (A : Qabs (inject_Z k / 1000 - v) <= 1 # 2000).
    { apply Qabs_Qle_condition. split.
      + apply Qmult_le_r with (z := 1000); [reflexivity|]. field_simplify. lra.
      + apply Qmult_le_r with (z := 1000); [reflexivity|]. field_simplify. lra. }
    destruct (Z.eq_dec j k) as [->|Hjk]; [apply Qle_refl|].
    destruct (Z_lt_le_dec j k) as [Hlt|Hge].
    + assert (B : inject_Z j <= inject_Z k - 1).
      { assert (E2 : inject_Z (k - 1) == inject_Z k - 1)
          by (unfold Qeq, Qminus, Qplus, Qopp, inject_Z; cbn [Qnum Qden]; lia).
        rewrite <- E2. rewrite <- Zle_Qle. lia. }
      eapply Qle_trans; [exact A|].
      rewrite <- (Qabs_opp (inject_Z j / 1000 - v)).
      eapply Qle_trans; [|apply Qle_Qabs].
      unfold Qdiv. change (/ 1000) with (1 # 1000). lra.
    + assert (B : inject_Z k + 1 <= inject_Z j).
      { assert (E2 : inject_Z (k + 1) == inject_Z k + 1)
          by (unfold Qeq, Qplus, inject_Z; cbn [Qnum Qden]; lia).
        rewrite <- E2. rewrite <- Zle_Qle. lia. }
      pose proof (Qlt_floor (v * 1000 + (1 # 2))) as Hhi.
      fold (qround (v * 1000)) in Hhi. fold k in Hhi.
      rewrite inject_Z_plus in Hhi. change (inject_Z 1) with 1 in Hhi.
      eapply Qle_trans; [exact A|].
      eapply Qle_trans; [|apply Qle_Qabs].
      unfold Qdiv. change (/ 1000) with (1 # 1000). lra.
  - exists (inject_Z (qround (inject_Z k / 1000 * 1000)) / 1000).
    split; [reflexivity|].
    rewrite (PixelRatio.qround_whole k); [reflexivity|]. field.
Qed.

(** *** Easing *)

(** X20.  Over a duration [d] that is not 0, each polynomial easing
    starts at [b] for [t = 0] and ends at [b + c] for [t = d]. *)
Theorem easing_endpoints (e : Ease) (b c d : Q) :
  ~ d == 0 ->
  exists v0 v1,
    easing e 0 b c d = Some v0 /\ v0 == b /\
    easing e d b c d = Some v1 /\ v1 == b + c.
Proof.
  intro Hd. unfold easing.
  assert (E : Qeq_bool d 0 = false).
  { destruct (Qeq_bool d 0) eqn:E; [|reflexivity].
    apply Qeq_bool_eq in E. contradiction. }
  rewrite E. exists (eased e 0 b c d), (eased e d b c d).
  split; [reflexivity|]. split; [|split; [reflexivity|]].
  - assert (Z0 : 0 / d == 0) by (field; exact Hd).
    assert (Z1 : 0 / (d / 2) == 0) by (field; exact Hd).
    destruct e; cbv zeta beta iota delta [eased];
      try (rewrite Z1; change (negb (Qle_bool 1 0)) with true; cbv iota);
      try rewrite !Z0; unfold overshoot, overshootInOut; try field; try ring; try exact Hd.
  - assert (D0 : d / d == 1) by (field; exact Hd).
    assert (D1 : d / (d / 2) == 2) by (field; exact Hd).
    assert (D2 : Qle_bool 1 (d / (d / 2)) = true).
    { apply Qle_bool_iff. rewrite D1. discriminate. }
    destruct e; cbv zeta beta iota delta [eased];
      try (rewrite D2; cbv iota beta delta [negb]);
      try rewrite !D1; try rewrite !D0; unfold overshoot, overshootInOut;
      try field; try ring; try exact Hd.
Qed.

(** The in-out cubic easing over one second, from 10 by 90. *)
Lemma easing_endpoints_witness :
  exists v0 v1,
    easing easeInOutCubic 0 10 90 1000 = Some v0 /\ v0 == 10 /\
    easing easeInOutCubic 1000 10 90 1000 = Some v1 /\ v1 == 10 + 90.
Proof.
  apply (easing_endpoints easeInOutCubic 10 90 1000). discriminate.
Defined.

End TramUtils.

(** ** The animation comes to rest *)

Module Frames.

Import Dragdealer Vocabulary.
Local Open Scope Q_scope.

Lemma update_value (d : t) (c : Core) :
  options (fst (updateOffsetFromValue d c)) = options d /\
  dragging (fst (updateOffsetFromValue d c)) = dragging d /\
  timeStamp (fst (updateOffsetFromValue d c)) = timeStamp d /\
  value (snd (updateOffsetFromValue d c)) = value c /\
  valuePrecision (snd (updateOffsetFromValue d c)) = valuePrecision c.
Proof.
  unfold updateOffsetFromValue.
  match goal with |- context [if negb (groupCompare ?a ?b) then _ else _] =>
    destruct (negb (groupCompare a b)) end;
    unfold renderHandlePosition; destruct (Opt.css3 (options d));
    repeat split; reflexivity.
Qed.

Lemma animation_value (d : t) (c : Core) :
  options (fst (callAnimationCallback d c)) = options d /\
  dragging (fst (callAnimationCallback d c)) = dragging d /\
  timeStamp (fst (callAnimationCallback d c)) = timeStamp d /\
  Value.target (value (snd (callAnimationCallback d c))) = Value.target (value c) /\
  Value.current (value (snd (callAnimationCallback d c))) = Value.current (value c) /\
  valuePrecision (snd (callAnimationCallback d c)) = valuePrecision c.
Proof.
  unfold callAnimationCallback.
  match goal with |- context [if negb (groupCompare ?a ?b) then _ else _] =>
    destruct (negb (groupCompare a b)) end;
    [destruct (Opt.animationCallback (options d))|]; repeat split; reflexivity.
Qed.

(** The value after one [glide()]. *)
Lemma glide_value (d : t) (c : Core) (tx ty vx vy tau : Q) :
  Value.target (value c) = (Some tx, Some ty) ->
  Value.current (value c) = (Some vx, Some vy) ->
  timeOffset d = Some tau ->
  exists vx' vy',
    Value.target (value (snd (glide d c))) = (Some tx, Some ty) /\
    Value.current (value (snd (glide d c))) = (Some vx', Some vy') /\
    valuePrecision (snd (glide d c)) = valuePrecision c /\
    (Qabs (tx - vx) <= fst (valuePrecision c) /\
     Qabs (ty - vy) <= snd (valuePrecision c) -> vx' == tx /\ vy' == ty) /\
    (~ (Qabs (tx - vx) <= fst (valuePrecision c) /\
        Qabs (ty - vy) <= snd (valuePrecision c)) ->
     vx' == vx + (tx - vx) * qmin (Opt.speed (options d) * tau / 25) 1 /\
     vy' == vy + (ty - vy) * qmin (Opt.speed (options d) * tau / 25) 1).
Proof.
  intros Htg Hcu Ht. unfold glide. rewrite Htg, Hcu, Ht.
  cbn [fst snd sub lift2 truthy Math_abs lift1 option_map gt lt].
  rewrite !negb_involutive.
  destruct (Qeq_bool (tx - vx) 0 && Qeq_bool (ty - vy) 0) eqn:Ez.
  - apply andb_true_iff in Ez. destruct Ez as [Ex Ey].
    apply Qeq_bool_iff in Ex. apply Qeq_bool_iff in Ey.
    exists vx, vy. cbn [snd]. split; [exact Htg|]. split; [exact Hcu|].
    split; [reflexivity|]. split; intros _.
    + split; lra.
    + split; [rewrite Ex | rewrite Ey]; ring.
  - destruct (negb (Qle_bool (Qabs (tx - vx)) (fst (valuePrecision c)))
              || negb (Qle_bool (Qabs (ty - vy)) (snd (valuePrecision c)))) eqn:Eo.
    + cbn [mul add Math_min divq lift1 lift2 option_map snd].
      eexists _, _. split; [exact Htg|]. split; [reflexivity|].
      split; [reflexivity|]. split.
      * intros [H1 H2]. apply Qle_bool_iff in H1. apply Qle_bool_iff in H2.
        rewrite H1, H2 in Eo. discriminate Eo.
      * intros _. split; reflexivity.
    + apply orb_false_iff in Eo. destruct Eo as [E1 E2].
      apply negb_false_iff in E1. apply negb_false_iff in E2.
      apply Qle_bool_iff in E1. apply Qle_bool_iff in E2.
      exists tx, ty. cbn [snd]. split; [exact Htg|].
      split; [reflexivity|]. split; [reflexivity|].
      split; [intros _; split; reflexivity|].
      intro H. exfalso. apply H. split; assumption.
Qed.

(** A [glide()] that answers [false] changed nothing, and there was no
    distance left. *)
Lemma glide_idle (d : t) (c : Core) (tx ty vx vy : Q) :
  Value.target (value c) = (Some tx, Some ty) ->
  Value.current (value c) = (Some vx, Some vy) ->
  fst (glide d c) = false ->
  snd (glide d c) = c /\ vx == tx /\ vy == ty.
Proof.
  intros Htg Hcu. unfold glide. rewrite Htg, Hcu.
  cbn [fst snd sub lift2 truthy].
  rewrite !negb_involutive.
  destruct (Qeq_bool (tx - vx) 0 && Qeq_bool (ty - vy) 0) eqn:Ez.
  - intros _. apply andb_true_iff in Ez. destruct Ez as [Ex Ey].
    apply Qeq_bool_iff in Ex. apply Qeq_bool_iff in Ey.
    split; [reflexivity|]. split; lra.
  - match goal with |- context [if ?b then _ else _] => destruct b end;
      cbn [fst]; intro H; discriminate H.
Qed.

Lemma animation_shown (d : t) (c : Core) :
  shown d c ->
  shown (fst (callAnimationCallback d c)) (snd (callAnimationCallback d c)).
Proof.
  intros [H1 H2]. unfold callAnimationCallback.
  match goal with |- context [if negb (groupCompare ?a ?b) then _ else _] =>
    destruct (negb (groupCompare a b)); [set (v := a)|] end;
    cbn [fst snd]; [|split; assumption].
  assert (Ha : alike d c
                 (if Opt.animationCallback (options d)
                  then emit (AnimationCallback (fst v) (snd v)) d else d)
                 (set_value_prev v c)).
  { destruct (Opt.animationCallback (options d)); repeat split. }
  assert (E : shownOffset
                (if Opt.animationCallback (options d)
                 then emit (AnimationCallback (fst v) (snd v)) d else d)
                (set_value_prev v c) = shownOffset d c).
  { apply (Repeating.alike_shownOffset d _ c _ Ha). reflexivity. }
  split; rewrite E; [exact H1|].
  destruct H2 as [H | [Hp Hr]]; [left; exact H | right].
  split; [exact Hp|].
  rewrite (Repeating.render_offset _ c) by reflexivity.
  destruct (Opt.animationCallback (options d)); [|exact Hr].
  rewrite Repeating.render_emit, Hr. reflexivity.
Qed.

Lemma shown_set_time (a b : num) (d : t) (c : Core) :
  shown d c -> shown (set_time a b d) c.
Proof.
  intros [H1 H2].
  assert (E : shownOffset (set_time a b d) c = shownOffset d c) by reflexivity.
  split; rewrite E; [exact H1|].
  destruct H2 as [H | [Hp Hr]]; [left; exact H | right].
  split; [exact Hp|].
  assert (R : renderHandlePosition (set_time a b d) c
              = set_time a b (renderHandlePosition d c)).
  { unfold renderHandlePosition. cbn [options set_time handleStyle].
    destruct (Opt.css3 (options d)); reflexivity. }
  rewrite R, Hr. reflexivity.
Qed.

Lemma truthy_positive (q : Q) : 0 < q -> truthy (Some q) = true.
Proof.
  intro H. unfold truthy. destruct (Qeq_bool q 0) eqn:E; [|reflexivity].
  apply Qeq_bool_iff in E. lra.
Qed.

(** One frame of an engine that glides. *)
Lemma frame_value (cur : Cursor) (d : t) (c : Core) (tx ty vx vy s t : Q) :
  gliding d c tx ty vx vy s -> 0 < s -> s < t ->
  exists d' c' vx' vy',
    animateWithRequestAnimationFrame (Some t) cur d = Ok d' /\
    gliding d' c' tx ty vx' vy' t /\
    options d' = options d /\ valuePrecision c' = valuePrecision c /\
    (Qabs (tx - vx) <= fst (valuePrecision c) /\
     Qabs (ty - vy) <= snd (valuePrecision c) -> vx' == tx /\ vy' == ty) /\
    (~ (Qabs (tx - vx) <= fst (valuePrecision c) /\
        Qabs (ty - vy) <= snd (valuePrecision c)) ->
     vx' == vx + (tx - vx) * qmin (Opt.speed (options d) * (t - s) / 25) 1 /\
     vy' == vy + (ty - vy) * qmin (Opt.speed (options d) * (t - s) / 25) 1) /\
    (shown d c \/ ~ (vx == tx /\ vy == ty) -> shown d' c').
Proof.
  intros (Hc & Hd & Htg & Hcu & Hs) Hs0 Hst.
  unfold animateWithRequestAnimationFrame.
  rewrite (truthy_positive t) by lra. rewrite Hs.
  rewrite (truthy_positive s) by exact Hs0.
  cbn [sub lift2].
  set (d1 := set_time (Some (t - s)) (Some t) d).
  unfold animate. cbn [andb]. unfold withCore.
  change (core d1) with (core d). rewrite Hc.
  change (dragging d1) with (dragging d). rewrite Hd. cbn [orb].
  destruct (glide_value d1 c tx ty vx vy (t - s) Htg Hcu eq_refl)
    as (vx' & vy' & G1 & G2 & G3 & G4 & G5).
  change (options d1) with (options d) in G5.
  pose proof (glide_idle d1 c tx ty vx vy Htg Hcu) as I.
  destruct (glide d1 c) as [g c1] eqn:Eg. cbn [fst snd] in G1, G2, G3, I.
  destruct g.
  - pose proof (update_value d1 c1) as (U1 & U2 & U3 & U4 & U5).
    pose proof (Repeating.update_shown d1 c1) as (US & _).
    destruct (updateOffsetFromValue d1 c1) as [d2 c2]. cbn [fst snd] in *.
    pose proof (animation_value d2 c2) as (A1 & A2 & A3 & A4 & A5 & A6).
    pose proof (animation_shown d2 c2 US) as AS.
    destruct (callAnimationCallback d2 c2) as [d3 c3]. cbn [fst snd] in *.
    exists (set_core c3 d3), c3, vx', vy'. split; [reflexivity|].
    split; [|split; [|split; [|split; [|split]]]];
      [| | | | | intros _; apply Repeating.shown_set_core; exact AS].
    + unfold gliding. cbn [core dragging timeStamp set_core].
      split; [reflexivity|]. split; [rewrite A2, U2; exact Hd|].
      split; [rewrite A4, U4; exact G1|]. split; [rewrite A5, U4; exact G2|].
      rewrite A3, U3. reflexivity.
    + cbn [options set_core]. rewrite A1, U1. reflexivity.
    + rewrite A6, U5. exact G3.
    + exact G4.
    + exact G5.
  - destruct (I eq_refl) as (Ic & Ix & Iy).
    exists (set_core c1 d1), c1, vx', vy'. split; [reflexivity|].
    split; [|split; [|split; [|split; [|split]]]].
    + unfold gliding. cbn [core dragging timeStamp set_core].
      split; [reflexivity|]. split; [exact Hd|].
      split; [exact G1|]. split; [exact G2|]. reflexivity.
    + reflexivity.
    + exact G3.
    + exact G4.
    + exact G5.
    + intros [S | N]; [|exfalso; apply N; split; assumption].
      rewrite Ic. apply Repeating.shown_set_core.
      apply shown_set_time. exact S.
Qed.

(** *** Arithmetic of the approach *)

Lemma qmin_mono (a b : Q) : a <= b -> qmin a 1 <= qmin b 1.
Proof.
  intro H. unfold qmin.
  destruct (Qle_bool a 1) eqn:Ea; destruct (Qle_bool b 1) eqn:Eb;
    try apply Qle_bool_iff in Ea; try apply Qle_bool_iff in Eb; try lra.
  apply Settling.Qle_bool_false in Ea. lra.
Qed.

Lemma rate_least (speed gap s t : Q) :
  0 < speed -> 0 < gap -> s + gap <= t ->
  0 < qmin (speed * gap / 25) 1 /\
  qmin (speed * gap / 25) 1 <= qmin (speed * (t - s) / 25) 1 /\
  qmin (speed * (t - s) / 25) 1 <= 1.
Proof.
  intros Hs Hg Ht.
  assert (P : 0 < speed * gap) by (apply Qmult_lt_0_compat; assumption).
  assert (M : speed * gap <= speed * (t - s)).
  { apply Qmult_le_l; [exact Hs | lra]. }
  split; [|split].
  - unfold qmin. destruct (Qle_bool (speed * gap / 25) 1); [|reflexivity].
    apply Qlt_shift_div_l; [reflexivity | lra].
  - apply qmin_mono. unfold Qdiv. apply Qmult_le_compat_r; [exact M | discriminate].
  - apply Gliding.qmin_le_1.
Qed.

Lemma closer (p r rho x : Q) (n : nat) :
  0 <= p -> 0 < r -> r <= rho -> rho <= 1 ->
  Qabs x <= p * (1 + inject_Z (Z.of_nat (S n)) * r) ->
  Qabs ((1 - rho) * x) <= p * (1 + inject_Z (Z.of_nat n) * r).
Proof.
  intros Hp Hr Hrho H1 Hx.
  assert (En : inject_Z (Z.of_nat (S n)) == inject_Z (Z.of_nat n) + 1).
  { rewrite Nat2Z.inj_succ. unfold Z.succ. rewrite inject_Z_plus. reflexivity. }
  rewrite En in Hx.
  assert (Hn : 0 <= inject_Z (Z.of_nat n)).
  { change 0 with (inject_Z 0). rewrite <- Zle_Qle. lia. }
  set (m := inject_Z (Z.of_nat n)) in *.
  rewrite Qabs_Qmult, (Qabs_pos (1 - rho)) by lra.
  pose proof (Qabs_nonneg x) as Hx0.
  apply Qle_trans with ((1 - r) * Qabs x).
  { apply Qmult_le_compat_r; [lra | exact Hx0]. }
  apply Qle_trans with ((1 - r) * (p * (1 + (m + 1) * r))).
  { rewrite !(Qmult_comm (1 - r)). apply Qmult_le_compat_r; [exact Hx | lra]. }
  assert (E : p * (1 + m * r) - (1 - r) * (p * (1 + (m + 1) * r))
              == p * ((m + 1) * (r * r))) by ring.
  assert (G : 0 <= p * ((m + 1) * (r * r))).
  { apply Qmult_le_0_compat; [exact Hp|].
    apply Qmult_le_0_compat; [lra|].
    apply Qmult_le_0_compat; lra. }
  lra.
Qed.

Lemma within_reach (a p r : Q) :
  0 <= a -> 0 <= p -> (p == 0 -> a == 0) -> 0 < r ->
  exists n : nat, forall m : nat, (n <= m)%nat ->
    a <= p * (1 + inject_Z (Z.of_nat m) * r).
Proof.
  intros Ha Hp Hz Hr.
  destruct (Qeq_dec p 0) as [E|E].
  - exists 0%nat. intros m _. rewrite (Hz E), E. lra.
  - assert (Hp' : 0 < p) by (apply Qle_lteq in Hp; destruct Hp as [H|H];
                             [exact H | exfalso; apply E; symmetry; exact H]).
    assert (Hpr : 0 < p * r) by (apply Qmult_lt_0_compat; assumption).
    exists (Z.to_nat (Qceiling (a / (p * r)))). intros m Hm.
    pose proof (Qle_ceiling (a / (p * r))) as C.
    assert (M : inject_Z (Qceiling (a / (p * r))) <= inject_Z (Z.of_nat m)).
    { rewrite <- Zle_Qle. lia. }
    assert (A : a == a / (p * r) * (p * r)) by (field; split; lra).
    assert (B : a / (p * r) * (p * r) <= inject_Z (Z.of_nat m) * (p * r)).
    { apply Qmult_le_compat_r; lra. }
    assert (F : p * (1 + inject_Z (Z.of_nat m) * r)
                == p + inject_Z (Z.of_nat m) * (p * r)) by ring.
    rewrite F. lra.
Qed.

(** *** Frame after frame *)

(** An engine that reached its target stays there. *)
Lemma rest_stays (cur : Cursor) (tx ty gap : Q) (times : list Q) :
  0 < gap ->
  forall (d : t) (c : Core) (vx vy s : Q),
    gliding d c tx ty vx vy s -> 0 < s ->
    0 <= fst (valuePrecision c) -> 0 <= snd (valuePrecision c) ->
    vx == tx -> vy == ty -> paced gap s times ->
    exists d' c' vx' vy' s',
      frames (map Some times) cur d = Ok d' /\
      gliding d' c' tx ty vx' vy' s' /\ vx' == tx /\ vy' == ty /\
      (shown d c -> shown d' c').
Proof.
  intro Hg. induction times as [|t rest IH];
    intros d c vx vy s G Hs Hpx Hpy Ex Ey Hp.
  - exists d, c, vx, vy, s. cbn [map frames]. auto.
  - destruct Hp as [Ht Hrest].
    destruct (frame_value cur d c tx ty vx vy s t G Hs)
      as (d1 & c1 & vx1 & vy1 & F & G1 & O1 & P1 & W & _ & S1); [lra|].
    destruct W as [Ex1 Ey1].
    { split; apply Qabs_Qle_condition; split; lra. }
    cbn [map frames]. rewrite F. cbn [bind].
    destruct (IH d1 c1 vx1 vy1 t) as (d' & c' & vx' & vy' & s' & F' & G' & X' & Y' & S');
      try assumption; try lra; try (rewrite P1; assumption).
    exists d', c', vx', vy', s'. repeat (split; [assumption|]).
    intro S. apply S', S1. left. exact S.
Qed.

(** From within [n] steps of the precision, [n + 1] frames are enough. *)
Lemma reach (cur : Cursor) (tx ty gap speed px py : Q) :
  0 < gap -> 0 < speed -> 0 <= px -> 0 <= py ->
  forall (n : nat) (times : list Q) (d : t) (c : Core) (vx vy s : Q),
    gliding d c tx ty vx vy s -> 0 < s ->
    Opt.speed (options d) = speed -> valuePrecision c = (px, py) ->
    Qabs (tx - vx) <= px * (1 + inject_Z (Z.of_nat n) * qmin (speed * gap / 25) 1) ->
    Qabs (ty - vy) <= py * (1 + inject_Z (Z.of_nat n) * qmin (speed * gap / 25) 1) ->
    paced gap s times -> (S n <= length times)%nat ->
    exists d' c' vx' vy' s',
      frames (map Some times) cur d = Ok d' /\
      gliding d' c' tx ty vx' vy' s' /\ vx' == tx /\ vy' == ty /\
      (shown d c \/ ~ (vx == tx /\ vy == ty) -> shown d' c').
Proof.
  intros Hg Hsp Hpx Hpy.
  induction n as [|n IH]; intros times d c vx vy s G Hs Ho Hv Cx Cy Hp Hl;
    (destruct times as [|t rest]; [cbn in Hl; lia|]); destruct Hp as [Ht Hrest];
    (destruct (frame_value cur d c tx ty vx vy s t G Hs)
       as (d1 & c1 & vx1 & vy1 & F & G1 & O1 & P1 & W & M & S1); [lra|]);
    cbn [map frames]; rewrite F; cbn [bind];
    rewrite Hv in W, M; cbn [fst snd] in W, M.
  - destruct W as [Ex Ey].
    { change (inject_Z (Z.of_nat 0)) with 0 in Cx, Cy. split; lra. }
    destruct (rest_stays cur tx ty gap rest Hg d1 c1 vx1 vy1 t)
      as (d' & c' & vx' & vy' & s' & F' & G' & X' & Y' & S');
      try assumption; try lra; try (rewrite P1, Hv; assumption).
    exists d', c', vx', vy', s'. repeat (split; [assumption|]).
    intro S. apply S', S1, S.
  - assert (Near : Qabs (tx - vx) <= px /\ Qabs (ty - vy) <= py ->
                   exists d' c' vx' vy' s',
                     frames (map Some rest) cur d1 = Ok d' /\
                     gliding d' c' tx ty vx' vy' s' /\ vx' == tx /\ vy' == ty /\
                     (shown d c \/ ~ (vx == tx /\ vy == ty) -> shown d' c')).
    { intro N. destruct (W N) as [Ex Ey].
      destruct (rest_stays cur tx ty gap rest Hg d1 c1 vx1 vy1 t)
        as (d' & c' & vx' & vy' & s' & F' & G' & X' & Y' & S');
        try assumption; try lra; try (rewrite P1, Hv; assumption).
      exists d', c', vx', vy', s'. repeat (split; [assumption|]).
      intro S. apply S', S1, S. }
    assert (Far : ~ (Qabs (tx - vx) <= px /\ Qabs (ty - vy) <= py) ->
                  exists d' c' vx' vy' s',
                    frames (map Some rest) cur d1 = Ok d' /\
                    gliding d' c' tx ty vx' vy' s' /\ vx' == tx /\ vy' == ty /\
                    (shown d c \/ ~ (vx == tx /\ vy == ty) -> shown d' c')).
    { intro N. destruct (M N) as [Mx My]. rewrite Ho in Mx, My.
      destruct (rate_least speed gap s t Hsp Hg Ht) as (R0 & R1 & R2).
      destruct (IH rest d1 c1 vx1 vy1 t)
        as (d' & c' & vx' & vy' & s' & F' & G' & X' & Y' & S');
        try assumption; try lra.
      - rewrite O1. exact Ho.
      - rewrite P1. exact Hv.
      - assert (E : tx - vx1
                    == (1 - qmin (speed * (t - s) / 25) 1) * (tx - vx))
          by (rewrite Mx; ring).
        rewrite E. apply closer; assumption.
      - assert (E : ty - vy1
                    == (1 - qmin (speed * (t - s) / 25) 1) * (ty - vy))
          by (rewrite My; ring).
        rewrite E. apply closer; assumption.
      - cbn [length] in Hl. lia.
      - exists d', c', vx', vy', s'. repeat (split; [assumption|]).
        intro S. apply S'. left. apply S1, S. }
    destruct (Qlt_le_dec px (Qabs (tx - vx))) as [Fx|Ix].
    + apply Far. intros [H _]. lra.
    + destruct (Qlt_le_dec py (Qabs (ty - vy))) as [Fy|Iy].
      * apply Far. intros [_ H]. lra.
      * apply Near. split; assumption.
Qed.

(** X21.  The animation comes to rest on the target.  An engine that
    is not dragged, with a speed above 0 and a value precision that is
    0 only on an axis where the value is on its target already, has
    the target as its current value after enough frames, however the
    frames are timed as long as their time stamps grow by at least
    some gap: every frame completes, the target stays, further frames
    leave the value there, and the handle shows that value if there
    was a distance to go or the handle showed the value before. *)
Theorem glide_reaches_target (cur : Cursor) (d : t) (c : Core)
    (tx ty ux uy t0 gap : Q) :
  gliding d c tx ty ux uy t0 -> 0 < t0 -> 0 < gap ->
  0 < Opt.speed (options d) ->
  0 <= fst (valuePrecision c) -> 0 <= snd (valuePrecision c) ->
  (fst (valuePrecision c) == 0 -> tx == ux) ->
  (snd (valuePrecision c) == 0 -> ty == uy) ->
  exists N : nat, forall times : list Q,
    (N <= length times)%nat -> paced gap t0 times ->
    exists d' c' vx vy s,
      frames (map Some times) cur d = Ok d' /\
      gliding d' c' tx ty vx vy s /\ vx == tx /\ vy == ty /\
      (shown d c \/ ~ (ux == tx /\ uy == ty) -> shown d' c').
Proof.
  intros G Ht0 Hg Hsp Hpx Hpy Zx Zy.
  destruct (rate_least (Opt.speed (options d)) gap 0 gap Hsp Hg) as (R0 & _);
    [lra|].
  destruct (within_reach (Qabs (tx - ux)) (fst (valuePrecision c))
              (qmin (Opt.speed (options d) * gap / 25) 1))
    as (nx & Hnx); [apply Qabs_nonneg | exact Hpx | | exact R0 |].
  { intro E. assert (D : tx - ux == 0) by (rewrite (Zx E); ring).
    rewrite D. reflexivity. }
  destruct (within_reach (Qabs (ty - uy)) (snd (valuePrecision c))
              (qmin (Opt.speed (options d) * gap / 25) 1))
    as (ny & Hny); [apply Qabs_nonneg | exact Hpy | | exact R0 |].
  { intro E. assert (D : ty - uy == 0) by (rewrite (Zy E); ring).
    rewrite D. reflexivity. }
  exists (S (Nat.max nx ny)). intros times Hl Hp.
  apply (reach cur tx ty gap (Opt.speed (options d))
           (fst (valuePrecision c)) (snd (valuePrecision c)) Hg Hsp Hpx Hpy
           (Nat.max nx ny) times d c ux uy t0); try assumption.
  - reflexivity.
  - destruct (valuePrecision c). reflexivity.
  - apply Hnx. lia.
  - apply Hny. lia.
Qed.

(** The sample slider asked for the middle, its frames at least 16 ms
    apart. *)
Lemma glide_reaches_target_witness :
  let d := set_time (Some 0) (Some 1000)
             (state_of (setValue (Some (1 # 2)) (Some 0) false
                          (Samples.engine Opt.defaults))) in
  exists N : nat, forall times : list Q,
    (N <= length times)%nat -> paced 16 1000 times ->
    exists d' c' vx vy s,
      frames (map Some times) Samples.cursor0 d = Ok d' /\
      gliding d' c' (1 # 2) 0 vx vy s /\ vx == 1 # 2 /\ vy == 0 /\
      shown d' c'.
Proof.
  intro d.
  destruct (core d) as [c|] eqn:E; [|vm_compute in E; discriminate E].
  assert (Htg : Value.target (value c) = (Some (1 # 2), Some 0))
    by (vm_compute in E; injection E as <-; reflexivity).
  assert (Hcu : Value.current (value c) = (Some 0, Some 0))
    by (vm_compute in E; injection E as <-; reflexivity).
  assert (Hp : valuePrecision c = (1 # 150, 0))
    by (vm_compute in E; injection E as <-; reflexivity).
  assert (Hd : dragging d = false) by (vm_compute; reflexivity).
  assert (Hs : Opt.speed (options d) = 1 # 10) by (vm_compute; reflexivity).
  destruct (glide_reaches_target Samples.cursor0 d c (1 # 2) 0 0 0 1000 16)
    as (N & H).
  - unfold gliding. split; [exact E|]. split; [exact Hd|].
    split; [exact Htg|]. split; [exact Hcu|]. reflexivity.
  - reflexivity.
  - reflexivity.
  - rewrite Hs. reflexivity.
  - rewrite Hp. discriminate.
  - rewrite Hp. discriminate.
  - rewrite Hp. intro H. vm_compute in H. discriminate H.
  - intros _. reflexivity.
  - exists N. intros times Hl Hpaced.
    destruct (H times Hl Hpaced) as (d' & c' & vx & vy & s & F & G & X & Y & S).
    exists d', c', vx, vy, s. repeat (split; [assumption|]).
    apply S. right. intros [A _]. vm_compute in A. discriminate A.
Defined.

End Frames.

(** ** Tapping the track *)

Module Tapping.

Import Dragdealer Vocabulary.
Local Open Scope Q_scope.

Lemma ratio_finite (off range padding : Q) :
  exists r, getRatioByOffset (Some off) range padding = Some r.
Proof.
  unfold getRatioByOffset. destruct (qtruthy range); eexists; reflexivity.
Qed.





End Tapping.

(** ** What a resize leaves alone *)

Module Resizing.

Import Vocabulary.
Module HSN := HorizontalSlideNavi.
Module DPN := DesktopPaginationNavi.

(** *** Relations that the steps of the mobile branch respect *)

Section Steps.

Variable R : Pagination.t -> Pagination.t -> Prop.
Hypothesis R_refl : forall p, R p p.
Hypothesis R_trans : forall p q r, R p q -> R q r -> R p r.
Hypothesis R_slideNavi : forall h p, R p (Pagination.set_slideNavi h p).
Hypothesis R_items : forall k p, R p (Pagination.set_slideNaviListItems k p).
Hypothesis R_onBtn : forall b p, R p (Pagination.set_slideOnBtn b p).
Hypothesis R_width : forall w p, R p (Pagination.set_slideItemWidth w p).

Lemma kept_bind (p : Pagination.t) (m : outcome Pagination.t)
    (f : Pagination.t -> outcome Pagination.t) :
  R p (state_of m) ->
  (forall q, R q (state_of (f q))) ->
  R p (state_of (m >>= f)).
Proof.
  intros Hm Hf. destruct m as [a|a]; cbn [bind state_of] in *; [|exact Hm].
  exact (R_trans p a _ Hm (Hf a)).
Qed.

Lemma kept_onSlideNavi (f : HSN.t -> outcome HSN.t) (p : Pagination.t) :
  R p (state_of (Pagination.onSlideNavi f p)).
Proof.
  unfold Pagination.onSlideNavi.
  destruct (Pagination.slideNavi p) as [h|]; [|apply R_refl].
  destruct (f h); apply R_slideNavi.
Qed.

Lemma kept_width (env : Pagination.Env) (n : nat) (p : Pagination.t) :
  R p (state_of (Pagination.setSlideNaviListItemsWidth env n p)).
Proof.
  unfold Pagination.setSlideNaviListItemsWidth.
  destruct (Pagination.slideNaviListItems p) as [[|k]|];
    cbn [state_of]; [apply R_refl | apply R_width | apply R_refl].
Qed.

Lemma kept_slideActivate (i : Z) (p : Pagination.t) :
  R p (state_of (Pagination.slideActivate i p)).
Proof.
  unfold Pagination.slideActivate.
  destruct (Pagination.slideNavi p) as [h|]; [|apply R_refl].
  unfold HSN.activate, Navi.activate.
  destruct (Navi.activateCallback (HSN.navi h));
    cbn [state_of Pagination.runSlideCalls Navi.call Navi.invoke].
  - eapply R_trans; [apply R_onBtn | apply R_slideNavi].
  - apply R_slideNavi.
Qed.

Lemma kept_setSlideNavi (env : Pagination.Env) (p : Pagination.t) :
  R p (state_of (Pagination.setSlideNavi env p)).
Proof.
  unfold Pagination.setSlideNavi. apply kept_bind.
  - eapply R_trans; [apply R_items | apply kept_width].
  - intro q. apply kept_bind.
    + eapply R_trans; [apply R_slideNavi | apply kept_onSlideNavi].
    + intro r. destruct (Pagination.mobileItems env <=? 2)%nat;
        [apply kept_onSlideNavi | apply R_refl].
Qed.

Lemma kept_position (env : Pagination.Env) (i : Z) (p : Pagination.t) :
  R p (state_of (Pagination.setSlidePositionByIndex env i p)).
Proof.
  unfold Pagination.setSlidePositionByIndex.
  destruct (Pagination.slideNavi p) as [h0|]; [|apply R_refl].
  apply kept_bind; [apply kept_slideActivate|].
  intro q. destruct (Pagination.slideNavi q) as [h|]; [|apply R_refl].
  destruct ((i <? 1) || (Z.of_nat (length (HSN.getBtns h)) <? i))%Z;
    [apply R_refl|].
  destruct ((if i <=? 1 then 0 else i - 1) =? 0)%Z; [apply kept_onSlideNavi|].
  destruct ((if Z.of_nat (length (HSN.getBtns h)) <? i then 0 else i + 1) =? 0)%Z;
    [apply kept_onSlideNavi|].
  destruct (HSN.getBtn _ h); [apply kept_onSlideNavi | apply R_refl].
Qed.

(** The steps of [resizeMobile] after the desktop navigator is gone. *)
Lemma kept_mobile (isTablet : bool) (env : Pagination.Env) (q1 : Pagination.t) :
  R q1
    (state_of
       ((match Pagination.slideNavi q1 with
         | None => Pagination.setSlideNavi env q1
         | Some _ => Ok q1
         end) >>= fun p =>
        Pagination.slideActivate (Pagination.currentIndex p) p >>= fun p =>
        Pagination.setSlidePositionByIndex env (Pagination.currentIndex p) p >>= fun p =>
        match Pagination.slideNaviListItems p with
        | None => Throw p
        | Some len =>
            (if isTablet
             then if (2 <? len)%nat then Pagination.onSlideNavi HSN.enable p else Ok p
             else Pagination.onSlideNavi HSN.disable p) >>= fun p =>
            Pagination.setSlideNaviListItemsWidth env len p
        end)).
Proof.
  apply kept_bind.
  - destruct (Pagination.slideNavi q1); [apply R_refl | apply kept_setSlideNavi].
  - intro q2. apply kept_bind; [apply kept_slideActivate|].
    intro q3. apply kept_bind; [apply kept_position|].
    intro q4. destruct (Pagination.slideNaviListItems q4) as [len|];
      [|apply R_refl].
    apply kept_bind; [|intro q5; apply kept_width].
    destruct isTablet; [|apply kept_onSlideNavi].
    destruct (2 <? len)%nat; [apply kept_onSlideNavi | apply R_refl].
Qed.

End Steps.

Lemma carried_refl (p : Pagination.t) : carried p p.
Proof. repeat split. Qed.

Lemma carried_trans (p q r : Pagination.t) :
  carried p q -> carried q r -> carried p r.
Proof.
  intros (A1 & A2 & A3 & A4 & A5) (B1 & B2 & B3 & B4 & B5).
  repeat split; congruence.
Qed.

Lemma carried_onDesktopNavi (f : DPN.t -> outcome DPN.t) (p : Pagination.t) :
  carried p (state_of (Pagination.onDesktopNavi f p)).
Proof.
  unfold Pagination.onDesktopNavi.
  destruct (Pagination.desktopNavi p) as [d|]; [|apply carried_refl].
  destruct (f d); repeat split.
Qed.

Lemma carried_resizeDesktop (env : Pagination.Env) (p : Pagination.t) :
  carried p (state_of (Pagination.resizeDesktop env p)).
Proof.
  unfold Pagination.resizeDesktop.
  apply (kept_bind carried carried_trans).
  - destruct (Pagination.slideNavi p); [|apply carried_refl].
    apply (kept_bind carried carried_trans).
    + apply (kept_onSlideNavi carried carried_refl); repeat split.
    + intro q. repeat split.
  - intro q.
    match goal with |- carried q (state_of (Pagination.onDesktopNavi ?f ?q')) =>
      apply (carried_trans q q'); [|apply carried_onDesktopNavi] end.
    destruct (Pagination.desktopNavi q); repeat split.
Qed.

Lemma carried_resizeMobile (isTablet : bool) (env : Pagination.Env) (p : Pagination.t) :
  carried p (state_of (Pagination.resizeMobile isTablet env p)).
Proof.
  unfold Pagination.resizeMobile.
  apply (kept_bind carried carried_trans).
  - destruct (Pagination.desktopNavi p); [|apply carried_refl].
    apply (kept_bind carried carried_trans); [apply carried_onDesktopNavi|].
    intro q. repeat split.
  - intro q1.
    apply (kept_mobile carried carried_refl carried_trans); repeat split.
Qed.

(** *** The navigator a completed resize leaves *)

Lemma bind_ok (m : outcome Pagination.t) (f : Pagination.t -> outcome Pagination.t)
    (b : Pagination.t) :
  m >>= f = Ok b -> exists a, m = Ok a /\ f a = Ok b.
Proof.
  destruct m as [a|a]; cbn [bind]; [|discriminate].
  intro H. exists a. split; [reflexivity | exact H].
Qed.

Lemma desktop_left (env : Pagination.Env) (p p' : Pagination.t) :
  Pagination.resizeDesktop env p = Ok p' ->
  Pagination.slideNavi p' = None /\
  exists d, Pagination.desktopNavi p' = Some d.
Proof.
  unfold Pagination.resizeDesktop. intro H.
  apply bind_ok in H. destruct H as (q & Hq & H).
  assert (Hs : Pagination.slideNavi q = None).
  { destruct (Pagination.slideNavi p) eqn:E.
    - apply bind_ok in Hq. destruct Hq as (r & _ & Hr).
      injection Hr as <-. reflexivity.
    - injection Hq as <-. exact E. }
  unfold Pagination.onDesktopNavi in H.
  destruct (Pagination.desktopNavi q) as [d|] eqn:Ed.
  - rewrite Ed in H. cbn [lift] in H. injection H as <-.
    split; [exact Hs | eexists; reflexivity].
  - cbn [Pagination.desktopNavi Pagination.setDesktopNavi
         Pagination.set_desktopNavi lift] in H.
    injection H as <-. split; [exact Hs | eexists; reflexivity].
Qed.

Lemma onSlideNavi_left (f : HSN.t -> outcome HSN.t) (p p' : Pagination.t) :
  Pagination.onSlideNavi f p = Ok p' ->
  exists h, Pagination.slideNavi p' = Some h.
Proof.
  unfold Pagination.onSlideNavi.
  destruct (Pagination.slideNavi p) as [h|]; [|discriminate].
  destruct (f h) as [h'|h']; cbn [lift]; [|discriminate].
  intro H. injection H as <-. eexists. reflexivity.
Qed.

Lemma slideActivate_left (i : Z) (p p' : Pagination.t) :
  Pagination.slideActivate i p = Ok p' ->
  exists h, Pagination.slideNavi p' = Some h.
Proof.
  unfold Pagination.slideActivate.
  destruct (Pagination.slideNavi p) as [h|]; [|discriminate].
  destruct (HSN.activate i h) as [calls h'].
  intro H. injection H as <-. eexists. reflexivity.
Qed.

Lemma position_left (env : Pagination.Env) (i : Z) (p p' : Pagination.t) :
  Pagination.setSlidePositionByIndex env i p = Ok p' ->
  (exists h, Pagination.slideNavi p = Some h) ->
  exists h, Pagination.slideNavi p' = Some h.
Proof.
  unfold Pagination.setSlidePositionByIndex. intros H [h0 E0]. rewrite E0 in H.
  apply bind_ok in H. destruct H as (q & Hq & H).
  destruct (Pagination.slideNavi q) as [h|] eqn:E; [|discriminate].
  destruct ((i <? 1) || (Z.of_nat (length (HSN.getBtns h)) <? i))%Z.
  { injection H as <-. eexists. exact E. }
  destruct ((if i <=? 1 then 0 else i - 1) =? 0)%Z.
  { exact (onSlideNavi_left _ _ _ H). }
  destruct ((if Z.of_nat (length (HSN.getBtns h)) <? i then 0 else i + 1) =? 0)%Z.
  { exact (onSlideNavi_left _ _ _ H). }
  destruct (HSN.getBtn _ h).
  - exact (onSlideNavi_left _ _ _ H).
  - injection H as <-. eexists. exact E.
Qed.

Lemma width_left (env : Pagination.Env) (n : nat) (p p' : Pagination.t) :
  Pagination.setSlideNaviListItemsWidth env n p = Ok p' ->
  Pagination.slideNavi p' = Pagination.slideNavi p.
Proof.
  unfold Pagination.setSlideNaviListItemsWidth.
  destruct (Pagination.slideNaviListItems p) as [[|k]|]; [| |discriminate];
    intro H; injection H as <-; reflexivity.
Qed.

Lemma mobile_left (isTablet : bool) (env : Pagination.Env) (p p' : Pagination.t) :
  Pagination.resizeMobile isTablet env p = Ok p' ->
  Pagination.desktopNavi p' = None /\
  exists h, Pagination.slideNavi p' = Some h.
Proof.
  intro H. split.
  - (* the desktop navigator is dropped first and not touched again *)
    pose proof (kept_mobile
                  (fun p q => Pagination.desktopNavi q = Pagination.desktopNavi p)
                  (fun p => eq_refl)
                  (fun p q r A B => eq_trans B A)
                  (fun h p => eq_refl) (fun k p => eq_refl)
                  (fun b p => eq_refl) (fun w p => eq_refl) isTablet env) as K.
    unfold Pagination.resizeMobile in H.
    apply bind_ok in H. destruct H as (q1 & Hq1 & H).
    specialize (K q1). cbv beta in K. rewrite H in K. cbn [state_of] in K.
    rewrite K.
    destruct (Pagination.desktopNavi p) eqn:E.
    + apply bind_ok in Hq1. destruct Hq1 as (r & _ & Hr).
      injection Hr as <-. reflexivity.
    + injection Hq1 as <-. exact E.
  - unfold Pagination.resizeMobile in H.
    apply bind_ok in H. destruct H as (q1 & _ & H).
    apply bind_ok in H. destruct H as (q2 & _ & H).
    apply bind_ok in H. destruct H as (q3 & H3 & H).
    apply bind_ok in H. destruct H as (q4 & H4 & H).
    pose proof (position_left _ _ _ _ H4 (slideActivate_left _ _ _ H3)) as S4.
    destruct (Pagination.slideNaviListItems q4) as [len|]; [|discriminate].
    apply bind_ok in H. destruct H as (q5 & H5 & H).
    rewrite (width_left _ _ _ _ H).
    destruct isTablet; [|exact (onSlideNavi_left _ _ _ H5)].
    destruct (2 <? len)%nat; [exact (onSlideNavi_left _ _ _ H5)|].
    injection H5 as <-. exact S4.
Qed.

(** X24.  [resize()], whether it completes or raises a TypeError on the
    way, never changes the current index, triggers no CLICK_PAGE_BTN
    event and binds or unbinds no handler of the controller; so the
    mobile prev and next buttons stay as [init()] left them.  When it
    completes, the controller holds exactly one navigator: the desktop
    one if the viewport is at least [pc] (or [max]) wide, and the
    mobile one otherwise. *)
Theorem resize_carries (env : Pagination.Env) (p : Pagination.t) :
  carried p (state_of (Pagination.resize env p)) /\
  forall p', Pagination.resize env p = Ok p' ->
    if Pagination.reaches (Helpers.max (Pagination.breakpoint p))
         (Pagination.innerWidth env)
       || Pagination.reaches (Helpers.pc (Pagination.breakpoint p))
            (Pagination.innerWidth env)
    then Pagination.slideNavi p' = None /\
         exists d, Pagination.desktopNavi p' = Some d
    else Pagination.desktopNavi p' = None /\
         exists h, Pagination.slideNavi p' = Some h.
Proof.
  unfold Pagination.resize.
  destruct (Pagination.reaches (Helpers.max (Pagination.breakpoint p))
              (Pagination.innerWidth env)).
  { split; [apply carried_resizeDesktop | intro p'; apply desktop_left]. }
  destruct (Pagination.reaches (Helpers.pc (Pagination.breakpoint p))
              (Pagination.innerWidth env)).
  { split; [apply carried_resizeDesktop | intro p'; apply desktop_left]. }
  cbn [orb].
  destruct (Pagination.reaches (Helpers.tablet (Pagination.breakpoint p))
              (Pagination.innerWidth env));
    (split; [apply carried_resizeMobile | intro p'; apply mobile_left]).
Qed.

(** A page of five items set up at 1000 pixels and then seen at 320: the
    mobile strip takes over, page 1 stays the current one, and the mobile
    prev and next buttons are still unbound. *)
Lemma resize_carries_witness :
  let p := Samples.controller 5 1000 in
  exists p' h,
    Pagination.resize (Samples.page 5 320) p = Ok p' /\
    Pagination.desktopNavi p' = None /\
    Pagination.slideNavi p' = Some h /\
    Pagination.currentIndex p' = 1%Z /\
    Pagination.mobilePrevNext p' = false.
Proof.
  intro p.
  destruct (resize_carries (Samples.page 5 320) p) as [C S].
  destruct (Pagination.resize (Samples.page 5 320) p) as [p'|p'] eqn:E;
    [|vm_compute in E; discriminate E].
  specialize (S p' eq_refl).
  assert (Hw : Pagination.reaches (Helpers.max (Pagination.breakpoint p))
                 (Pagination.innerWidth (Samples.page 5 320))
               || Pagination.reaches (Helpers.pc (Pagination.breakpoint p))
                    (Pagination.innerWidth (Samples.page 5 320)) = false)
    by (vm_compute; reflexivity).
  rewrite Hw in S. destruct S as [Sd [h Sh]].
  cbn [state_of] in C. destruct C as (C1 & _ & C3 & _).
  exists p', h. split; [reflexivity|]. split; [exact Sd|]. split; [exact Sh|].
  split.
  - rewrite C1. vm_compute. reflexivity.
  - rewrite C3. vm_compute. reflexivity.
Defined.

End Resizing.

(** ** Activating a page from outside *)

Module Activating.

Import Vocabulary.
Module HSN := HorizontalSlideNavi.
Module DPN := DesktopPaginationNavi.

Lemma onDragDealer_navi (f : Dragdealer.t -> outcome Dragdealer.t) (h h' : HSN.t) :
  HSN.onDragDealer f h = Ok h' -> HSN.navi h' = HSN.navi h.
Proof.
  unfold HSN.onDragDealer. destruct (HSN.dragDealer h) as [d|]; [|discriminate].
  destruct (f d); cbn [lift]; [|discriminate].
  intro H. injection H as <-. reflexivity.
Qed.

Lemma setX_navi (x : num) (h h' : HSN.t) :
  HSN.setX x h = Ok h' -> HSN.navi h' = HSN.navi h.
Proof.
  unfold HSN.setX, HSN.setValue.
  destruct (HSN.dragDealer h) as [d|] eqn:E; [|discriminate].
  destruct (Dragdealer.core d); [|discriminate].
  apply onDragDealer_navi.
Qed.

(** A method of the slide navigator that keeps its [Navi] part. *)
Lemma onSlideNavi_navi (f : HSN.t -> outcome HSN.t) (p p' : Pagination.t) (h : HSN.t) :
  (forall h', f h = Ok h' -> HSN.navi h' = HSN.navi h) ->
  Pagination.slideNavi p = Some h ->
  Pagination.onSlideNavi f p = Ok p' ->
  exists h', Pagination.slideNavi p' = Some h' /\ HSN.navi h' = HSN.navi h /\
             Pagination.slideOnBtn p' = Pagination.slideOnBtn p.
Proof.
  intros Hf Hs. unfold Pagination.onSlideNavi. rewrite Hs.
  destruct (f h) as [h'|h'] eqn:E; cbn [lift]; [|discriminate].
  intro H. injection H as <-. exists h'.
  split; [reflexivity|]. split; [apply Hf; reflexivity | reflexivity].
Qed.

(** The navigator after [setSlidePositionByIndex]. *)
Lemma position_navi (env : Pagination.Env) (i : Z) (p p' : Pagination.t) (h : HSN.t) :
  Pagination.slideNavi p = Some h ->
  Pagination.slideOnBtn p = HSN.getBtn i h ->
  Pagination.setSlidePositionByIndex env i p = Ok p' ->
  exists h', Pagination.slideNavi p' = Some h' /\
             HSN.navi h' = snd (Navi.activate i (HSN.navi h)) /\
             Pagination.slideOnBtn p' = HSN.getBtn i h.
Proof.
  intros Hs Hon. unfold Pagination.setSlidePositionByIndex. rewrite Hs.
  unfold Pagination.slideActivate. rewrite Hs.
  unfold HSN.activate.
  destruct (Navi.activate i (HSN.navi h)) as [calls n'] eqn:En.
  cbn [bind snd].
  set (q := Pagination.set_slideNavi (Some (HSN.set_navi n' h))
              (Pagination.runSlideCalls calls h p)).
  assert (Hq : Pagination.slideNavi q = Some (HSN.set_navi n' h)) by reflexivity.
  assert (Hb : Pagination.slideOnBtn q = HSN.getBtn i h).
  { unfold q. cbn [Pagination.slideOnBtn Pagination.set_slideNavi].
    revert En. unfold Navi.activate.
    destruct (Navi.activateCallback (HSN.navi h)); intro En;
      injection En as <- <-;
      cbn [Pagination.runSlideCalls Navi.call Navi.invoke];
      [|exact Hon].
    unfold Pagination.activateSlideNaviBtn.
    cbn [Pagination.slideOnBtn Pagination.set_slideOnBtn].
    unfold HSN.getBtn, Navi.getBtn.
    destruct ((i <=? 0) || (Z.of_nat (length (Navi.btns (HSN.navi h))) <? i))%Z eqn:Ei;
      [|reflexivity].
    destruct (Z.ltb_spec (i - 1) 0) as [L|L]; [reflexivity|].
    destruct (Z.leb_spec (Z.of_nat (length (Navi.btns (HSN.navi h)))) (i - 1)) as [M|M];
      [reflexivity|].
    apply orb_true_iff in Ei. destruct Ei as [Ei|Ei];
      [apply Z.leb_le in Ei | apply Z.ltb_lt in Ei]; lia. }
  rewrite Hq.
  assert (Done : exists h', Pagination.slideNavi q = Some h' /\
                   HSN.navi h' = n' /\ Pagination.slideOnBtn q = HSN.getBtn i h).
  { exists (HSN.set_navi n' h). split; [exact Hq|]. split; [reflexivity | exact Hb]. }
  assert (Moved : forall f,
             (forall h', f (HSN.set_navi n' h) = Ok h' ->
                         HSN.navi h' = HSN.navi (HSN.set_navi n' h)) ->
             Pagination.onSlideNavi f q = Ok p' ->
             exists h', Pagination.slideNavi p' = Some h' /\
                        HSN.navi h' = n' /\ Pagination.slideOnBtn p' = HSN.getBtn i h).
  { intros f Hf H.
    destruct (onSlideNavi_navi f q p' _ Hf Hq H) as (h' & H1 & H2 & H3).
    exists h'. split; [exact H1|]. split; [exact H2 | congruence]. }
  destruct ((i <? 1) || (Z.of_nat (length (HSN.getBtns (HSN.set_navi n' h))) <? i))%Z.
  { intro H. injection H as <-. exact Done. }
  destruct ((if i <=? 1 then 0 else i - 1) =? 0)%Z.
  { apply Moved. intros h'. apply onDragDealer_navi. }
  destruct ((if Z.of_nat (length (HSN.getBtns (HSN.set_navi n' h))) <? i
             then 0 else i + 1) =? 0)%Z.
  { apply Moved. intros h'. apply onDragDealer_navi. }
  destruct (HSN.getBtn _ (HSN.set_navi n' h)).
  - apply Moved. intros h'. apply setX_navi.
  - intro H. injection H as <-. exact Done.
Qed.

Lemma position_keeps_navi (d : DPN.t) :
  DPN.navi (DPN.setNaviListItemsPosition d) = DPN.navi d.
Proof.
  unfold DPN.setNaviListItemsPosition.
  destruct (_ <=? 0)%Z; [reflexivity|].
  destruct (_ <=? DPN.DISPLAY_BTN_NUM)%Z; reflexivity.
Qed.

Lemma switchBtns_navi (direction : option DPN.Direction) (i : Z) (d d' : DPN.t) :
  Pagination.switchBtns direction i d = Ok d' -> DPN.navi d' = DPN.navi d.
Proof.
  unfold Pagination.switchBtns, DPN.switchBtns.
  destruct (_ <=? DPN.DISPLAY_BTN_NUM)%Z; [intro H; injection H as <-; reflexivity|].
  destruct direction as [dir|]; [|intro H; injection H as <-; reflexivity].
  destruct (Helpers.isIndexInLoop _ _ _ _); [intro H; injection H as <-; reflexivity|].
  destruct (DPN.navi d) eqn:E; [|discriminate].
  intro H. injection H as <-. rewrite position_keeps_navi. exact E.
Qed.

(** The desktop part of [activate]. *)
Lemma desktop_part (direction : option DPN.Direction) (i : Z)
    (q q' : Pagination.t) (d : DPN.t) :
  Pagination.desktopNavi q = Some d ->
  ((match direction with
    | Some _ => Pagination.onDesktopNavi (Pagination.switchBtns direction i) q
    | None => Ok q
    end) >>= fun p =>
   Pagination.onDesktopNavi (fun d => Ok (DPN.activate i d)) p) = Ok q' ->
  exists d1, DPN.navi d1 = DPN.navi d /\
             Pagination.desktopNavi q' = Some (DPN.activate i d1) /\
             Pagination.slideNavi q' = Pagination.slideNavi q /\
             Pagination.slideOnBtn q' = Pagination.slideOnBtn q.
Proof.
  intros Hd H. apply Resizing.bind_ok in H. destruct H as (q1 & H1 & H).
  assert (G : exists d1, DPN.navi d1 = DPN.navi d /\
                Pagination.desktopNavi q1 = Some d1 /\
                Pagination.slideNavi q1 = Pagination.slideNavi q /\
                Pagination.slideOnBtn q1 = Pagination.slideOnBtn q).
  { destruct direction as [dir|].
    - unfold Pagination.onDesktopNavi in H1. rewrite Hd in H1.
      destruct (Pagination.switchBtns (Some dir) i d) as [d1|d1] eqn:E;
        cbn [lift] in H1; [|discriminate H1].
      injection H1 as <-. exists d1.
      split; [exact (switchBtns_navi _ _ _ _ E)|]. repeat split.
    - injection H1 as <-. exists d. repeat split. exact Hd. }
  destruct G as (d1 & G1 & G2 & G3 & G4).
  unfold Pagination.onDesktopNavi in H. rewrite G2 in H. cbn [lift] in H.
  injection H as <-. exists d1. split; [exact G1|]. split; [reflexivity|].
  split; [exact G3 | exact G4].
Qed.

(** X25.  [activate(index, direction)] of the pagination controller
    triggers no CLICK_PAGE_BTN event, also when it raises a TypeError.
    When it completes, [index] is the current index, even if there is
    no page of that number; a slide navigator has [index] as its
    active index and the class 'on' on that button if it has a button
    of that number, and no active button otherwise; and so has a
    desktop navigator that has its list. *)
Theorem activate_index (env : Pagination.Env) (index : Z)
    (direction : option DPN.Direction) (p : Pagination.t) :
  Pagination.triggered (state_of (Pagination.activate env index direction p))
  = Pagination.triggered p /\
  forall p', Pagination.activate env index direction p = Ok p' ->
    Pagination.currentIndex p' = index /\
    (forall h, Pagination.slideNavi p = Some h ->
       exists h', Pagination.slideNavi p' = Some h' /\
         HSN.getActivatedIndex h'
         = (if (index <=? 0) || (Z.of_nat (length (HSN.getBtns h)) <? index)
            then 0 else index)%Z /\
         Pagination.slideOnBtn p' = HSN.getBtn index h) /\
    (forall d n, Pagination.desktopNavi p = Some d -> DPN.navi d = Some n ->
       exists d', Pagination.desktopNavi p' = Some d' /\
         DPN.getActivatedIndex d'
         = (if (index <=? 0) || (Z.of_nat (length (Navi.btns n)) <? index)
            then 0 else index)%Z).
Proof.
  split.
  - (* no event *)
    set (R := fun p q : Pagination.t => Pagination.triggered q = Pagination.triggered p).
    assert (Rt : forall a b c, R a b -> R b c -> R a c)
      by (unfold R; intros; congruence).
    assert (Rd : forall f q, R q (state_of (Pagination.onDesktopNavi f q))).
    { intros f q. unfold Pagination.onDesktopNavi.
      destruct (Pagination.desktopNavi q) as [d|]; [|reflexivity].
      destruct (f d); reflexivity. }
    change (R p (state_of (Pagination.activate env index direction p))).
    unfold Pagination.activate.
    apply (Resizing.kept_bind R Rt).
    + destruct (Pagination.slideNavi p) as [h|]; [|reflexivity].
      apply (Rt _ (Pagination.activateSlideNaviBtn index h p)); [reflexivity|].
      apply (Resizing.kept_position R); unfold R; intros; try reflexivity.
      congruence.
    + intro q. apply (Resizing.kept_bind R Rt); [|intro q'; reflexivity].
      destruct (Pagination.desktopNavi q); [|reflexivity].
      apply (Resizing.kept_bind R Rt); [|intro q'; apply Rd].
      destruct direction; [apply Rd | reflexivity].
  - intros p' H. unfold Pagination.activate in H.
    apply Resizing.bind_ok in H. destruct H as (q1 & H1 & H).
    apply Resizing.bind_ok in H. destruct H as (q2 & H2 & H).
    injection H as <-. split; [reflexivity|].
    cbn [Pagination.slideNavi Pagination.desktopNavi Pagination.slideOnBtn
         Pagination.set_currentIndex].
    (* the slide part leaves the desktop navigator alone *)
    assert (D1 : Pagination.desktopNavi q1 = Pagination.desktopNavi p).
    { destruct (Pagination.slideNavi p) as [h|]; [|injection H1 as <-; reflexivity].
      pose proof (Resizing.kept_position
                    (fun a b => Pagination.desktopNavi b = Pagination.desktopNavi a)
                    (fun a => eq_refl) (fun a b c A B => eq_trans B A)
                    (fun h a => eq_refl) (fun b a => eq_refl)
                    env index (Pagination.activateSlideNaviBtn index h p)) as K.
      cbv beta in K. rewrite H1 in K. exact K. }
    (* the desktop part leaves the slide navigator alone *)
    assert (S2 : Pagination.slideNavi q2 = Pagination.slideNavi q1 /\
                 Pagination.slideOnBtn q2 = Pagination.slideOnBtn q1).
    { destruct (Pagination.desktopNavi q1) as [d|] eqn:E;
        [|injection H2 as <-; split; reflexivity].
      destruct (desktop_part direction index q1 q2 d E H2) as (d1 & _ & _ & A & B).
      split; assumption. }
    destruct S2 as [S2 B2]. split.
    + intros h Hs. rewrite Hs in H1.
      destruct (position_navi env index (Pagination.activateSlideNaviBtn index h p)
                  q1 h Hs eq_refl H1)
        as (h' & A1 & A2 & A3).
      exists h'. split; [congruence|]. split; [|congruence].
      unfold HSN.getActivatedIndex, HSN.getBtns. rewrite A2. reflexivity.
    + intros d n Hd Hn. rewrite <- D1 in Hd. rewrite Hd in H2.
      destruct (desktop_part direction index q1 q2 d Hd H2) as (d1 & A1 & A2 & _).
      exists (DPN.activate index d1). split; [exact A2|].
      apply Breakpoint.desktop_activate_index. congruence.
Qed.

(** Page 9 of five, asked for on the mobile strip: 9 becomes the current
    index, and no button is active. *)
Lemma activate_index_witness :
  let p := Samples.controller 5 320 in
  exists p' h',
    Pagination.activate (Samples.page 5 320) 9 None p = Ok p' /\
    Pagination.currentIndex p' = 9%Z /\
    Pagination.slideNavi p' = Some h' /\
    HSN.getActivatedIndex h' = 0%Z /\
    Pagination.slideOnBtn p' = None /\
    Pagination.triggered p' = [].
Proof.
  intro p.
  destruct (activate_index (Samples.page 5 320) 9 None p) as [T A].
  destruct (Pagination.activate (Samples.page 5 320) 9 None p) as [p'|p'] eqn:E;
    [|vm_compute in E; discriminate E].
  destruct (A p' eq_refl) as (A1 & A2 & _).
  destruct (Pagination.slideNavi p) as [h|] eqn:Eh;
    [|vm_compute in Eh; discriminate Eh].
  destruct (A2 h eq_refl) as (h' & B1 & B2 & B3).
  assert (Hlen : length (HSN.getBtns h) = 5%nat)
    by (vm_compute in Eh; injection Eh as <-; reflexivity).
  assert (Hbtn : HSN.getBtn 9 h = None)
    by (vm_compute in Eh; injection Eh as <-; reflexivity).
  exists p', h'. split; [reflexivity|]. split; [exact A1|].
  split; [exact B1|]. split; [rewrite B2, Hlen; reflexivity|].
  split; [rewrite B3; exact Hbtn|].
  cbn [state_of] in T. rewrite T. vm_compute. reflexivity.
Defined.

End Activating.

(** ** Dragging past the ends with the loose option *)

Module LooseDrag.

Import Dragdealer Vocabulary.
Local Open Scope Q_scope.

(** The loose value of a ratio [r] with the clamped ratio [t]. *)
Lemma loose_cases (r t : Q) :
  is_clamp r t ->
  (0 <= r <= 1 -> t + (r - t) / 4 == r) /\
  (r < 0 -> t + (r - t) / 4 == r / 4) /\
  (1 < r -> t + (r - t) / 4 == 1 + (r - 1) / 4).
Proof.
  intros (Hlo & Hmid & Hhi). split; [|split]; intro H.
  - rewrite (Hmid H). field.
  - rewrite (Hlo H). field.
  - rewrite (Hhi H). field.
Qed.

(** X26.  One animation frame of a drag with the loose option and
    without the snap option: the target and the current value become
    the ratio of the cursor's offset while that is between 0 and 1;
    past an end of the track they go on beyond 0 or 1 by a quarter of
    what the cursor is beyond it.  The change of the target is recorded
    for the slide after the release. *)
Theorem drag_loose (cur : Cursor) (d : t) (c : Core) (px py : Q) :
  core d = Some c -> dragging d = true ->
  Opt.loose (options d) = true -> Opt.snap (options d) = false ->
  Value.target (value c) = (Some px, Some py) ->
  let offx := cx cur - fst (Offset.wrapper (offset c)) - fst (Offset.mouse (offset c)) in
  let offy := cy cur - snd (Offset.wrapper (offset c)) - snd (Offset.mouse (offset c)) in
  exists d' c' rx ry tx ty,
    animate false false cur d = Ok d' /\ core d' = Some c' /\
    getRatiosByOffsets c (Some offx, Some offy) = (Some rx, Some ry) /\
    Value.target (value c') = (Some tx, Some ty) /\
    Value.current (value c') = (Some tx, Some ty) /\
    change c' = (Some (tx - px), Some (ty - py)) /\
    ((0 <= rx <= 1 -> tx == rx) /\ (rx < 0 -> tx == rx / 4) /\
     (1 < rx -> tx == 1 + (rx - 1) / 4)) /\
    ((0 <= ry <= 1 -> ty == ry) /\ (ry < 0 -> ty == ry / 4) /\
     (1 < ry -> ty == 1 + (ry - 1) / 4)).
Proof.
  intros Hc Hg Hl Hs Hprev offx offy.
  unfold animate, withCore. rewrite Hg, Hc. cbn [negb andb orb].
  rewrite Hl, Hprev. unfold setTargetValueByOffset. fold offx offy.
  destruct (Tapping.ratio_finite offx (Bounds.availWidth (bounds c))
              (Bounds.left (bounds c))) as [rx Erx].
  destruct (Tapping.ratio_finite offy (Bounds.availHeight (bounds c))
              (Bounds.top (bounds c))) as [ry Ery].
  unfold getRatiosByOffsets. cbn [fst snd]. rewrite Erx, Ery.
  unfold getLooseValue, getProperValue. rewrite Hg, Hs.
  cbn [negb andb orb fst snd]. rewrite !Settling.clamp_value.
  cbn [sub add divq lift1 lift2 option_map].
  set (tx := qmin (qmax rx 0) 1 + (rx - qmin (qmax rx 0) 1) / 4).
  set (ty := qmin (qmax ry 0) 1 + (ry - qmin (qmax ry 0) 1) / 4).
  set (tg := @pair num num (Some tx) (Some ty)).
  set (c1 := set_value_target tg c).
  set (c2 := set_offset_target (getOffsetsByRatios c1 tg) c1).
  set (c3 := set_change _ c2).
  set (c4 := set_value_current (Value.target (value c3)) c3).
  destruct (Positioning.update_offset_result d c4) as (_ & Hval & _).
  assert (Hch : forall c', c' = snd (updateOffsetFromValue d c4) ->
                           change c' = change c4).
  { intros c' ->. unfold updateOffsetFromValue.
    destruct (negb (groupCompare _ _)); reflexivity. }
  specialize (Hch _ eq_refl).
  destruct (updateOffsetFromValue d c4) as [d5 c5]. cbn [fst snd] in Hval, Hch.
  destruct (Positioning.animation_callback_result d5 c5) as (_ & Htg).
  assert (Hcur : forall r, r = callAnimationCallback d5 c5 ->
                           Value.current (value (snd r)) = Value.current (value c5) /\
                           change (snd r) = change c5).
  { intros r ->. unfold callAnimationCallback.
    destruct (negb (groupCompare _ _)); split; reflexivity. }
  specialize (Hcur _ eq_refl).
  destruct (callAnimationCallback d5 c5) as [d6 c6].
  cbn [fst snd] in Htg, Hcur. destruct Hcur as [Hcur Hch6].
  exists (set_core c6 d6), c6, rx, ry, tx, ty.
  split; [reflexivity|]. split; [reflexivity|]. split; [reflexivity|].
  split; [rewrite Htg, Hval; reflexivity|].
  split; [rewrite Hcur, Hval; reflexivity|].
  split; [rewrite Hch6, Hch; reflexivity|].
  split.
  - exact (loose_cases rx _ (Settling.clamp_is_clamp rx)).
  - exact (loose_cases ry _ (Settling.clamp_is_clamp ry)).
Qed.

(** The sample slider, 150 pixels to move in, dragged to 210 pixels:
    the value goes a quarter of the 0.4 beyond the end. *)
Lemma drag_loose_witness :
  let d := state_of (startDrag Samples.cursor0 Samples.slider
                       (Samples.engine (Samples.withSteps 0 false true))) in
  exists d' c' tx ty,
    animate false false (Samples.cursorAt 210) d = Ok d' /\
    core d' = Some c' /\
    Value.current (value c') = (Some tx, Some ty) /\ tx == 11 # 10.
Proof.
  intro d.
  destruct (core d) as [c|] eqn:E; [|vm_compute in E; discriminate E].
  assert (Hg : dragging d = true) by (vm_compute; reflexivity).
  assert (Hl : Opt.loose (options d) = true) by (vm_compute; reflexivity).
  assert (Hs : Opt.snap (options d) = false) by (vm_compute; reflexivity).
  assert (Hp : Value.target (value c) = (Some 0, Some 0))
    by (vm_compute in E; injection E as <-; reflexivity).
  assert (Hr : getRatiosByOffsets c
                 (Some (cx (Samples.cursorAt 210) - fst (Offset.wrapper (offset c))
                        - fst (Offset.mouse (offset c))),
                  Some (cy (Samples.cursorAt 210) - snd (Offset.wrapper (offset c))
                        - snd (Offset.mouse (offset c))))
               = (Some (210 # 150), Some 0))
    by (vm_compute in E; injection E as <-; vm_compute; reflexivity).
  destruct (drag_loose (Samples.cursorAt 210) d c 0 0 E Hg Hl Hs Hp)
    as (d' & c' & rx & ry & tx & ty & Ha & Hc' & Hrr & _ & Hcu & _ & (_ & _ & Hx) & _).
  rewrite Hr in Hrr. injection Hrr as <- <-.
  exists d', c', tx, ty. split; [exact Ha|]. split; [exact Hc'|].
  split; [exact Hcu|].
  rewrite Hx; [reflexivity | reflexivity].
Defined.

End LooseDrag.

(** ** The tweens and their callbacks *)

Module TweenCalls.

Import Ticker Vocabulary.

(** *** The store *)






(** *** Steps without a callback *)













(** *** The log stays in order *)






(** *** What [stop] and [destroy] leave alone *)





(** *** Rendering keeps the log in order *)







End TweenCalls.

(** ** One frame of the render loop *)

Module RenderLoop.

Import Ticker Vocabulary.

(** *** Finding and removing a tween in the list *)




(** *** [destroy] of a tween that is in the list *)


(** *** One [render] *)





(** *** The loop against the list as it was *)






End RenderLoop.

(** ** Colours on the way between two colours *)

Module TramBlend.

Import Stdlib.Strings.Ascii Stdlib.Strings.String.
Import Tram.
Local Open Scope Q_scope.







End TramBlend.

(** ** Where the mobile strip is sent *)

Module StripPosition.

Import Vocabulary.
Module HSN := HorizontalSlideNavi.
Local Open Scope Q_scope.

(** [setValue] of the slide navigator on an engine without steps. *)
Lemma slide_setValue (x y : Q) (h : HSN.t) (d : Dragdealer.t) (c : Dragdealer.Core) :
  HSN.dragDealer h = Some d -> initialised d c ->
  (Dragdealer.Opt.steps (Dragdealer.options d) <= 1)%Z ->
  exists h' d' c' tx ty,
    HSN.setValue (Some x) (Some y) h = Ok h' /\
    HSN.navi h' = HSN.navi h /\
    HSN.dragDealer h' = Some d' /\ Dragdealer.core d' = Some c' /\
    Dragdealer.bounds c' = Dragdealer.bounds c /\
    Dragdealer.Value.target (Dragdealer.value c') = (Some tx, Some ty) /\
    is_clamp x tx /\ is_clamp y ty.
Proof.
  intros Hd [Hcore Htab] Hsteps.
  assert (Hn : ~ stepping d) by (intros [H _]; lia).
  destruct (Positioning.or0_finite y) as (y' & Hy' & Ey).
  destruct (Settling.getProperValue_settled d c x y' Htab)
    as (tx & ty & Hp & Sx & Sy).
  unfold HSN.setValue, HSN.onDragDealer. rewrite Hd.
  unfold Dragdealer.setValue, Dragdealer.withCore. rewrite Hcore, Hy'.
  unfold Dragdealer.setTargetValue. cbv beta iota zeta. rewrite Hp.
  cbn [lift].
  eexists _, _, _, tx, ty. split; [reflexivity|]. split; [reflexivity|].
  split; [reflexivity|]. split; [reflexivity|]. split; [reflexivity|].
  split; [reflexivity|]. split.
  - destruct Sx as (cx & Hcx & _ & Hq). specialize (Hq Hn).
    destruct Hcx as (A & B & C). repeat split; intro H; rewrite Hq; auto.
  - destruct Sy as (cy & Hcy & _ & Hq). specialize (Hq Hn).
    apply (Settling.clamp_compat y' y cy) in Hcy; [|exact Ey].
    destruct Hcy as (A & B & C). repeat split; intro H; rewrite Hq; auto.
Qed.

(** X30.  [setSlidePositionByIndex(i)] for a page [i] the mobile strip
    has, its drag engine initialised and without steps: it completes
    and makes [i] the active index.  For page 1 it asks the engine for
    the ratio 0.  For any later page, the last one included, it asks
    for the ratio that puts the button of page [i - 1] at the left
    edge of the wrap: the target is the ratio of the offset minus that
    button's left position, clamped to the interval from 0 to 1; when
    that position is a whole number of pixels, the pixel offset of the
    target is minus that position while this lies within the bounds of
    the strip, and the nearer end of the bounds otherwise. *)
Theorem strip_to_button (env : Pagination.Env) (i : Z) (p : Pagination.t)
    (h : HSN.t) (d : Dragdealer.t) (c : Dragdealer.Core) :
  Pagination.slideNavi p = Some h -> HSN.dragDealer h = Some d ->
  initialised d c ->
  (Dragdealer.Opt.steps (Dragdealer.options d) <= 1)%Z ->
  (1 <= i <= Z.of_nat (length (HSN.getBtns h)))%Z ->
  exists p' h' d' c' tx ty,
    Pagination.setSlidePositionByIndex env i p = Ok p' /\
    Pagination.slideNavi p' = Some h' /\
    HSN.getActivatedIndex h' = i /\
    HSN.dragDealer h' = Some d' /\ Dragdealer.core d' = Some c' /\
    Dragdealer.Value.target (Dragdealer.value c') = (Some tx, Some ty) /\
    (i = 1%Z -> tx == 0) /\
    ((1 < i)%Z ->
     exists btn r,
       HSN.getBtn (i - 1) h = Some btn /\
       Dragdealer.getRatioByOffset (Some (- Pagination.btnLeft env btn))
         (Dragdealer.Bounds.availWidth (Dragdealer.bounds c))
         (Dragdealer.Bounds.left (Dragdealer.bounds c)) = Some r /\
       is_clamp r tx /\
       tracks (- Pagination.btnLeft env btn)
         (Dragdealer.Bounds.availWidth (Dragdealer.bounds c))
         (Dragdealer.Bounds.left (Dragdealer.bounds c))
         (pixel tx (Dragdealer.Bounds.availWidth (Dragdealer.bounds c))
                   (Dragdealer.Bounds.left (Dragdealer.bounds c)))).
Proof.
  intros Hs Hd Hi Hsteps Hrange.
  unfold Pagination.setSlidePositionByIndex. rewrite Hs.
  unfold Pagination.slideActivate. rewrite Hs.
  unfold HSN.activate, Navi.activate.
  assert (Hin : ((i <=? 0) || (Z.of_nat (length (Navi.btns (HSN.navi h))) <? i))%Z
                = false).
  { apply orb_false_iff. split; [apply Z.leb_gt | apply Z.ltb_ge];
      unfold HSN.getBtns, Navi.getBtns in Hrange; lia. }
  rewrite Hin. cbn [bind].
  set (n' := Navi.set_indices (Navi.currentIndex (HSN.navi h)) i (HSN.navi h)).
  set (h1 := HSN.set_navi n' h).
  set (q := Pagination.set_slideNavi (Some h1) _).
  assert (Hq : Pagination.slideNavi q = Some h1) by reflexivity.
  rewrite Hq.
  assert (Hlen : HSN.getBtns h1 = HSN.getBtns h) by reflexivity.
  rewrite Hlen.
  assert (Hout : ((i <? 1) || (Z.of_nat (length (HSN.getBtns h)) <? i))%Z = false).
  { apply orb_false_iff. split; [apply Z.ltb_ge | apply Z.ltb_ge]; lia. }
  rewrite Hout.
  assert (Hnext : ((if (Z.of_nat (length (HSN.getBtns h)) <? i)%Z then 0 else i + 1)
                   =? 0)%Z = false).
  { destruct (Z.ltb_spec (Z.of_nat (length (HSN.getBtns h))) i); [lia|].
    apply Z.eqb_neq. lia. }
  rewrite Hnext.
  assert (Hd1 : HSN.dragDealer h1 = Some d) by exact Hd.
  (* what a call of setValue through the navigator leaves *)
  assert (Sent : forall x y,
             exists p' h' d' c' tx ty,
               Pagination.onSlideNavi (HSN.setValue (Some x) (Some y)) q = Ok p' /\
               Pagination.slideNavi p' = Some h' /\
               HSN.getActivatedIndex h' = i /\
               HSN.dragDealer h' = Some d' /\ Dragdealer.core d' = Some c' /\
               Dragdealer.Value.target (Dragdealer.value c') = (Some tx, Some ty) /\
               is_clamp x tx).
  { intros x y.
    destruct (slide_setValue x y h1 d c Hd1 Hi Hsteps)
      as (h' & d' & c' & tx & ty & Hset & Hnavi & Hd' & Hc' & _ & Htg & Cx & _).
    unfold Pagination.onSlideNavi. rewrite Hq, Hset. cbn [lift].
    eexists _, h', d', c', tx, ty. split; [reflexivity|]. split; [reflexivity|].
    split; [unfold HSN.getActivatedIndex; rewrite Hnavi; reflexivity|].
    split; [exact Hd'|]. split; [exact Hc'|]. split; [exact Htg | exact Cx]. }
  destruct (Z.leb_spec i 1) as [Hle|Hgt].
  - (* the first page *)
    cbn [Z.eqb]. unfold HSN.setRatioX.
    destruct (Sent 0 0) as (p' & h' & d' & c' & tx & ty & H1 & H2 & H3 & H4 & H5 & H6 & Cx).
    exists p', h', d', c', tx, ty.
    split; [exact H1|]. split; [exact H2|]. split; [exact H3|].
    split; [exact H4|]. split; [exact H5|]. split; [exact H6|]. split.
    + intros _. destruct Cx as (_ & B & _). apply B. split; discriminate.
    + intro H. lia.
  - destruct (Z.eqb_spec (i - 1) 0) as [H0|_]; [lia|].
    assert (Hbtn : exists btn, HSN.getBtn (i - 1) h = Some btn).
    { unfold HSN.getBtn, Navi.getBtn.
      destruct (Z.ltb_spec (i - 1 - 1) 0); [lia|].
      unfold HSN.getBtns, Navi.getBtns in Hrange.
      destruct (Z.leb_spec (Z.of_nat (length (Navi.btns (HSN.navi h)))) (i - 1 - 1));
        [lia|]. cbn [orb].
      destruct (nth_error (Navi.btns (HSN.navi h)) (Z.to_nat (i - 1 - 1))) eqn:E;
        [eexists; reflexivity|].
      apply nth_error_None in E. lia. }
    destruct Hbtn as [btn Hbtn].
    assert (Hbtn1 : HSN.getBtn (i - 1) h1 = Some btn) by exact Hbtn.
    rewrite Hbtn1. unfold HSN.setX at 1.
    destruct Hi as [Hcore Htab]. 
    destruct (Tapping.ratio_finite (- Pagination.btnLeft env btn)
                (Dragdealer.Bounds.availWidth (Dragdealer.bounds c))
                (Dragdealer.Bounds.left (Dragdealer.bounds c))) as [r Er].
    destruct (Tapping.ratio_finite 0
                (Dragdealer.Bounds.availHeight (Dragdealer.bounds c))
                (Dragdealer.Bounds.top (Dragdealer.bounds c))) as [ry Ery].
    assert (Hx : forall hh,
               HSN.dragDealer hh = Some d ->
               HSN.setX (Some (- Pagination.btnLeft env btn)) hh
               = HSN.setValue (Some r) (Some ry) hh).
    { intros hh Hh. unfold HSN.setX. rewrite Hh, Hcore.
      unfold Dragdealer.getRatiosByOffsets. cbn [fst snd]. rewrite Er, Ery.
      reflexivity. }
    assert (Hon : Pagination.onSlideNavi
                    (HSN.setX (Some (- Pagination.btnLeft env btn))) q
                  = Pagination.onSlideNavi (HSN.setValue (Some r) (Some ry)) q).
    { unfold Pagination.onSlideNavi. rewrite Hq, (Hx h1 Hd1). reflexivity. }
    fold (HSN.setX (Some (- Pagination.btnLeft env btn))). rewrite Hon.
    destruct (Sent r ry) as (p' & h' & d' & c' & tx & ty & H1 & H2 & H3 & H4 & H5 & H6 & Cx).
    exists p', h', d', c', tx, ty.
    split; [exact H1|]. split; [exact H2|]. split; [exact H3|].
    split; [exact H4|]. split; [exact H5|]. split; [exact H6|]. split.
    + intro H. lia.
    + intros _. exists btn, r. split; [exact Hbtn|]. split; [exact Er|].
      split; [exact Cx|].
      exact (Dragging.clamped_pixel_tracks _ _ _ r tx Er Cx).
Qed.

(** Page 3 of five on a strip of 800 pixels in a wrap of 320: the
    button of page 2 is 160 pixels in, and the target ratio is a third. *)
Lemma strip_to_button_witness :
  let env := Samples.page 5 320 in
  let p := Samples.controller 5 320 in
  exists p' h' d' c' tx ty,
    Pagination.setSlidePositionByIndex env 3 p = Ok p' /\
    Pagination.slideNavi p' = Some h' /\
    HSN.getActivatedIndex h' = 3%Z /\
    HSN.dragDealer h' = Some d' /\ Dragdealer.core d' = Some c' /\
    Dragdealer.Value.target (Dragdealer.value c') = (Some tx, Some ty) /\
    tx == 1 # 3.
Proof.
  intros env p.
  destruct (Pagination.slideNavi p) as [h|] eqn:Eh;
    [|vm_compute in Eh; discriminate Eh].
  destruct (HSN.dragDealer h) as [d|] eqn:Ed;
    [|vm_compute in Eh; injection Eh as <-; vm_compute in Ed; discriminate Ed].
  destruct (Dragdealer.core d) as [c|] eqn:Ec;
    [|vm_compute in Eh; injection Eh as <-; vm_compute in Ed; injection Ed as <-;
      vm_compute in Ec; discriminate Ec].
  assert (Hst : Dragdealer.stepRatios c
                = Dragdealer.calculateStepRatios (Dragdealer.options d)).
  { vm_compute in Eh; injection Eh as <-. vm_compute in Ed; injection Ed as <-.
    vm_compute in Ec; injection Ec as <-. vm_compute. reflexivity. }
  assert (Hsteps : (Dragdealer.Opt.steps (Dragdealer.options d) <= 1)%Z).
  { vm_compute in Eh; injection Eh as <-. vm_compute in Ed; injection Ed as <-.
    vm_compute. discriminate. }
  assert (Hlen : length (HSN.getBtns h) = 5%nat)
    by (vm_compute in Eh; injection Eh as <-; reflexivity).
  assert (Hrange : (1 <= 3 <= Z.of_nat (length (HSN.getBtns h)))%Z)
    by (rewrite Hlen; vm_compute; split; discriminate).
  destruct (strip_to_button env 3 p h d c Eh Ed (conj Ec Hst) Hsteps Hrange)
    as (p' & h' & d' & c' & tx & ty & H1 & H2 & H3 & H4 & H5 & H6 & _ & Hmid).
  destruct (Hmid eq_refl) as (btn & r & Hb & Hr & Hcl & _).
  assert (Er : r == 1 # 3).
  { vm_compute in Eh; injection Eh as <-. vm_compute in Ed; injection Ed as <-.
    vm_compute in Ec; injection Ec as <-.
    vm_compute in Hb. injection Hb as <-.
    vm_compute in Hr. injection Hr as <-. reflexivity. }
  exists p', h', d', c', tx, ty.
  split; [exact H1|]. split; [exact H2|]. split; [exact H3|].
  split; [exact H4|]. split; [exact H5|]. split; [exact H6|].
  destruct Hcl as (_ & Hin & _). rewrite <- Er. apply Hin.
  rewrite Er. split; discriminate.
Defined.

End StripPosition.
